(** * KnowTation: citation records, BibTeX import, Nostr event codec and
      synchronisation, checked against the TypeScript sources.

    The development is a shallow embedding.  JavaScript strings are
    sequences of UTF-16 code units, numbers are the integers plus NaN
    (exact for the safe integers, see [JS.number]), objects used as
    dictionaries are finite maps, and the asynchronous handlers are state
    passing functions over an explicit world (local storage, relay log,
    toasts, clock and entropy). *)

From Stdlib Require Import ZArith List String Ascii Bool Lia Sorted.
From stdpp Require Import base option list gmap.
Import ListNotations.

Local Open Scope Z_scope.

(** ** JavaScript values *)

Module JS.

(** A string is its sequence of UTF-16 code units. *)
Abbreviation jsstring := (list Z).

(** [js "abc"] is the string literal ['abc'] (one code unit per character of
    the literal). *)
Definition js (s : string) : jsstring :=
  map (fun a => Z.of_N (N_of_ascii a)) (list_ascii_of_string s).

Definition code_unit (c : Z) : Prop := 0 <= c < 65536.

Definition str_eqb (a b : jsstring) : bool := bool_decide (a = b).

(** [number]: an integer or NaN.  The numbers of the program are doubles:
    [Int z] is the program's number for the safe integers [z], those of
    absolute value up to 2^53 - 1, and on these the arithmetic, [toString]
    and [parseInt] below are those of the language.  Outside them a double
    rounds, and the definitions below do not follow it; fractions and
    infinities have no counterpart here. *)
Inductive number :=
| Int (z : Z)
| NaN.

#[global] Instance number_eq_dec : EqDecision number.
Proof. solve_decision. Defined.

(** Truthiness of a number: [0] and [NaN] are falsy. *)
Definition truthy_number (n : number) : bool :=
  match n with
  | Int z => negb (z =? 0)
  | NaN => false
  end.

(** [a || b] on strings where [a] may be [undefined]. *)
Definition or_else (a : option jsstring) (b : jsstring) : jsstring :=
  match a with
  | Some (c :: s) => c :: s
  | _ => b
  end.

(** [a || b] where both sides may be [undefined]. *)
Definition or_undef (a b : option jsstring) : option jsstring :=
  match a with
  | Some (c :: s) => Some (c :: s)
  | _ => b
  end.

(** Truthiness of an optional string: [undefined] and [''] are falsy. *)
Definition truthy (a : option jsstring) : bool :=
  match a with
  | Some (_ :: _) => true
  | _ => false
  end.

(** *** Character classes of the regular expressions used *)

Definition is_digit (c : Z) : bool := (48 <=? c) && (c <=? 57).
Definition is_upper (c : Z) : bool := (65 <=? c) && (c <=? 90).
Definition is_lower (c : Z) : bool := (97 <=? c) && (c <=? 122).

(** [\w] is [[A-Za-z0-9_]]. *)
Definition is_word (c : Z) : bool :=
  is_upper c || is_lower c || is_digit c || (c =? 95).

(** [\s]: WhiteSpace and LineTerminator code points. *)
Definition is_space (c : Z) : bool :=
  ((9 <=? c) && (c <=? 13)) || (c =? 32) || (c =? 160) || (c =? 5760)
  || ((8192 <=? c) && (c <=? 8202)) || (c =? 8232) || (c =? 8233)
  || (c =? 8239) || (c =? 8287) || (c =? 12288) || (c =? 65279).

Definition is_char (x : Z) (c : Z) : bool := c =? x.
Definition not_char (x : Z) (c : Z) : bool := negb (c =? x).
Definition any_char (c : Z) : bool := true.
Definition non_space (c : Z) : bool := negb (is_space c).

(** [String.prototype.toLowerCase].  Only the ASCII letters are mapped.
    Every use but one is on text already restricted to [\w]; the remaining
    use is the stop-word test of [createCitationKey], whose outcome no other
    case mapping can change: the only character outside ASCII whose lower
    case is an ASCII letter is U+212A, which maps to k, and no stop word
    holds a k. *)
Definition lower_char (c : Z) : Z := if is_upper c then c + 32 else c.
Definition toLowerCase (s : jsstring) : jsstring := map lower_char s.

(** [String.prototype.trim]. *)
Fixpoint trimStart (s : jsstring) : jsstring :=
  match s with
  | c :: s' => if is_space c then trimStart s' else s
  | [] => []
  end.

Definition trimEnd (s : jsstring) : jsstring := rev (trimStart (rev s)).
Definition trim (s : jsstring) : jsstring := trimEnd (trimStart s).

(** [s.startsWith(p)]. *)
Fixpoint starts_with (p s : jsstring) : bool :=
  match p, s with
  | [], _ => true
  | a :: p', b :: s' => (a =? b) && starts_with p' s'
  | _ :: _, [] => false
  end.

(** [String.prototype.split] with a non-empty string separator.  [skip]
    counts the code units of a separator occurrence still to be passed. *)
Fixpoint split_from (sep : jsstring) (skip : nat) (acc : jsstring)
    (s : jsstring) : list jsstring :=
  match s with
  | [] => [acc]
  | c :: s' =>
    match skip with
    | S n => split_from sep n acc s'
    | O =>
      if starts_with sep s
      then acc :: split_from sep (Nat.pred (length sep)) [] s'
      else split_from sep 0 (acc ++ [c]) s'
    end
  end.

(** [s.split(sep)]; [s.split('')] yields the single code units. *)
Definition split (sep : jsstring) (s : jsstring) : list jsstring :=
  match sep with
  | [] => map (fun c => [c]) s
  | _ => split_from sep 0 [] s
  end.

(** *** Numbers and text *)

Definition digit_char (d : Z) : Z := if d <? 10 then 48 + d else 87 + d.

(** Digits of a non-negative integer in the given radix, most significant
    first; [fuel] bounds the number of digits. *)
Fixpoint digits_of (radix : Z) (fuel : nat) (z : Z) (acc : jsstring) : jsstring :=
  match fuel with
  | O => acc
  | S f =>
    let acc' := digit_char (z mod radix) :: acc in
    if z <? radix then acc' else digits_of radix f (z / radix) acc'
  end.

(** More digits than any [z] has in a radix of at least 2. *)
Definition digit_fuel (z : Z) : nat := S (Z.to_nat (Z.log2 z)).

(** [Number.prototype.toString(radix)] on the safe integers: all the
    digits, after a minus sign for a negative number.  (In radix 10 the
    language writes every integer below 10^21 in this way and switches to
    exponent notation from there on, which this definition does not
    follow.) *)
Definition toStringRadix (radix : Z) (z : Z) : jsstring :=
  if z <? 0 then 45 :: digits_of radix (digit_fuel (- z)) (- z) []
  else digits_of radix (digit_fuel z) z [].

Definition toString (n : number) : jsstring :=
  match n with
  | Int z => toStringRadix 10 z
  | NaN => js "NaN"
  end.

(** Value of a code unit as a digit of the radix, if it is one. *)
Definition digit_value (radix : Z) (c : Z) : option Z :=
  let v := if is_digit c then c - 48
           else if is_lower c then c - 87
           else if is_upper c then c - 55
           else radix in
  if v <? radix then Some v else None.

(** Longest prefix of digits, folded into a value. *)
Fixpoint parse_digits (radix : Z) (acc : option Z) (s : jsstring) : option Z :=
  match s with
  | c :: s' =>
    match digit_value radix c with
    | Some v => parse_digits radix (Some (default 0 acc * radix + v)) s'
    | None => acc
    end
  | [] => acc
  end.

(** [parseInt(s)] without a radix argument: leading white space is skipped,
    a sign is read, a [0x] or [0X] prefix selects radix 16, and the longest
    digit prefix is the value; no digit at all gives [NaN].  The value is
    that of the language when it is a safe integer; a longer digit prefix
    the language rounds to a double, and this definition does not. *)
Definition parseInt (s : jsstring) : number :=
  let s1 := trimStart s in
  let '(neg, s2) :=
    match s1 with
    | c :: r =>
      if c =? 45 then (true, r)
      else if c =? 43 then (false, r)
      else (false, s1)
    | [] => (false, s1)
    end in
  let '(radix, s3) :=
    match s2 with
    | c :: x :: r =>
      if (c =? 48) && ((x =? 120) || (x =? 88)) then (16, r) else (10, s2)
    | _ => (10, s2)
    end in
  match parse_digits radix None s3 with
  | Some v => Int (if neg : bool then - v else v)
  | None => NaN
  end.

(** *** Regular expressions

    The fragment the sources use: literal characters and classes, greedy and
    lazy repetition of a class, sequencing, alternation (for the bounded
    repetition of the DOI pattern), capturing groups and [$].  The matcher
    is the backtracking matcher of the language, in continuation passing
    style: a continuation that fails makes the last choice point try its
    next alternative. *)

Inductive regex :=
| Eps
| Chr (p : Z -> bool)
| Star (greedy : bool) (p : Z -> bool)
| Seq (a b : regex)
| Alt (a b : regex)
| Group (i : nat) (a : regex)
| Eos.

Definition Plus (greedy : bool) (p : Z -> bool) : regex :=
  Seq (Chr p) (Star greedy p).

Definition seq_of (l : list regex) : regex := foldr Seq Eps l.

(** [p{n}] and the greedy [p{0,n}]. *)
Definition Exactly (n : nat) (p : Z -> bool) : regex :=
  seq_of (replicate n (Chr p)).

Fixpoint AtMost (n : nat) (p : Z -> bool) : regex :=
  match n with
  | O => Eps
  | S n' => Alt (Seq (Chr p) (AtMost n' p)) Eps
  end.

Abbreviation captures := (gmap nat jsstring).

Section Matcher.
Context {R : Type}.

Fixpoint star (greedy : bool) (p : Z -> bool) (k : jsstring -> option R)
    (s : jsstring) : option R :=
  match s with
  | c :: s' =>
    if p c then
      if greedy then
        match star greedy p k s' with
        | Some r => Some r
        | None => k s
        end
      else
        match k s with
        | Some r => Some r
        | None => star greedy p k s'
        end
    else k s
  | [] => k []
  end.

Fixpoint rmatch (r : regex) (s : jsstring) (caps : captures)
    (k : jsstring -> captures -> option R) : option R :=
  match r with
  | Eps => k s caps
  | Chr p =>
    match s with
    | c :: s' => if p c then k s' caps else None
    | [] => None
    end
  | Star g p => star g p (fun s' => k s' caps) s
  | Seq a b => rmatch a s caps (fun s' caps' => rmatch b s' caps' k)
  | Alt a b =>
    match rmatch a s caps k with
    | Some r => Some r
    | None => rmatch b s caps k
    end
  | Group i a =>
    rmatch a s caps
      (fun s' caps' => k s' (<[i := take (length s - length s') s]> caps'))
  | Eos =>
    match s with
    | [] => k s caps
    | _ :: _ => None
    end
  end.
End Matcher.

(** A match anchored at the start of [s]: the captures and the text left
    after the match. *)
Definition match_at (r : regex) (s : jsstring) : option (captures * jsstring) :=
  rmatch r s ∅ (fun s' caps => Some (caps, s')).

(** [r.exec(s)] from the current position: the leftmost start at which the
    pattern matches. *)
Fixpoint exec (r : regex) (s : jsstring) : option (captures * jsstring) :=
  match match_at r s with
  | Some m => Some m
  | None =>
    match s with
    | [] => None
    | _ :: s' => exec r s'
    end
  end.

(** The loop [while ((m = r.exec(s)) !== null) { ... }] over a global
    pattern: every match in turn, each search resuming where the previous
    match ended.  The patterns used never match the empty string, so each
    round shortens the text left and [S (length s)] rounds are enough. *)
Fixpoint exec_loop (fuel : nat) (r : regex) (s : jsstring) : list captures :=
  match fuel with
  | O => []
  | S f =>
    match exec r s with
    | Some (caps, rest) => caps :: exec_loop f r rest
    | None => []
    end
  end.

Definition exec_all (r : regex) (s : jsstring) : list captures :=
  exec_loop (S (length s)) r s.

(** [s.split(r)] for a pattern without capturing groups.  [skip] counts
    the code units of the current separator match still to be passed;
    [acc] is the piece being collected. *)
Fixpoint split_re_from (r : regex) (skip : nat) (acc : jsstring)
    (s : jsstring) : list jsstring :=
  match s with
  | [] => [acc]
  | c :: s' =>
    match skip with
    | S n => split_re_from r n acc s'
    | O =>
      match match_at r s with
      | Some (_, rest) =>
        match (length s - length rest)%nat with
        | O =>
          match acc with
          | [] => split_re_from r 0 [c] s'
          | _ => acc :: split_re_from r 0 [c] s'
          end
        | S n => acc :: split_re_from r n [] s'
        end
      | None => split_re_from r 0 (acc ++ [c]) s'
      end
    end
  end.

Definition split_re (r : regex) (s : jsstring) : list jsstring :=
  match s with
  | [] => if match_at r [] is Some _ then [] else [[]]
  | _ => split_re_from r 0 [] s
  end.

(** [s.replace(/[class]/g, '')]: every code unit of the class is dropped. *)
Definition remove_all (p : Z -> bool) (s : jsstring) : jsstring :=
  filter (fun c => negb (p c) = true) s.

End JS.

Import JS.

(** ** Data model (types/reference.ts) *)

Inductive ReferenceVisibility := public | private.

#[global] Instance ReferenceVisibility_eq_dec : EqDecision ReferenceVisibility.
Proof. solve_decision. Defined.

Record Reference := mkReference {
  id : jsstring;
  title : jsstring;
  authors : list jsstring;
  year : option number;
  journalOrBook : option jsstring;
  doi : option jsstring;
  url : option jsstring;
  tags : list jsstring;
  notes : option jsstring;
  visibility : ReferenceVisibility;
  createdAt : Z;
  updatedAt : Z;
  eventId : option jsstring
}.

Record ReferenceFormData := mkFormData {
  f_title : jsstring;
  f_authors : list jsstring;
  f_year : option number;
  f_journalOrBook : option jsstring;
  f_doi : option jsstring;
  f_url : option jsstring;
  f_tags : list jsstring;
  f_notes : option jsstring;
  f_visibility : ReferenceVisibility
}.

(** ** Citation keys (utils/validators.ts) *)

Module Validators.

Definition skipWords : list jsstring :=
  [js "a"; js "an"; js "the"; js "on"; js "in"; js "at"; js "to"; js "for"; js "of"].

(** [/(\S+)$/] *)
Definition lastNameRegex : regex := Seq (Group 1 (Plus true non_space)) Eos.

(** [/\s+/] *)
Definition spacesRegex : regex := Plus true is_space.

(** [Array.prototype.includes] on strings. *)
Definition includes (l : list jsstring) (x : jsstring) : bool :=
  existsb (str_eqb x) l.

Definition createCitationKey (authors : list jsstring) (year : option number)
    (title : jsstring) : jsstring :=
  let firstAuthor := or_else (authors !! 0%nat) (js "Unknown") in
  let lastName :=
    match exec lastNameRegex firstAuthor with
    | Some (caps, _) => default [] (caps !! 1%nat)
    | None => js "Unknown"
    end in
  let year := or_else (toString <$> year) (js "nd") in
  let titleWords := split_re spacesRegex title in
  let firstSignificantWord :=
    or_else
      (or_undef
         (find (fun word => negb (includes skipWords (toLowerCase word))) titleWords)
         (titleWords !! 0%nat))
      (js "untitled") in
  let rawCitationKey := lastName ++ year ++ firstSignificantWord in
  toLowerCase
    (remove_all is_space
       (remove_all (fun c => negb (is_word c)) rawCitationKey)).

(** The character class of the DOI suffix: the listed punctuation, letters
    and digits. *)
Definition doi_char (c : Z) : bool :=
  is_upper c || is_lower c || is_digit c
  || existsb (Z.eqb c) [45; 46; 95; 59; 40; 41; 47; 58].

(** [/^10\.\d{4,9}\/[-._;()/:A-Za-z0-9]+$/], anchored at both ends. *)
Definition doiRegex : regex :=
  seq_of [ Chr (is_char 49); Chr (is_char 48); Chr (is_char 46);
           Exactly 4 is_digit; AtMost 5 is_digit; Chr (is_char 47);
           Plus true doi_char; Eos ].

Definition test_anchored (r : regex) (s : jsstring) : bool :=
  if match_at r s is Some _ then true else false.

(** [referenceSchema.parse(data)] succeeds.  [url_ok] is the schema's
    [url()] check (the platform's URL parser) and [this_year] is
    [new Date().getFullYear()] when the module is loaded. *)
Definition referenceSchema (url_ok : jsstring -> bool) (this_year : Z)
    (data : ReferenceFormData) : bool :=
  negb (bool_decide (f_title data = []))
  && negb (bool_decide (f_authors data = []))
  && match f_year data with
     | None => true
     | Some (Int y) => (0 <=? y) && (y <=? this_year + 10)
     | Some NaN => false
     end
  && match f_doi data with
     | None | Some [] => true
     | Some val => test_anchored doiRegex val
     end
  && match f_url data with
     | None | Some [] => true
     | Some val => url_ok val
     end.

End Validators.

(** ** BibTeX import (services/bibtexService.ts) *)

Module BibTeX.

(** [/@(\w+)\s*{\s*([^,]+)\s*,([\s\S]+?)\n}/g] *)
Definition entryRegex : regex :=
  seq_of [ Chr (is_char 64); Group 1 (Plus true is_word); Star true is_space;
           Chr (is_char 123); Star true is_space;
           Group 2 (Plus true (not_char 44)); Star true is_space;
           Chr (is_char 44); Group 3 (Plus false any_char);
           Chr (is_char 10); Chr (is_char 125) ].

(** The global field pattern: the group [(\w+)], then [\s*=\s*{], then a
    second group of zero or more (greedy) code units other than the closing
    brace, then that brace. *)
Definition fieldRegex : regex :=
  seq_of [ Group 1 (Plus true is_word); Star true is_space; Chr (is_char 61);
           Star true is_space; Chr (is_char 123);
           Group 2 (Star true (not_char 125)); Chr (is_char 125) ].

(** [parseAuthors] *)
Definition parseAuthors (authorString : jsstring) : list jsstring :=
  let authors :=
    filter (fun author => truthy (Some author) = true)
      (map trim (split (js " and ") authorString)) in
  map (fun author =>
         match map trim (split (js ",") author) with
         | [last; first] => first ++ js " " ++ last
         | _ => author
         end) authors.

(** The [fields] object built from the text of one entry: later
    occurrences of a field name overwrite earlier ones. *)
Definition parseFields (fieldsText : jsstring) : gmap jsstring jsstring :=
  foldl (fun fields fieldMatch =>
           let fieldName := toLowerCase (default [] (fieldMatch !! 1%nat)) in
           let fieldValue := trim (default [] (fieldMatch !! 2%nat)) in
           <[fieldName := fieldValue]> fields)
        ∅ (exec_all fieldRegex fieldsText).

(** The record built from one match of [entryRegex]; [now] is
    [Math.floor(Date.now() / 1000)]. *)
Definition entryToReference (now : Z) (m : captures) : Reference :=
  let citationKey := trim (default [] (m !! 2%nat)) in
  let fields := parseFields (default [] (m !! 3%nat)) in
  {| id := citationKey;
     title := or_else (fields !! js "title") (js "Untitled Reference");
     authors := parseAuthors (or_else (fields !! js "author") []);
     year := if truthy (fields !! js "year")
             then parseInt <$> (fields !! js "year") else None;
     journalOrBook := or_undef (fields !! js "journal") (fields !! js "booktitle");
     doi := fields !! js "doi";
     url := fields !! js "url";
     tags := [];
     notes := None;
     visibility := private;
     createdAt := now;
     updatedAt := now;
     eventId := None |}.

Definition parseBibTeX (now : Z) (bibtex : jsstring) : list Reference :=
  map (entryToReference now) (exec_all entryRegex bibtex).

End BibTeX.

(** ** Platform text and byte encodings

    [TextEncoder], [TextDecoder], [btoa] and [atob] as the Encoding and
    HTML standards define them.  A byte is an integer below 256. *)

Module Encoding.

Definition is_byte (b : Z) : Prop := 0 <= b < 256.

Definition is_high_surrogate (c : Z) : bool := (55296 <=? c) && (c <=? 56319).
Definition is_low_surrogate (c : Z) : bool := (56320 <=? c) && (c <=? 57343).

(** Conversion of a string to scalar values: surrogate pairs are combined,
    an unpaired surrogate becomes U+FFFD. *)
Fixpoint to_scalars (s : jsstring) : list Z :=
  match s with
  | [] => []
  | c :: s' =>
    if is_high_surrogate c then
      match s' with
      | d :: s'' =>
        if is_low_surrogate d
        then (65536 + (c - 55296) * 1024 + (d - 56320)) :: to_scalars s''
        else 65533 :: to_scalars s'
      | [] => [65533]
      end
    else if is_low_surrogate c then 65533 :: to_scalars s'
    else c :: to_scalars s'
  end.

Definition utf8_encode_scalar (cp : Z) : list Z :=
  if cp <? 128 then [cp]
  else if cp <? 2048 then [192 + cp / 64; 128 + cp mod 64]
  else if cp <? 65536 then
    [224 + cp / 4096; 128 + (cp / 64) mod 64; 128 + cp mod 64]
  else
    [240 + cp / 262144; 128 + (cp / 4096) mod 64; 128 + (cp / 64) mod 64;
     128 + cp mod 64].

(** [new TextEncoder().encode(s)] *)
Definition TextEncoder_encode (s : jsstring) : list Z :=
  concat (map utf8_encode_scalar (to_scalars s)).

(** State of the UTF-8 decoder: code point so far, continuation bytes seen
    and needed, and the bounds the next continuation byte must respect. *)
Record utf8_state := mkUtf8 {
  u_cp : Z;
  u_seen : Z;
  u_needed : Z;
  u_lower : Z;
  u_upper : Z
}.

Definition utf8_init : utf8_state := mkUtf8 0 0 0 128 191.

(** A byte read when no continuation byte is awaited. *)
Definition utf8_lead (b : Z) : utf8_state * list Z :=
  if b <=? 127 then (utf8_init, [b])
  else if (194 <=? b) && (b <=? 223) then (mkUtf8 (b - 192) 0 1 128 191, [])
  else if (224 <=? b) && (b <=? 239) then
    (mkUtf8 (b - 224) 0 2 (if b =? 224 then 160 else 128)
            (if b =? 237 then 159 else 191), [])
  else if (240 <=? b) && (b <=? 244) then
    (mkUtf8 (b - 240) 0 3 (if b =? 240 then 144 else 128)
            (if b =? 244 then 143 else 191), [])
  else (utf8_init, [65533]).

(** One byte of input.  A byte outside the awaited bounds ends the pending
    sequence with U+FFFD and is read again as a lead byte. *)
Definition utf8_step (st : utf8_state) (b : Z) : utf8_state * list Z :=
  if u_needed st =? 0 then utf8_lead b
  else if (u_lower st <=? b) && (b <=? u_upper st) then
    let cp := u_cp st * 64 + (b - 128) in
    if u_seen st + 1 =? u_needed st then (utf8_init, [cp])
    else (mkUtf8 cp (u_seen st + 1) (u_needed st) 128 191, [])
  else
    let '(st', out) := utf8_lead b in (st', 65533 :: out).

Fixpoint utf8_run (st : utf8_state) (bytes : list Z) : list Z :=
  match bytes with
  | [] => if u_needed st =? 0 then [] else [65533]
  | b :: bytes' =>
    let '(st', out) := utf8_step st b in out ++ utf8_run st' bytes'
  end.

(** Scalar values back to UTF-16 code units. *)
Definition utf16_encode_scalar (cp : Z) : jsstring :=
  if cp <? 65536 then [cp]
  else [55296 + (cp - 65536) / 1024; 56320 + (cp - 65536) mod 1024].

(** [new TextDecoder().decode(bytes)]: UTF-8, errors replaced ([fatal] is
    off), and a leading byte order mark dropped ([ignoreBOM] is off). *)
Definition TextDecoder_decode (bytes : list Z) : jsstring :=
  let scalars :=
    match utf8_run utf8_init bytes with
    | cp :: rest => if cp =? 65279 then rest else cp :: rest
    | [] => []
    end in
  concat (map utf16_encode_scalar scalars).

(** *** Base64 *)

Definition b64_char (v : Z) : Z :=
  if v <? 26 then 65 + v
  else if v <? 52 then 71 + v
  else if v <? 62 then v - 4
  else if v =? 62 then 43
  else 47.

Definition b64_value (c : Z) : option Z :=
  if is_upper c then Some (c - 65)
  else if is_lower c then Some (c - 71)
  else if is_digit c then Some (c + 4)
  else if c =? 43 then Some 62
  else if c =? 47 then Some 63
  else None.

(** The six-bit groups of a byte sequence, and the padding that follows. *)
Fixpoint b64_groups (bytes : list Z) : list Z * nat :=
  match bytes with
  | a :: b :: c :: rest =>
    let '(g, pad) := b64_groups rest in
    (a / 4 :: (a mod 4) * 16 + b / 16 :: (b mod 16) * 4 + c / 64 :: c mod 64 :: g,
     pad)
  | [a; b] => ([a / 4; (a mod 4) * 16 + b / 16; (b mod 16) * 4], 1%nat)
  | [a] => ([a / 4; (a mod 4) * 16], 2%nat)
  | [] => ([], 0%nat)
  end.

(** [btoa(s)]: fails (InvalidCharacterError) on a code unit above 255. *)
Definition btoa (s : jsstring) : option jsstring :=
  if forallb (fun c => (0 <=? c) && (c <? 256)) s then
    let '(g, pad) := b64_groups s in
    Some (map b64_char g ++ replicate pad 61)
  else None.

Fixpoint b64_bytes (g : list Z) : list Z :=
  match g with
  | a :: b :: c :: d :: rest =>
    a * 4 + b / 16 :: (b mod 16) * 16 + c / 4 :: (c mod 4) * 64 + d
      :: b64_bytes rest
  | [a; b; c] => [a * 4 + b / 16; (b mod 16) * 16 + c / 4]
  | [a; b] => [a * 4 + b / 16]
  | _ => []
  end.

Definition is_ascii_whitespace (c : Z) : bool :=
  (c =? 9) || (c =? 10) || (c =? 12) || (c =? 13) || (c =? 32).

(** Removal of one or two trailing [=] signs. *)
Definition strip_padding (s : jsstring) : jsstring :=
  match rev s with
  | a :: b :: r =>
    if (a =? 61) && (b =? 61) then rev r
    else if a =? 61 then rev (b :: r)
    else s
  | [a] => if a =? 61 then [] else s
  | [] => s
  end.

(** [atob(s)], the forgiving base64 decoder: white space is ignored,
    padding is optional, and the result is the string of decoded bytes;
    fails (InvalidCharacterError) on any other input. *)
Definition atob (s : jsstring) : option jsstring :=
  let s1 := filter (fun c => is_ascii_whitespace c = false) s in
  let s2 := if (Z.of_nat (length s1) mod 4 =? 0) then strip_padding s1 else s1 in
  if Z.of_nat (length s2) mod 4 =? 1 then None
  else b64_bytes <$> mapM b64_value s2.

End Encoding.

Import Encoding.

(** ** Platform primitives

    What the browser supplies and the sources only call: the key derivation
    and the authenticated cipher of Web Crypto, and [JSON.stringify] on a
    reference. *)

Class Primitives := {
  CryptoKey : Type;
  (** PBKDF2 with SHA-256 giving an AES-GCM key of 256 bits: password
      bytes, salt bytes, iteration count. *)
  pbkdf2_sha256 : list Z -> list Z -> Z -> CryptoKey;
  (** AES-GCM: key, initialisation vector, data.  Decryption fails when
      the authentication tag does not verify. *)
  aes_gcm_encrypt : CryptoKey -> list Z -> list Z -> list Z;
  aes_gcm_decrypt : CryptoKey -> list Z -> list Z -> option (list Z);
  JSON_stringify : Reference -> jsstring;
  (** The most arguments the engine lets one call take: [f(...array)] on a
      longer array throws a [RangeError].  The bound differs from engine to
      engine. *)
  max_arguments : nat
}.

(** The guarantees of the cipher the encryption claims rest on. *)
Class AEAD (P : Primitives) : Prop := {
  aead_bytes : forall k iv m,
    Forall is_byte m -> Forall is_byte (aes_gcm_encrypt k iv m);
  aead_correct : forall k iv m,
    Forall is_byte m -> aes_gcm_decrypt k iv (aes_gcm_encrypt k iv m) = Some m;
  aead_authentic : forall k k' iv m,
    k <> k' -> aes_gcm_decrypt k' iv (aes_gcm_encrypt k iv m) = None
}.

(** ** The world the handlers run in *)

(** Event templates and events of the relay network (types/reference.ts:
    the three event interfaces share one shape). *)
Record EventTemplate := mkTemplate {
  kind : Z;
  content : jsstring;
  etags : list (list jsstring);
  created_at : Z
}.

Record NostrEvent := mkEvent {
  ev_id : jsstring;
  ev_kind : Z;
  ev_content : jsstring;
  ev_tags : list (list jsstring);
  ev_created_at : Z
}.

Definition signed (t : EventTemplate) (eid : jsstring) : NostrEvent :=
  mkEvent eid (kind t) (content t) (etags t) (created_at t).

Record User := mkUser { pubkey : jsstring; name : option jsstring }.

Inductive exn :=
| Error (message : jsstring)
| DOMException (name : jsstring)
| RangeError.

Inductive result (A : Type) :=
| Ok (a : A)
| Throw (e : exn).
Arguments Ok {A} a.
Arguments Throw {A} e.

(** The world is what the handlers read and write.  The clock stands still
    while one handler runs, and the relays decide on an event by the event
    alone. *)
Record World := mkWorld {
  (** [localStorage['knowtation:references']], parsed. *)
  storage : list Reference;
  (** Events the relays accepted, oldest first. *)
  wire : list NostrEvent;
  (** Titles of the toasts shown, oldest first. *)
  toasts : list jsstring;
  (** [Date.now()], in milliseconds. *)
  clock : Z;
  (** The relays: the identifier given to an accepted event, or a failure. *)
  relay : EventTemplate -> option jsstring;
  (** [crypto.getRandomValues]: the bytes still to be drawn. *)
  entropy : nat -> Z;
  entropy_used : nat;
  (** [Math.random().toString(36).substring(2)] for each draw to come. *)
  random36 : nat -> jsstring;
  random_used : nat
}.

Definition set_storage (l : list Reference) (w : World) : World :=
  mkWorld l (wire w) (toasts w) (clock w) (relay w) (entropy w)
          (entropy_used w) (random36 w) (random_used w).

Definition add_wire (e : NostrEvent) (w : World) : World :=
  mkWorld (storage w) (wire w ++ [e]) (toasts w) (clock w) (relay w)
          (entropy w) (entropy_used w) (random36 w) (random_used w).

Definition add_toast (t : jsstring) (w : World) : World :=
  mkWorld (storage w) (wire w) (toasts w ++ [t]) (clock w) (relay w)
          (entropy w) (entropy_used w) (random36 w) (random_used w).

Definition use_entropy (n : nat) (w : World) : World :=
  mkWorld (storage w) (wire w) (toasts w) (clock w) (relay w) (entropy w)
          (entropy_used w + n) (random36 w) (random_used w).

Definition use_random (w : World) : World :=
  mkWorld (storage w) (wire w) (toasts w) (clock w) (relay w) (entropy w)
          (entropy_used w) (random36 w) (S (random_used w)).

(** An asynchronous computation: it runs against the world and either
    resolves with a value or rejects with an exception. *)
Definition Async (A : Type) : Type := World -> result A * World.

Definition ret {A} (a : A) : Async A := fun w => (Ok a, w).
Definition throw {A} (e : exn) : Async A := fun w => (Throw e, w).

Definition bind {A B} (m : Async A) (k : A -> Async B) : Async B :=
  fun w =>
    match m w with
    | (Ok a, w') => k a w'
    | (Throw e, w') => (Throw e, w')
    end.

(** [try { m } catch (error) { h error }] *)
Definition try_catch {A} (m : Async A) (h : exn -> Async A) : Async A :=
  fun w =>
    match m w with
    | (Ok a, w') => (Ok a, w')
    | (Throw e, w') => h e w'
    end.

Notation "'let*' x := m 'in' k" := (bind m (fun x => k))
  (at level 10, x name, m at level 100, k at level 200).

Definition modify (f : World -> World) : Async unit := fun w => (Ok tt, f w).

(** [Math.floor(Date.now() / 1000)] *)
Definition now_seconds : Async Z := fun w => (Ok (clock w / 1000), w).

Definition toast (t : string) : Async unit := modify (add_toast (js t)).

(** ** Encryption (utils/encryption.ts) *)

Module Encryption.
Section WithPrimitives.
Context {P : Primitives}.

(** [new Uint8Array(buffer)]: the buffer read as bytes. *)
Definition Uint8Array (buffer : list Z) : list Z :=
  map (fun b => b mod 256) buffer.

(** [crypto.getRandomValues(new Uint8Array(n))] *)
Definition getRandomValues (n : nat) : Async (list Z) :=
  fun w =>
    (Ok (map (fun i => entropy w (entropy_used w + i)%nat mod 256) (seq 0 n)),
     use_entropy n w).

Definition deriveEncryptionKey (publicKey : jsstring) : Async CryptoKey :=
  let publicKeyBuffer := TextEncoder_encode publicKey in
  let salt := TextEncoder_encode (js "KnowTation-Reference-Encryption") in
  ret (pbkdf2_sha256 publicKeyBuffer salt 100000).

(** [String.fromCharCode(...bytes)]: the bytes are the arguments of one
    call, which the engine refuses when there are too many; each argument
    gives one code unit. *)
Definition String_fromCharCode_spread (bytes : list Z) : Async jsstring :=
  if (length bytes <=? max_arguments)%nat
  then ret (map (fun b => b mod 65536) bytes)
  else throw RangeError.

Definition encryptData (data : jsstring) (key : CryptoKey) : Async jsstring :=
  let* iv := getRandomValues 12 in
  let dataBuffer := TextEncoder_encode data in
  let encryptedBuffer := aes_gcm_encrypt key iv dataBuffer in
  let result := iv ++ Uint8Array encryptedBuffer in
  let* text := String_fromCharCode_spread result in
  match btoa text with
  | Some b => ret b
  | None => throw (DOMException (js "InvalidCharacterError"))
  end.

Definition decryptData (encryptedData : jsstring) (key : CryptoKey)
    : Async jsstring :=
  match atob encryptedData with
  | None => throw (DOMException (js "InvalidCharacterError"))
  | Some data =>
    let iv := take 12 data in
    let encryptedBuffer := drop 12 data in
    match aes_gcm_decrypt key iv encryptedBuffer with
    | None => throw (DOMException (js "OperationError"))
    | Some decryptedBuffer => ret (TextDecoder_decode decryptedBuffer)
    end
  end.
End WithPrimitives.
End Encryption.

(** ** Local library (services/referenceService.ts)

    [localStorage] is taken to keep what is written to it; the JSON text it
    holds is identified with the list of records it encodes.  [JSON.parse]
    gives back the record [JSON.stringify] wrote when the year of the
    record is absent or a safe integer: a key that holds [undefined] is
    left out and reads as [undefined] again, texts and lists of texts come
    back as they were.  A year that is NaN is written as [null], which is
    no value of a [year] here; on a library with such a year the list
    below is not what the program reads. *)

Module ReferenceService.

Definition getAllReferences : Async (list Reference) :=
  fun w => (Ok (storage w), w).

Definition saveReferences (references : list Reference) : Async unit :=
  modify (set_storage references).

Definition getReference (id0 : jsstring) : Async (option Reference) :=
  let* references := getAllReferences in
  ret (find (fun ref => str_eqb (id ref) id0) references).

(** [Date.now().toString(36) + Math.random().toString(36).substring(2)] *)
Definition generateUniqueId : Async jsstring :=
  fun w =>
    (Ok (toStringRadix 36 (clock w) ++ random36 w (random_used w)),
     use_random w).

Definition createReference (referenceData : ReferenceFormData) : Async Reference :=
  let* references := getAllReferences in
  let* newId := generateUniqueId in
  let* created := now_seconds in
  let* updated := now_seconds in
  let newReference :=
    {| id := newId;
       title := f_title referenceData;
       authors := f_authors referenceData;
       year := f_year referenceData;
       journalOrBook := f_journalOrBook referenceData;
       doi := f_doi referenceData;
       url := f_url referenceData;
       tags := f_tags referenceData;
       notes := f_notes referenceData;
       visibility := f_visibility referenceData;
       createdAt := created;
       updatedAt := updated;
       eventId := None |} in
  let* _ := saveReferences (references ++ [newReference]) in
  ret newReference.

(** Which of the optional keys an object of type [ReferenceFormData] has.
    Under a spread a key that is present replaces the field it is spread
    over, also when it holds [undefined]; a key that is absent leaves that
    field as it is.  A [ReferenceFormData] of this development gives the
    values of the keys; for a key that is absent its value is not looked
    at. *)
Record OptionalKeys := mkOptionalKeys {
  has_year : bool;
  has_journalOrBook : bool;
  has_doi : bool;
  has_url : bool;
  has_notes : bool
}.

(** The keys of the object the form hands on: all of them.  The form has
    an input for each optional field, the form library keeps a value for
    every input (the empty text or [undefined] for a blank one), and the
    schema gives back the keys it is given. *)
Definition every_key : OptionalKeys := mkOptionalKeys true true true true true.

(** [{...old, ...referenceData, updatedAt}] for a [referenceData] with the
    optional keys [keys]; [id], [createdAt] and [eventId] are no keys of a
    form object. *)
Definition spread (keys : OptionalKeys) (old : Reference)
    (referenceData : ReferenceFormData) (now : Z) : Reference :=
  {| id := id old;
     title := f_title referenceData;
     authors := f_authors referenceData;
     year := if has_year keys then f_year referenceData else year old;
     journalOrBook := if has_journalOrBook keys
                      then f_journalOrBook referenceData else journalOrBook old;
     doi := if has_doi keys then f_doi referenceData else doi old;
     url := if has_url keys then f_url referenceData else url old;
     tags := f_tags referenceData;
     notes := if has_notes keys then f_notes referenceData else notes old;
     visibility := f_visibility referenceData;
     createdAt := createdAt old;
     updatedAt := now;
     eventId := eventId old |}.

(** [updateReference(id, referenceData)] for a [referenceData] with the
    optional keys [keys]. *)
Definition updateReferenceWith (keys : OptionalKeys) (id0 : jsstring)
    (referenceData : ReferenceFormData) : Async (option Reference) :=
  let* references := getAllReferences in
  match list_find (fun ref => id ref = id0) references with
  | None => ret None
  | Some (index, old) =>
    let* now := now_seconds in
    let updatedReference := spread keys old referenceData now in
    let* _ := saveReferences (<[index := updatedReference]> references) in
    ret (Some updatedReference)
  end.


Definition updateReference (id0 : jsstring) (referenceData : ReferenceFormData)
    : Async (option Reference) :=
  updateReferenceWith every_key id0 referenceData.

Definition deleteReference (id0 : jsstring) : Async bool :=
  let* references := getAllReferences in
  let filteredReferences :=
    filter (fun ref => id ref <> id0) references in
  if bool_decide (length filteredReferences = length references)
  then ret false
  else
    let* _ := saveReferences filteredReferences in
    ret true.


End ReferenceService.

(** ** Relay network (hooks/useNostrPublish.ts, services/nostrService.ts) *)

Module NostrService.

Definition REFERENCE_PUBLIC_KIND : Z := 50000.
Definition REFERENCE_PRIVATE_KIND : Z := 50001.
Definition REFERENCE_DELETE_KIND : Z := 5.

(** [nostr.event(eventData)]: the relays accept the event, which is then on
    the wire, or the call rejects. *)
Definition nostr_event (eventData : EventTemplate) : Async NostrEvent :=
  fun w =>
    match relay w eventData with
    | Some eid =>
      (Ok (signed eventData eid), add_wire (signed eventData eid) w)
    | None => (Throw (Error (js "publish failed")), w)
    end.

Definition useNostrPublish (user : option User) (eventData : EventTemplate)
    : Async NostrEvent :=
  match user with
  | None => throw (Error (js "Not logged in"))
  | Some _ => nostr_event eventData
  end.

(** The event template [usePublishPublicReference] builds (lines 31-67);
    [now] is [Math.floor(Date.now() / 1000)]. *)
Definition toPublicEvent (reference : Reference) (now : Z) : EventTemplate :=
  let tags :=
    [[js "title"; title reference]]
    ++ map (fun author => [js "author"; author]) (authors reference)
    ++ match year reference with
       | Some y => if truthy_number y then [[js "year"; toString y]] else []
       | None => []
       end
    ++ (if truthy (journalOrBook reference)
        then [[js "journal"; default [] (journalOrBook reference)]] else [])
    ++ (if truthy (doi reference)
        then [[js "doi"; default [] (doi reference)]] else [])
    ++ (if truthy (url reference)
        then [[js "url"; default [] (url reference)]] else [])
    ++ map (fun tag => [js "t"; tag]) (tags reference)
    ++ [[js "client-ref-id"; id reference]] in
  {| kind := REFERENCE_PUBLIC_KIND;
     content := js "KnowTation public reference";
     etags := tags;
     created_at := now |}.

Definition usePublishPublicReference (user : option User)
    (reference : Reference) : Async jsstring :=
  let* now := now_seconds in
  let eventTemplate := toPublicEvent reference now in
  let* data := useNostrPublish user eventTemplate in
  let eventId := js "event:placeholder" in
  ret eventId.

(** The event template [useRetractReference] builds (lines 165-170). *)
Definition toRetraction (eventId0 : jsstring) (reason : jsstring) (now : Z)
    : EventTemplate :=
  {| kind := REFERENCE_DELETE_KIND;
     content := reason;
     etags := [[js "e"; eventId0]];
     created_at := now |}.

Definition useRetractReference (user : option User) (reference : Reference)
    (reason : jsstring) : Async bool :=
  match eventId reference with
  | Some (c :: e) =>
    let* now := now_seconds in
    let eventTemplate := toRetraction (c :: e) reason now in
    let* _ := useNostrPublish user eventTemplate in
    ret true
  | _ =>
    throw (Error (js "Cannot retract a reference that has not been published to Nostr"))
  end.

(** [tag[0] === name] *)
Definition tag_named (name : string) (tag : list jsstring) : bool :=
  bool_decide (tag !! 0%nat = Some (js name)).

(** [tag?.[1]] *)
Definition value_of (tag : option (list jsstring)) : option jsstring :=
  tag ≫= (fun t => t !! 1%nat).

(** The record [useFetchPublicReferences] builds from one fetched event
    (lines 219-247).  The result is [None] when an [author] or [t] tag has
    no second element: the array built then holds [undefined], which is no
    list of strings. *)
Definition fromPublicEvent (event : NostrEvent) : option Reference :=
  let titleTag := find (tag_named "title") (ev_tags event) in
  let authorTags := filter (fun tag => tag_named "author" tag = true) (ev_tags event) in
  let yearTag := find (tag_named "year") (ev_tags event) in
  let journalTag := find (tag_named "journal") (ev_tags event) in
  let doiTag := find (tag_named "doi") (ev_tags event) in
  let urlTag := find (tag_named "url") (ev_tags event) in
  let tagTags := filter (fun tag => tag_named "t" tag = true) (ev_tags event) in
  let clientRefIdTag := find (tag_named "client-ref-id") (ev_tags event) in
  authors0 ← mapM (fun tag : list jsstring => tag !! 1%nat) authorTags;
  tags0 ← mapM (fun tag : list jsstring => tag !! 1%nat) tagTags;
  Some
    {| id := or_else (value_of clientRefIdTag) (ev_id event);
       title := or_else (value_of titleTag) (js "Untitled Reference");
       authors := authors0;
       year := (fun tag : list jsstring =>
                  match tag !! 1%nat with
                  | Some s => parseInt s
                  | None => NaN
                  end) <$> yearTag;
       journalOrBook := value_of journalTag;
       doi := value_of doiTag;
       url := value_of urlTag;
       tags := tags0;
       notes := None;
       visibility := public;
       createdAt := ev_created_at event;
       updatedAt := ev_created_at event;
       eventId := Some (ev_id event) |}.

Section WithPrimitives.
Context {P : Primitives}.

(** The event template [usePublishPrivateReference] builds (lines
    115-126) around the encrypted record. *)
Definition toPrivateEvent (reference : Reference) (encryptedData : jsstring)
    (now : Z) : EventTemplate :=
  {| kind := REFERENCE_PRIVATE_KIND;
     content := encryptedData;
     etags := [[js "client-ref-id"; id reference]; [js "e-type"; js "reference"]];
     created_at := now |}.

Definition usePublishPrivateReference (user : option User)
    (reference : Reference) : Async jsstring :=
  match user with
  | None =>
    throw (Error (js "User must be logged in to publish private references"))
  | Some u =>
    let* encryptionKey := Encryption.deriveEncryptionKey (pubkey u) in
    let dataToEncrypt := JSON_stringify reference in
    let* encryptedData := Encryption.encryptData dataToEncrypt encryptionKey in
    let* now := now_seconds in
    let eventTemplate := toPrivateEvent reference encryptedData now in
    let* data := useNostrPublish user eventTemplate in
    let eventId := js "event:placeholder:private" in
    ret eventId
  end.
End WithPrimitives.

End NostrService.

(** ** Pages: the handlers that drive storage and the relays *)

Definition formOf (r : Reference) : ReferenceFormData :=
  {| f_title := title r; f_authors := authors r; f_year := year r;
     f_journalOrBook := journalOrBook r; f_doi := doi r; f_url := url r;
     f_tags := tags r; f_notes := notes r; f_visibility := visibility r |}.

Module AddReference.
Section WithPrimitives.
Context {P : Primitives}.

(** [handleSubmit] of pages/AddReference.tsx. *)
Definition handleSubmit (user : option User) (data : ReferenceFormData)
    : Async unit :=
  try_catch
    (let* newReference := ReferenceService.createReference data in
     match user with
     | Some _ =>
       try_catch
         (let* eventId :=
            if bool_decide (f_visibility data = public)
            then NostrService.usePublishPublicReference user newReference
            else NostrService.usePublishPrivateReference user newReference in
          (* the identifier is only written to the console *)
          toast "Reference Published")
         (fun _ => toast "Local Only")
     | None => toast "Reference Saved"
     end)
    (fun _ => toast "Error").
End WithPrimitives.
End AddReference.

Module EditReference.
Section WithPrimitives.
Context {P : Primitives}.

(** The relay part of [handleSubmit] (lines 72-105): [reference] is the
    record as the page loaded it, [updatedReference] the stored update. *)
Definition syncUpdate (user : option User) (reference : option Reference)
    (data : ReferenceFormData) (updatedReference : Reference) : Async unit :=
  let wasPublicNowPrivate :=
    bool_decide (visibility <$> reference = Some public)
    && bool_decide (f_visibility data = private) in
  let wasPrivateNowPublic :=
    bool_decide (visibility <$> reference = Some private)
    && bool_decide (f_visibility data = public) in
  match reference with
  | Some old =>
    if wasPublicNowPrivate && truthy (eventId old) then
      let* _ := NostrService.useRetractReference user old
                  (js "Changed to private by user") in
      let* _ := NostrService.usePublishPrivateReference user updatedReference in
      ret tt
    else if wasPrivateNowPublic then
      let* _ := NostrService.usePublishPublicReference user updatedReference in
      ret tt
    else if truthy (eventId old) then
      if bool_decide (f_visibility data = public) then
        let* _ := NostrService.useRetractReference user old
                    (js "Updated by user") in
        let* _ := NostrService.usePublishPublicReference user updatedReference in
        ret tt
      else
        let* _ := NostrService.usePublishPrivateReference user updatedReference in
        ret tt
    else ret tt
  | None => ret tt
  end.

(** [handleSubmit] of pages/EditReference.tsx: [id0] is the route
    parameter, [reference] the page's state, [data] the object the form
    hands on, which has every key. *)
Definition handleSubmit (id0 : option jsstring) (reference : option Reference)
    (user : option User) (data : ReferenceFormData) : Async unit :=
  try_catch
    (match id0 with
     | Some (c :: i) =>
       let* updatedReference := ReferenceService.updateReference (c :: i) data in
       match updatedReference with
       | None => throw (Error (js "Failed to update reference"))
       | Some updatedReference =>
         match user with
         | Some _ =>
           try_catch
             (let* _ := syncUpdate user reference data updatedReference in
              toast "Reference Updated")
             (fun _ => toast "Partial Update")
         | None => toast "Reference Updated"
         end
       end
     | _ => throw (Error (js "Reference ID is required"))
     end)
    (fun _ => toast "Error").
End WithPrimitives.
End EditReference.

Module ViewReference.

(** [confirmDelete] of pages/ViewReference.tsx (lines 75-106): [id0] is
    the route parameter, [reference] the page's state, [user] the login
    the publishing hook sees. *)
Definition confirmDelete (id0 : option jsstring) (reference : option Reference)
    (user : option User) : Async unit :=
  try_catch
    (match id0, reference with
     | Some (c :: i), Some reference =>
       let* _ := ReferenceService.deleteReference (c :: i) in
       let* _ :=
         if truthy (eventId reference)
            && bool_decide (visibility reference = public)
         then
           let* _ := NostrService.useRetractReference user reference
                       (js "Deleted by user") in
           ret tt
         else ret tt in
       toast "Reference Deleted"
     | _, _ => ret tt
     end)
    (fun _ => toast "Error").

End ViewReference.

Module ImportReference.



End ImportReference.

(** ** More of the platform: case mapping, text search, sets and sorting *)

Module Platform.

(** What the Unicode tables of the platform decide: the full case mapping
    of [String.prototype.toLowerCase] on arbitrary text, and the collation
    of [String.prototype.localeCompare] (negative, zero or positive). *)
Class Text := {
  toLowerCase : jsstring -> jsstring;
  localeCompare : jsstring -> jsstring -> Z
}.

End Platform.

Module JSLib.

(** [s.includes(sub)] *)
Fixpoint String_includes (sub s : jsstring) : bool :=
  starts_with sub s
  || match s with
     | [] => false
     | _ :: s' => String_includes sub s'
     end.

(** [l.join(sep)] *)
Fixpoint join (sep : jsstring) (l : list jsstring) : jsstring :=
  match l with
  | [] => []
  | x :: l' =>
    match l' with
    | [] => x
    | _ :: _ => x ++ sep ++ join sep l'
    end
  end.

(** [s.slice(0, -n)] *)
Definition drop_last (n : nat) (s : jsstring) : jsstring :=
  take (length s - n) s.

(** [s.replace(/[class]/g, '\\$&')]: a backslash is put before every code
    unit of the class. *)
Definition escape_all (p : Z -> bool) (s : jsstring) : jsstring :=
  flat_map (fun c => if p c then [92; c] else [c]) s.

(** The order of [<] on strings: code unit by code unit, a proper prefix
    first. *)
Fixpoint str_compare (a b : jsstring) : comparison :=
  match a, b with
  | [], [] => Eq
  | [], _ :: _ => Lt
  | _ :: _, [] => Gt
  | x :: a', y :: b' =>
    match x ?= y with
    | Eq => str_compare a' b'
    | c => c
    end
  end.

(** The comparison [l.sort()] uses when it is given none: the elements as
    text. *)
Definition default_compare (a b : jsstring) : Z :=
  match str_compare a b with
  | Lt => -1
  | Eq => 0
  | Gt => 1
  end.

(** [l.sort(compare)].  The sort of the language is stable, so for a
    consistent comparison its result is determined; it is computed here by
    insertion from the right, an element going before the first one it
    does not come after. *)
Fixpoint sort_insert {A} (compare : A -> A -> Z) (x : A) (l : list A) : list A :=
  match l with
  | [] => [x]
  | y :: l' =>
    if compare x y <=? 0 then x :: y :: l' else y :: sort_insert compare x l'
  end.

Definition sort {A} (compare : A -> A -> Z) (l : list A) : list A :=
  foldr (sort_insert compare) [] l.

(** [set.add(x)] on a [Set], whose values are kept in insertion order: a
    value already present is not added again. *)
Definition Set_add {A} `{EqDecision A} (x : A) (set : list A) : list A :=
  if bool_decide (x ∈ set) then set else set ++ [x].

End JSLib.

Import JSLib.

(** ** Search and the lists of tags and authors (services/referenceService.ts) *)

Module ReferenceSearch.

(** The [filters] argument of [searchReferences]; a key left out is
    [None]. *)
Record SearchFilters := mkSearchFilters {
  filter_authors : option (list jsstring);
  filter_year : option number;
  filter_tags : option (list jsstring);
  filter_visibility : option ReferenceVisibility
}.

Definition no_filters : SearchFilters := mkSearchFilters None None None None.

(** [a === b] on numbers: [NaN] equals nothing. *)
Definition number_eqb (a b : number) : bool :=
  match a, b with
  | Int x, Int y => x =? y
  | _, _ => false
  end.

Section WithText.
Context {T : Platform.Text}.

(** The predicate [searchReferences] filters the library by (lines
    132-169). *)
Definition keeps (query : jsstring) (filters : SearchFilters)
    (reference : Reference) : bool :=
  if negb (bool_decide (query = []))
     && (let lowerQuery := Platform.toLowerCase query in
         let matchesTitle :=
           String_includes lowerQuery (Platform.toLowerCase (title reference)) in
         let matchesAuthors :=
           existsb (fun author =>
                      String_includes lowerQuery (Platform.toLowerCase author))
                   (authors reference) in
         let matchesJournal :=
           match journalOrBook reference with
           | Some journal =>
             String_includes lowerQuery (Platform.toLowerCase journal)
           | None => false
           end in
         negb (matchesTitle || matchesAuthors || matchesJournal))
  then false
  else if match filter_authors filters with
          | Some (a :: l) =>
            negb (existsb
                    (fun author =>
                       existsb (fun a0 =>
                                  String_includes (Platform.toLowerCase author)
                                    (Platform.toLowerCase a0))
                               (authors reference))
                    (a :: l))
          | _ => false
          end
  then false
  else if match filter_year filters with
          | Some y =>
            negb match year reference with
                 | Some y' => number_eqb y' y
                 | None => false
                 end
          | None => false
          end
  then false
  else if match filter_tags filters with
          | Some (t :: l) =>
            negb (existsb (fun tag => Validators.includes (tags reference) tag)
                          (t :: l))
          | _ => false
          end
  then false
  else if match filter_visibility filters with
          | Some v => negb (bool_decide (visibility reference = v))
          | None => false
          end
  then false
  else true.

Definition searchReferences (query : jsstring) (filters : SearchFilters)
    : Async (list Reference) :=
  let* references := ReferenceService.getAllReferences in
  ret (filter (fun reference => keeps query filters reference = true) references).

End WithText.

Definition getAllTags : Async (list jsstring) :=
  let* references := ReferenceService.getAllReferences in
  let tagsSet :=
    foldl (fun set reference =>
             foldl (fun set tag => Set_add tag set) set (tags reference))
          [] references in
  ret (sort default_compare tagsSet).

Definition getAllAuthors : Async (list jsstring) :=
  let* references := ReferenceService.getAllReferences in
  let authorsSet :=
    foldl (fun set reference =>
             foldl (fun set author => Set_add author set) set (authors reference))
          [] references in
  ret (sort default_compare authorsSet).

End ReferenceSearch.

(** ** BibTeX export (services/bibtexService.ts) *)

Module BibTeXExport.

(** The classes of the two replacements of [escapeBibTeX]: backslash and
    braces, then ampersand, percent, dollar, hash, underscore, caret and
    tilde. *)
Definition is_brace_or_backslash (c : Z) : bool :=
  (c =? 92) || (c =? 123) || (c =? 125).

Definition is_tex_special (c : Z) : bool :=
  existsb (Z.eqb c) [38; 37; 36; 35; 95; 94; 126].

Definition escapeBibTeX (text : jsstring) : jsstring :=
  escape_all is_tex_special (escape_all is_brace_or_backslash text).

Definition formatAuthorsForBibTeX (authors : list jsstring) : jsstring :=
  join (js " and ")
    (map (fun author =>
            let parts := split (js " ") author in
            if (2 <=? length parts)%nat then
              let lastName := or_else (last parts) [] in
              let firstName := join (js " ") (removelast parts) in
              lastName ++ js ", " ++ firstName
            else author)
         authors).

Section WithText.
Context {T : Platform.Text}.

Definition entryTypeOf (reference : Reference) : jsstring :=
  match journalOrBook reference with
  | Some (c :: j) =>
    if String_includes (js "proceedings") (Platform.toLowerCase (c :: j))
    then js "inproceedings" else js "article"
  | _ => js "misc"
  end.

(** One round of the loop of [exportToBibTeX] (lines 61-107): the text
    collected so far, with the entry of [reference] added. *)
Definition exportEntry (bibtex : jsstring) (reference : Reference) : jsstring :=
  let entryType := entryTypeOf reference in
  let citationKey :=
    Validators.createCitationKey (authors reference) (year reference)
      (title reference) in
  let bibtex := bibtex ++ js "@" ++ entryType ++ js "{" ++ citationKey ++ [44; 10] in
  let bibtex :=
    bibtex ++ js "  title = {" ++ escapeBibTeX (title reference) ++ js "}," ++ [10] in
  let bibtex :=
    if (0 <? length (authors reference))%nat
    then bibtex ++ js "  author = {" ++ formatAuthorsForBibTeX (authors reference)
                ++ js "}," ++ [10]
    else bibtex in
  let bibtex :=
    match year reference with
    | Some y => bibtex ++ js "  year = {" ++ toString y ++ js "}," ++ [10]
    | None => bibtex
    end in
  let bibtex :=
    match journalOrBook reference with
    | Some (c :: j) =>
      let fieldName :=
        if str_eqb entryType (js "article") then js "journal"
        else if str_eqb entryType (js "inproceedings") then js "booktitle"
        else js "howpublished" in
      bibtex ++ js "  " ++ fieldName ++ js " = {" ++ escapeBibTeX (c :: j)
             ++ js "}," ++ [10]
    | _ => bibtex
    end in
  let bibtex :=
    match doi reference with
    | Some (c :: d) =>
      bibtex ++ js "  doi = {" ++ escapeBibTeX (c :: d) ++ js "}," ++ [10]
    | _ => bibtex
    end in
  let bibtex :=
    match url reference with
    | Some (c :: u) =>
      bibtex ++ js "  url = {" ++ escapeBibTeX (c :: u) ++ js "}," ++ [10]
    | _ => bibtex
    end in
  let bibtex :=
    if (0 <? length (tags reference))%nat
    then bibtex ++ js "  keywords = {" ++ join (js ", ") (tags reference)
                ++ js "}," ++ [10]
    else bibtex in
  drop_last 2 bibtex ++ [10; 125; 10; 10].

Definition exportToBibTeX (references : list Reference) : jsstring :=
  foldl exportEntry [] references.

End WithText.

End BibTeXExport.

(** ** The reference form (components/ReferenceForm.tsx) *)

Module ReferenceForm.

Definition createEmptyReference : ReferenceFormData :=
  {| f_title := [];
     f_authors := [[]];
     f_year := None;
     f_journalOrBook := Some [];
     f_doi := Some [];
     f_url := Some [];
     f_tags := [];
     f_notes := Some [];
     f_visibility := private |}.

(** The state of the component: the values the form library holds and
    validates, and the three pieces of React state beside them. *)
Record State := mkState {
  values : ReferenceFormData;
  st_authors : list jsstring;
  st_tagInput : jsstring;
  st_tags : list jsstring
}.

(** [form.setValue('authors', l)] and [form.setValue('tags', l)]. *)
Definition setValue_authors (l : list jsstring) (v : ReferenceFormData)
    : ReferenceFormData :=
  {| f_title := f_title v; f_authors := l; f_year := f_year v;
     f_journalOrBook := f_journalOrBook v; f_doi := f_doi v; f_url := f_url v;
     f_tags := f_tags v; f_notes := f_notes v; f_visibility := f_visibility v |}.

Definition setValue_tags (l : list jsstring) (v : ReferenceFormData)
    : ReferenceFormData :=
  {| f_title := f_title v; f_authors := f_authors v; f_year := f_year v;
     f_journalOrBook := f_journalOrBook v; f_doi := f_doi v; f_url := f_url v;
     f_tags := l; f_notes := f_notes v; f_visibility := f_visibility v |}.

(** The state the component starts in (lines 41-49). *)
Definition init (initialValues : option ReferenceFormData) : State :=
  {| values := default createEmptyReference initialValues;
     st_authors := match initialValues with
                   | Some v => f_authors v
                   | None => [[]]
                   end;
     st_tagInput := [];
     st_tags := match initialValues with
                | Some v => f_tags v
                | None => []
                end |}.

Definition addAuthorField (st : State) : State :=
  {| values := values st; st_authors := st_authors st ++ [[]];
     st_tagInput := st_tagInput st; st_tags := st_tags st |}.

(** [newAuthors.splice(index, 1)]: past the end nothing is removed. *)
Definition removeAuthorField (index : nat) (st : State) : State :=
  {| values := values st; st_authors := delete index (st_authors st);
     st_tagInput := st_tagInput st; st_tags := st_tags st |}.

(** [newAuthors[index] = value]: at the end the array grows by one; past
    the end it would hold empty slots, which is no list of strings (the
    inputs rendered only give indices below the length). *)
Definition updateAuthor (index : nat) (value : jsstring) (st : State)
    : option State :=
  let newAuthors :=
    if (index <? length (st_authors st))%nat
    then Some (<[index := value]> (st_authors st))
    else if (index =? length (st_authors st))%nat
    then Some (st_authors st ++ [value])
    else None in
  (fun l => {| values := setValue_authors l (values st); st_authors := l;
               st_tagInput := st_tagInput st; st_tags := st_tags st |})
    <$> newAuthors.

Definition setTagInput (value : jsstring) (st : State) : State :=
  {| values := values st; st_authors := st_authors st;
     st_tagInput := value; st_tags := st_tags st |}.

Definition addTag (st : State) : State :=
  if negb (bool_decide (trim (st_tagInput st) = []))
     && negb (Validators.includes (st_tags st) (trim (st_tagInput st)))
  then
    let newTags := st_tags st ++ [trim (st_tagInput st)] in
    {| values := setValue_tags newTags (values st); st_authors := st_authors st;
       st_tagInput := []; st_tags := newTags |}
  else st.

Definition removeTag (tag : jsstring) (st : State) : State :=
  let newTags := filter (fun t => t <> tag) (st_tags st) in
  {| values := setValue_tags newTags (values st); st_authors := st_authors st;
     st_tagInput := st_tagInput st; st_tags := newTags |}.

(** [handleSubmit] (lines 61-70): what is handed to [onSubmit]. *)
Definition handleSubmit (data : ReferenceFormData) (st : State)
    : ReferenceFormData :=
  {| f_title := f_title data;
     f_authors := filter (fun author => trim author <> []) (st_authors st);
     f_year := f_year data;
     f_journalOrBook := f_journalOrBook data;
     f_doi := f_doi data;
     f_url := f_url data;
     f_tags := st_tags st;
     f_notes := f_notes data;
     f_visibility := f_visibility data |}.

(** [form.handleSubmit(handleSubmit)], the handler of the submit button:
    the form library validates its values against [referenceSchema] and
    calls [handleSubmit] with them when they pass. *)
Definition submit (url_ok : jsstring -> bool) (this_year : Z) (st : State)
    : option ReferenceFormData :=
  if Validators.referenceSchema url_ok this_year (values st)
  then Some (handleSubmit (values st) st)
  else None.

End ReferenceForm.

(** ** The dashboard (pages/Dashboard.tsx) *)

Module Dashboard.

Inductive SortOrder := newest | oldest | by_title.

#[global] Instance SortOrder_eq_dec : EqDecision SortOrder.
Proof. solve_decision. Defined.

(** The [filters] state; [null] is [None]. *)
Record Filters := mkFilters {
  author : option jsstring;
  tag : option jsstring;
  year_filter : option number;
  visibility_filter : option ReferenceVisibility
}.

Record State := mkState {
  references : list Reference;
  loading : bool;
  searchQuery : jsstring;
  filters : Filters;
  sortOrder : SortOrder;
  authors_list : list jsstring;
  tags_list : list jsstring;
  years : list number;
  deleteDialogOpen : bool;
  referenceToDelete : option Reference
}.

Definition set_references (l : list Reference) (b : bool) (st : State) : State :=
  mkState l b (searchQuery st) (filters st) (sortOrder st) (authors_list st)
          (tags_list st) (years st) (deleteDialogOpen st) (referenceToDelete st).

(** The state after [setDeleteDialogOpen(open)] and
    [setReferenceToDelete(r)]. *)
Definition set_dialog (open : bool) (r : option Reference) (st : State) : State :=
  mkState (references st) (loading st) (searchQuery st) (filters st)
          (sortOrder st) (authors_list st) (tags_list st) (years st) open r.

(** [loadFilterData] (lines 123-146): the lists the filter controls offer.
    The years are sorted by [sort()] without a comparison, that is, as
    text. *)
Definition loadFilterData (st : State) : Async State :=
  try_catch
    (let* authorsList := ReferenceSearch.getAllAuthors in
     let* tagsList := ReferenceSearch.getAllTags in
     let* allReferences := ReferenceService.getAllReferences in
     let yearsSet :=
       foldl (fun set ref =>
                match year ref with
                | Some y => if truthy_number y then Set_add y set else set
                | None => set
                end)
             [] allReferences in
     ret (mkState (references st) (loading st) (searchQuery st) (filters st)
            (sortOrder st) authorsList tagsList
            (sort (fun a b => default_compare (toString a) (toString b)) yearsSet)
            (deleteDialogOpen st) (referenceToDelete st)))
    (fun _ => ret st).

Section WithText.
Context {T : Platform.Text}.

Definition sortReferences (refs : list Reference) (order : SortOrder)
    : list Reference :=
  sort (fun a b =>
          match order with
          | newest => createdAt b - createdAt a
          | oldest => createdAt a - createdAt b
          | by_title => Platform.localeCompare (title a) (title b)
          end)
       refs.

(** The filters [loadReferences] hands to [searchReferences] (lines
    100-105). *)
Definition search_filters (f : Filters) : ReferenceSearch.SearchFilters :=
  {| ReferenceSearch.filter_authors :=
       match author f with
       | Some (c :: a) => Some [c :: a]
       | _ => None
       end;
     ReferenceSearch.filter_year :=
       match year_filter f with
       | Some y => if truthy_number y then Some y else None
       | None => None
       end;
     ReferenceSearch.filter_tags :=
       match tag f with
       | Some (c :: t) => Some [c :: t]
       | _ => None
       end;
     ReferenceSearch.filter_visibility := visibility_filter f |}.

Definition loadReferences (st : State) : Async State :=
  try_catch
    (let* results :=
       ReferenceSearch.searchReferences (searchQuery st)
         (search_filters (filters st)) in
     let results := sortReferences results (sortOrder st) in
     ret (set_references results false st))
    (fun _ =>
       let* _ := toast "Error" in
       ret (set_references (references st) false st)).

(** [handleSortChange]: the next order in the cycle. *)
Definition handleSortChange (st : State) : State :=
  mkState (references st) (loading st) (searchQuery st) (filters st)
          match sortOrder st with
          | newest => oldest
          | oldest => by_title
          | by_title => newest
          end
          (authors_list st) (tags_list st) (years st) (deleteDialogOpen st)
          (referenceToDelete st).

Definition handleDeleteReference (id0 : jsstring) (st : State) : State :=
  match find (fun ref => str_eqb (id ref) id0) (references st) with
  | Some reference => set_dialog true (Some reference) st
  | None => st
  end.

(** [confirmDelete] (lines 198-231).  The list is reloaded by a call that
    is not awaited; it reads the library at once and sets the state after
    the handler's own updates, which touch other fields. *)
Definition confirmDelete (user : option User) (st : State) : Async State :=
  match referenceToDelete st with
  | None => ret st
  | Some referenceToDelete =>
    let* st' :=
      try_catch
        (let* _ := ReferenceService.deleteReference (id referenceToDelete) in
         let* _ :=
           if truthy (eventId referenceToDelete)
              && bool_decide (visibility referenceToDelete = public)
           then
             let* _ := NostrService.useRetractReference user referenceToDelete
                         (js "Deleted by user") in
             ret tt
           else ret tt in
         let* st' := loadReferences st in
         let* _ := toast "Success" in
         ret st')
        (fun _ =>
           let* _ := toast "Error" in
           ret st) in
    ret (set_dialog false None st')
  end.

End WithText.

End Dashboard.

(** ** The settings page (pages/Settings.tsx) *)

Module Settings.

(** The loop of [confirmDeleteAll] over the records the page holds. *)
Fixpoint deleteEach (references : list Reference) : Async unit :=
  match references with
  | [] => ret tt
  | ref :: rest =>
    let* _ := ReferenceService.deleteReference (id ref) in
    deleteEach rest
  end.

(** [confirmDeleteAll] (lines 96-119): [references] is the page's list;
    the result is the list the page holds afterwards. *)
Definition confirmDeleteAll (references : list Reference)
    : Async (list Reference) :=
  try_catch
    (let* _ := deleteEach references in
     let* _ := toast "References Deleted" in
     ret [])
    (fun _ =>
       let* _ := toast "Error" in
       ret references).

(** The three counts the page shows (lines 55-57). *)
Definition stats (references : list Reference) : nat * nat * nat :=
  (length references,
   length (filter (fun ref => visibility ref = public) references),
   length (filter (fun ref => visibility ref = private) references)).

End Settings.

(** ** The import page: parsing for the preview (pages/ImportReference.tsx) *)

Module ImportPreview.

Inductive Step := input | preview | success.

Record State := mkState {
  bibtexInput : jsstring;
  parsedReferences : list Reference;
  parseStep : Step
}.

(** [handleParse] (lines 26-68). *)
Definition handleParse (st : State) : Async State :=
  if bool_decide (trim (bibtexInput st) = [])
  then
    let* _ := toast "Empty Input" in
    ret st
  else
    try_catch
      (let* now := now_seconds in
       let references := BibTeX.parseBibTeX now (bibtexInput st) in
       if (length references =? 0)%nat
       then
         let* _ := toast "No References Found" in
         ret st
       else
         let* _ := toast "BibTeX Parsed" in
         ret (mkState (bibtexInput st) references preview))
      (fun _ =>
         let* _ := toast "Parse Error" in
         ret st).

End ImportPreview.

(** ** Vocabulary of the statements *)

(** All tags of one name, in the order of their values. *)
Definition tagged (name : string) (values : list jsstring) : list (list jsstring) :=
  map (fun v => [js name; v]) values.

(** An optional text as the relay encoding keeps it: the empty text counts
    as absent. *)
Definition present (o : option jsstring) : option jsstring :=
  if truthy o then o else None.

(** No unpaired surrogate: each high surrogate is followed by a low one and
    every low one follows a high one. *)
Fixpoint well_formed (s : jsstring) : bool :=
  match s with
  | [] => true
  | c :: s' =>
    if is_high_surrogate c then
      match s' with
      | d :: s'' => is_low_surrogate d && well_formed s''
      | [] => false
      end
    else negb (is_low_surrogate c) && well_formed s'
  end.


(** A pattern that cannot match the empty string (a syntactic check). *)
Fixpoint consumes (r : regex) : bool :=
  match r with
  | Eps | Star _ _ | Eos => false
  | Chr _ => true
  | Seq a b => consumes a || consumes b
  | Alt a b => consumes a && consumes b
  | Group _ a => consumes a
  end.

(** A group of six bits. *)
Definition is_sextet (v : Z) : Prop := 0 <= v < 64.

(** A Unicode scalar value: a code point that is no surrogate. *)
Definition is_scalar (cp : Z) : Prop :=
  0 <= cp < 1114112 /\ ~ (55296 <= cp <= 57343).

(** The initialisation vector an encryption started in [w] draws. *)
Definition drawn_iv (w : World) : list Z :=
  map (fun i => entropy w (entropy_used w + i)%nat mod 256) (seq 0 12).

(** The key the private path derives for a user. *)
Definition key_of {P : Primitives} (u : User) : CryptoKey :=
  pbkdf2_sha256 (TextEncoder_encode (pubkey u))
    (TextEncoder_encode (js "KnowTation-Reference-Encryption")) 100000.

(** The bytes an encryption started in [w] turns into base64: the vector
    it draws, followed by the cipher's output for the UTF-8 bytes of the
    text. *)
Definition blob_bytes {P : Primitives} (key : CryptoKey) (w : World)
    (data : jsstring) : list Z :=
  drawn_iv w
  ++ Encryption.Uint8Array
       (aes_gcm_encrypt key (drawn_iv w) (TextEncoder_encode data)).

(** These bytes are few enough to be the arguments of one call. *)
Definition fits_one_call {P : Primitives} (key : CryptoKey) (w : World)
    (data : jsstring) : Prop :=
  (length (blob_bytes key w data) <= max_arguments)%nat.

(** The integers a number of the language holds exactly. *)
Definition safe_integer (z : Z) : Prop :=
  - 9007199254740991 <= z <= 9007199254740991.

(** A year whose decimal text is that of the language: absent, NaN or a
    safe integer. *)
Definition safe_year (y : option number) : Prop :=
  match y with
  | Some (Int z) => safe_integer z
  | _ => True
  end.

(** A year that [JSON.parse] reads as [JSON.stringify] wrote it: absent or
    a safe integer. *)
Definition stored_exactly (y : option number) : Prop :=
  match y with
  | Some (Int z) => safe_integer z
  | Some NaN => False
  | None => True
  end.

(** A library all of whose years are read as they were written. *)
Definition exact_storage (l : list Reference) : Prop :=
  Forall (fun r => stored_exactly (year r)) l.


(** The events the relays accepted while a handler ran from [w] to [w']. *)
Definition sent_between (w w' : World) : list NostrEvent :=
  drop (length (wire w)) (wire w').

(** The texts a pattern can match: [derives r s s'] holds when [r] can
    match a prefix of [s] that leaves [s']. *)
Fixpoint derives (r : regex) (s s' : jsstring) : Prop :=
  match r with
  | Eps => s' = s
  | Chr p => exists c, s = c :: s' /\ p c = true
  | Star _ p => exists pre, s = pre ++ s' /\ Forall (fun c => p c = true) pre
  | Seq a b => exists m, derives a s m /\ derives b m s'
  | Alt a b => derives a s s' \/ derives b s s'
  | Group _ a => derives a s s'
  | Eos => s = [] /\ s' = []
  end.


(** Tags as the form keeps them: pairwise distinct, none blank, each
    without white space at its ends. *)
Definition tidy_tags (l : list jsstring) : Prop :=
  NoDup l /\ Forall (fun t => t <> [] /\ trim t = t) l.

(** [sep] does not occur in [s ++ R] at a position inside [s]. *)
Definition no_occurrence (sep s R : jsstring) : Prop :=
  forall u v, s = u ++ v -> v <> [] -> starts_with sep (v ++ R) = false.

(** A word of a name: not empty, without white space, comma, brace or
    backslash. *)
Definition plain_word (w : jsstring) : Prop :=
  w <> []
  /\ Forall (fun c => is_space c = false /\ c <> 44 /\ c <> 123 /\ c <> 125 /\ c <> 92) w.

(** A name as the author inputs usually hold it: words separated by single
    spaces, none of them the word [and]. *)
Definition plain_name (a : jsstring) : Prop :=
  exists ws,
    a = join (js " ") ws /\ ws <> [] /\ Forall plain_word ws /\ js "and" ∉ ws.

(** A word in the sense of [split(' ')]: not empty and without a space. *)
Definition spaceless (w : jsstring) : Prop :=
  w <> [] /\ Forall (fun c => c <> 32) w.

(** The text of one field of an exported entry, and what the field
    pattern captures from it. *)
Definition field_text (p : jsstring * jsstring) : jsstring :=
  js "  " ++ p.1 ++ js " = {" ++ p.2 ++ js "}".

Definition field_captures (p : jsstring * jsstring) : captures :=
  <[2%nat := p.2]> (<[1%nat := p.1]> ∅).

(** A field the field pattern reads as it was written: a name of word
    characters, a value without a closing brace. *)
Definition readable_field (p : jsstring * jsstring) : Prop :=
  p.1 <> [] /\ Forall (fun c => is_word c = true) p.1
  /\ Forall (fun c => c <> 125) p.2.

(** What the entry pattern captures from an entry: its type, its key and
    the text of its fields. *)
Definition entry_captures (entryType citationKey fieldsText : jsstring) : captures :=
  <[3%nat := fieldsText]> (<[2%nat := citationKey]> (<[1%nat := entryType]> ∅)).

(** A field that keeps to its line. *)
Definition one_line_field (p : jsstring * jsstring) : Prop :=
  readable_field p /\ Forall (fun c => c <> 10) p.2.

(** The [fields] object collected from a list of fields. *)
Definition fields_object (fs : list (jsstring * jsstring)) : gmap jsstring jsstring :=
  foldl (fun fields p => <[toLowerCase p.1 := trim p.2]> fields) ∅ fs.

(** The fields written for a list of slots, a slot without a value
    giving none. *)
Definition written_fields (slots : list (jsstring * option jsstring))
    : list (jsstring * jsstring) :=
  flat_map (fun slot => match slot.2 with
                        | Some v => [(slot.1, v)]
                        | None => []
                        end) slots.

Section ExportedFields.
Context {T : Platform.Text}.
Import BibTeXExport.

(** The name under which [exportToBibTeX] writes the journal or book. *)
Definition journalFieldName (r : Reference) : jsstring :=
  if str_eqb (entryTypeOf r) (js "article") then js "journal"
  else if str_eqb (entryTypeOf r) (js "inproceedings") then js "booktitle"
  else js "howpublished".

(** The fields of the entry of [r], in the order [exportToBibTeX] writes
    them, each with the text put between its braces; a field the export
    leaves out has none. *)
Definition exported_slots (r : Reference) : list (jsstring * option jsstring) :=
  [ (js "title", Some (escapeBibTeX (title r)));
    (js "author",
     if (0 <? length (authors r))%nat
     then Some (formatAuthorsForBibTeX (authors r)) else None);
    (js "year", toString <$> year r);
    (journalFieldName r, escapeBibTeX <$> present (journalOrBook r));
    (js "doi", escapeBibTeX <$> present (doi r));
    (js "url", escapeBibTeX <$> present (url r));
    (js "keywords",
     if (0 <? length (tags r))%nat then Some (join (js ", ") (tags r)) else None) ].

End ExportedFields.

(** Text the export writes as it is and the import reads as it is: no
    white space at its ends, no line end, and none of the characters
    [escapeBibTeX] escapes. *)
Definition plain_text (t : jsstring) : Prop :=
  trim t = t
  /\ Forall (fun c => c <> 10
                      /\ BibTeXExport.is_brace_or_backslash c = false
                      /\ BibTeXExport.is_tex_special c = false) t.

(** A record of plain texts: a year whose text is that of the language, a
    title that is not empty, plain names, and tags without a line end or a
    closing brace. *)
Definition plain_record (r : Reference) : Prop :=
  safe_year (year r)
  /\ title r <> [] /\ plain_text (title r)
  /\ Forall plain_name (authors r)
  /\ (forall v, journalOrBook r = Some v -> plain_text v)
  /\ (forall v, doi r = Some v -> plain_text v)
  /\ (forall v, url r = Some v -> plain_text v)
  /\ Forall (Forall (fun c => c <> 10 /\ c <> 125)) (tags r).

(** What the import makes of the exported entry of a plain record: the
    citation key as identifier, the bibliographic fields, and the values
    every imported record starts with. *)
Definition reimported (now : Z) (r : Reference) : Reference :=
  {| id := Validators.createCitationKey (authors r) (year r) (title r);
     title := title r;
     authors := authors r;
     year := year r;
     journalOrBook := present (journalOrBook r);
     doi := present (doi r);
     url := present (url r);
     tags := [];
     notes := None;
     visibility := private;
     createdAt := now;
     updatedAt := now;
     eventId := None |}.

(** ** Sample data

    A stand-in platform for the examples: the key is one bit derived from
    the password, and the cipher prefixes the data with that bit as its
    authentication tag. *)

Definition toy_tag (k : bool) : Z := if k then 1 else 0.

#[local] Instance toy_primitives : Primitives := {|
  CryptoKey := bool;
  pbkdf2_sha256 := fun password salt iterations => Z.even (foldr Z.add 0 password);
  aes_gcm_encrypt := fun k iv m => toy_tag k :: m;
  aes_gcm_decrypt := fun k iv c =>
    match c with
    | t :: m => if t =? toy_tag k then Some m else None
    | [] => None
    end;
  JSON_stringify := fun r => js "{" ++ title r ++ js "}";
  max_arguments := 1000
|}.

Definition nl : string := String (ascii_of_nat 10) EmptyString.

(** The BibTeX text of the specification's example. *)
Definition sample_bibtex : jsstring :=
  js ("@article{doe2020test," ++ nl ++ "  title = {A Test}," ++ nl ++
      "  author = {Doe, Jane}," ++ nl ++ "  year = {2020}" ++ nl ++ "}" ++ nl).

Definition alice : User := {| pubkey := js "npub1alice"; name := None |}.

(** A world whose relays accept every event and name it by its kind. *)
Definition sample_world (stored : list Reference) : World :=
  {| storage := stored;
     wire := [];
     toasts := [];
     clock := 1700000000000;
     relay := fun t => Some (js "ev" ++ toStringRadix 10 (kind t));
     entropy := fun i => Z.of_nat i;
     entropy_used := 0;
     random36 := fun i => js "r" ++ toStringRadix 36 (Z.of_nat i);
     random_used := 0 |}.


Definition sample_reference : Reference :=
  {| id := js "ref1";
     title := js "A Test";
     authors := [js "Jane Doe"];
     year := Some (Int 2020);
     journalOrBook := Some (js "Journal of Tests");
     doi := None;
     url := None;
     tags := [js "testing"];
     notes := Some (js "my private remark");
     visibility := public;
     createdAt := 1600000000;
     updatedAt := 1600000000;
     eventId := Some (js "ev50000") |}.

Definition set_notes (n : option jsstring) (r : Reference) : Reference :=
  {| id := id r; title := title r; authors := authors r; year := year r;
     journalOrBook := journalOrBook r; doi := doi r; url := url r;
     tags := tags r; notes := n; visibility := visibility r;
     createdAt := createdAt r; updatedAt := updatedAt r;
     eventId := eventId r |}.

Definition set_visibility (v : ReferenceVisibility) (r : Reference) : Reference :=
  {| id := id r; title := title r; authors := authors r; year := year r;
     journalOrBook := journalOrBook r; doi := doi r; url := url r;
     tags := tags r; notes := notes r; visibility := v;
     createdAt := createdAt r; updatedAt := updatedAt r;
     eventId := eventId r |}.

(** A record as the form leaves it when the URL field stays blank: the
    field holds the empty text. *)
Definition blank_url_reference : Reference :=
  {| id := js "ref2";
     title := js "A Test";
     authors := [js "Jane Doe"];
     year := Some (Int 2020);
     journalOrBook := None;
     doi := None;
     url := Some [];
     tags := [];
     notes := None;
     visibility := public;
     createdAt := 1600000000;
     updatedAt := 1600000000;
     eventId := None |}.

(** A stand-in for the Unicode tables in the examples: the case mapping of
    the ASCII letters and the order of the code units. *)
#[local] Instance ascii_text : Platform.Text := {|
  Platform.toLowerCase := toLowerCase;
  Platform.localeCompare := default_compare
|}.

(** * Properties *)

(** ** The matcher and the loops over its matches *)

Section MatcherProgress.
Context {R : Type}.

Lemma star_suffix (g : bool) (p : Z -> bool) (k : jsstring -> option R) :
  forall (s : jsstring) (x : R),
    star g p k s = Some x ->
    exists s', k s' = Some x /\ (length s' <= length s)%nat.
Proof.
  induction s as [|c s IH]; intros x H; cbn [star] in H.
  - exists []. auto.
  - destruct (p c); [|exists (c :: s); auto].
    destruct g.
    + destruct (star true p k s) as [y|] eqn:Hs.
      * injection H as <-. destruct (IH y eq_refl) as (s' & Hk & Hl).
        exists s'. cbn [length]. split; [exact Hk | lia].
      * exists (c :: s). auto.
    + destruct (k (c :: s)) as [y|] eqn:Hk.
      * injection H as <-. exists (c :: s). auto.
      * destruct (IH x H) as (s' & Hk' & Hl).
        exists s'. cbn [length]. split; [exact Hk' | lia].
Qed.

(** A match hands its continuation a suffix of the text, a proper one when
    the pattern cannot match the empty string. *)
Lemma rmatch_suffix (r : regex) :
  forall (s : jsstring) (caps : captures)
         (k : jsstring -> captures -> option R) (x : R),
    rmatch r s caps k = Some x ->
    exists s' caps',
      k s' caps' = Some x
      /\ (length s' <= length s)%nat
      /\ (consumes r = true -> (length s' < length s)%nat).
Proof.
  induction r as [| p | g p | a IHa b IHb | a IHa b IHb | i a IHa |];
    intros s caps k x H; cbn [rmatch consumes] in *.
  - exists s, caps. repeat split; [exact H | lia | discriminate].
  - destruct s as [|c s]; [discriminate|].
    destruct (p c); [|discriminate].
    exists s, caps. cbn [length]. repeat split; [exact H | lia | lia].
  - destruct (star_suffix g p _ s x H) as (s' & Hk & Hl).
    exists s', caps. repeat split; [exact Hk | exact Hl | discriminate].
  - destruct (IHa _ _ _ _ H) as (s1 & caps1 & H1 & Hl1 & Hc1).
    destruct (IHb _ _ _ _ H1) as (s2 & caps2 & H2 & Hl2 & Hc2).
    exists s2, caps2. repeat split; [exact H2 | lia |].
    intros Hc. apply orb_prop in Hc as [Hc|Hc]; [apply Hc1 in Hc | apply Hc2 in Hc]; lia.
  - destruct (rmatch a s caps k) as [y|] eqn:Ha.
    + injection H as <-. destruct (IHa _ _ _ _ Ha) as (s1 & caps1 & H1 & Hl1 & Hc1).
      exists s1, caps1. repeat split; [exact H1 | exact Hl1 |].
      intros Hc. apply andb_prop in Hc as [Hc _]. auto.
    + destruct (IHb _ _ _ _ H) as (s1 & caps1 & H1 & Hl1 & Hc1).
      exists s1, caps1. repeat split; [exact H1 | exact Hl1 |].
      intros Hc. apply andb_prop in Hc as [_ Hc]. auto.
  - destruct (IHa _ _ _ _ H) as (s1 & caps1 & H1 & Hl1 & Hc1).
    eexists s1, _. repeat split; [exact H1 | exact Hl1 | exact Hc1].
  - destruct s; [|discriminate].
    exists [], caps. repeat split; [exact H | lia | discriminate].
Qed.

End MatcherProgress.

Lemma exec_shortens (r : regex) (s rest : jsstring) (caps : captures) :
  consumes r = true -> exec r s = Some (caps, rest) ->
  (length rest < length s)%nat.
Proof.
  intros Hc. induction s as [|c s IH]; cbn [exec]; unfold match_at.
  - destruct (rmatch r [] ∅ _) as [m|] eqn:Hm; [|discriminate].
    intros [= ->].
    destruct (rmatch_suffix r _ _ _ _ Hm) as (s' & caps' & [= <- <-] & _ & Hlt).
    apply Hlt, Hc.
  - destruct (rmatch r (c :: s) ∅ _) as [m|] eqn:Hm.
    + intros [= ->].
      destruct (rmatch_suffix r _ _ _ _ Hm) as (s' & caps' & [= <- <-] & _ & Hlt).
      apply Hlt, Hc.
    + intros H. apply IH in H. cbn [length]. lia.
Qed.

(** The loop over the matches of a pattern that cannot match the empty
    string ends by itself: any bound above the length of the text gives
    the same matches. *)
Lemma exec_loop_enough (r : regex) :
  consumes r = true ->
  forall (n m : nat) (s : jsstring),
    (length s < n)%nat -> (length s < m)%nat ->
    exec_loop n r s = exec_loop m r s.
Proof.
  intros Hc. induction n as [|n IH]; intros [|m] s Hn Hm; try lia.
  cbn [exec_loop]. destruct (exec r s) as [[caps rest]|] eqn:He; [|reflexivity].
  pose proof (exec_shortens r s rest caps Hc He). f_equal. apply IH; lia.
Qed.

Lemma bibtex_patterns_consume :
  consumes BibTeX.entryRegex = true /\ consumes BibTeX.fieldRegex = true.
Proof. split; reflexivity. Qed.

(** ** Numbers and their decimal text *)

Section NumberText.

Lemma digit_is_not_space (c : Z) : is_digit c = true -> is_space c = false.
Proof. unfold is_digit, is_space. intros H. lia. Qed.

Lemma digit_value_digit_char (d : Z) :
  0 <= d < 10 -> digit_value 10 (digit_char d) = Some d.
Proof.
  intros H. unfold digit_value, digit_char, is_digit.
  replace (d <? 10) with true by lia.
  replace ((48 <=? 48 + d) && (48 + d <=? 57)) with true by lia.
  replace (48 + d - 48 <? 10) with true by lia.
  f_equal. lia.
Qed.

Lemma is_digit_digit_char (d : Z) : 0 <= d < 10 -> is_digit (digit_char d) = true.
Proof. intros H. unfold digit_char, is_digit. replace (d <? 10) with true by lia. lia. Qed.

Lemma digits_of_all_digits (fuel : nat) : forall z acc,
  0 <= z ->
  Forall (fun c => is_digit c = true) acc ->
  Forall (fun c => is_digit c = true) (digits_of 10 fuel z acc).
Proof.
  induction fuel as [|f IH]; intros z acc Hz Hacc; simpl; [assumption|].
  assert (Hd : is_digit (digit_char (z mod 10)) = true).
  { apply is_digit_digit_char. apply Z.mod_pos_bound. lia. }
  destruct (z <? 10).
  - constructor; assumption.
  - apply IH; [apply Z.div_pos; lia | constructor; assumption].
Qed.

Lemma digits_of_nonempty (f : nat) (z : Z) (acc : jsstring) :
  digits_of 10 (S f) z acc <> [].
Proof.
  revert z acc. induction f as [|f IH]; intros z acc; simpl.
  - destruct (z <? 10); discriminate.
  - destruct (z <? 10); [discriminate|]. apply (IH (z / 10)).
Qed.

Lemma parse_digits_of (f : nat) : forall z,
  0 <= z < 2 ^ Z.of_nat (S f) ->
  exists m, forall a acc,
    parse_digits 10 a (digits_of 10 (S f) z acc)
    = parse_digits 10 (Some (default 0 a * m + z)) acc.
Proof.
  induction f as [|f IH]; intros z Hz.
  - exists 10. intros a acc. change (2 ^ Z.of_nat 1) with 2 in Hz.
    cbn [digits_of]. replace (z <? 10) with true by lia.
    cbn [parse_digits]. rewrite Z.mod_small by lia.
    rewrite digit_value_digit_char by lia. reflexivity.
  - destruct (Z.ltb_spec z 10) as [Hlt|Hge].
    + exists 10. intros a acc. cbn [digits_of].
      replace (z <? 10) with true by lia.
      cbn [parse_digits]. rewrite Z.mod_small by lia.
      rewrite digit_value_digit_char by lia. reflexivity.
    + assert (Hq : 0 <= z / 10 < 2 ^ Z.of_nat (S f)).
      { split; [apply Z.div_pos; lia|].
        apply Z.div_lt_upper_bound; [lia|].
        replace (Z.of_nat (S (S f))) with (Z.succ (Z.of_nat (S f))) in Hz by lia.
        rewrite Z.pow_succ_r in Hz by lia. lia. }
      destruct (IH _ Hq) as [m Hm].
      exists (m * 10). intros a acc.
      change (digits_of 10 (S (S f)) z acc)
        with (if z <? 10 then digit_char (z mod 10) :: acc
              else digits_of 10 (S f) (z / 10) (digit_char (z mod 10) :: acc)).
      replace (z <? 10) with false by lia.
      rewrite Hm. cbn [parse_digits].
      rewrite digit_value_digit_char by (apply Z.mod_pos_bound; lia).
      cbn [default]. unfold Datatypes.id. f_equal. f_equal.
      pose proof (Z.div_mod z 10 ltac:(lia)). lia.
Qed.

Lemma digit_fuel_enough (z : Z) : 0 <= z -> z < 2 ^ Z.of_nat (digit_fuel z).
Proof.
  intros Hz. unfold digit_fuel.
  destruct (Z.eq_dec z 0) as [->|Hnz]; [reflexivity|].
  rewrite Nat2Z.inj_succ, Z2Nat.id by apply Z.log2_nonneg.
  apply Z.log2_spec. lia.
Qed.

(** Reading back the decimal text of a non-negative integer. *)
Lemma parseInt_digits (z : Z) :
  0 <= z ->
  parse_digits 10 None (digits_of 10 (digit_fuel z) z []) = Some z
  /\ exists d ds, digits_of 10 (digit_fuel z) z [] = d :: ds
       /\ Forall (fun c => is_digit c = true) (d :: ds).
Proof.
  intros Hz. split.
  - destruct (parse_digits_of (Z.to_nat (Z.log2 z)) z) as [m Hm].
    { split; [assumption | apply (digit_fuel_enough z Hz)]. }
    unfold digit_fuel. rewrite Hm. reflexivity.
  - pose proof (digits_of_all_digits (digit_fuel z) z [] Hz ltac:(constructor)) as Hall.
    pose proof (digits_of_nonempty (Z.to_nat (Z.log2 z)) z []) as Hne.
    unfold digit_fuel in *.
    destruct (digits_of 10 (S (Z.to_nat (Z.log2 z))) z []) as [|d ds]; [congruence|].
    eauto.
Qed.

(** [parseInt] of the digits of a non-negative integer. *)
Lemma parseInt_of_digits (s : jsstring) (v : Z) :
  s <> [] ->
  Forall (fun c => is_digit c = true) s ->
  parse_digits 10 None s = Some v ->
  parseInt s = Int v.
Proof.
  intros Hne Hall Hv. destruct s as [|d ds]; [congruence|].
  unfold parseInt. cbn [trimStart].
  pose proof (Forall_inv Hall) as Hd. rewrite (digit_is_not_space d Hd).
  assert ((d =? 45) = false) as -> by (unfold is_digit in Hd; lia).
  assert ((d =? 43) = false) as -> by (unfold is_digit in Hd; lia).
  destruct ds as [|x r].
  - rewrite Hv. reflexivity.
  - pose proof (Forall_inv (Forall_inv_tail Hall)) as Hx.
    assert (((x =? 120) || (x =? 88)) = false) as -> by (unfold is_digit in Hx; lia).
    rewrite andb_false_r. rewrite Hv. reflexivity.
Qed.

Lemma parseInt_toString (z : Z) : parseInt (toString (Int z)) = Int z.
Proof.
  cbn [toString]. unfold toStringRadix.
  destruct (Z.ltb_spec z 0) as [Hneg|Hpos].
  - destruct (parseInt_digits (- z) ltac:(lia)) as [Hv (d & ds & Hs & Hall)].
    unfold parseInt. cbn [trimStart].
    change (is_space 45) with false. cbn [Z.eqb Pos.eqb].
    rewrite Hs in *.
    pose proof (Forall_inv Hall) as Hd.
    destruct ds as [|x r].
    + rewrite Hv. f_equal. lia.
    + pose proof (Forall_inv (Forall_inv_tail Hall)) as Hx.
      assert (((x =? 120) || (x =? 88)) = false) as -> by (unfold is_digit in Hx; lia).
      rewrite andb_false_r. rewrite Hv. f_equal. lia.
  - destruct (parseInt_digits z Hpos) as [Hv (d & ds & Hs & Hall)].
    apply parseInt_of_digits; [rewrite Hs; discriminate | rewrite Hs; assumption | assumption].
Qed.

End NumberText.

(** ** Citation keys and BibTeX import *)

(** The key of the specification's example. *)
Example citation_key_example :
  Validators.createCitationKey [js "Jane Doe"] (Some (Int 2020))
    (js "The Great Study")
  = js "doe2020great".
Proof. vm_compute. reflexivity. Qed.

(** C7: the code keeps an underscore, which the claim (and the comment on
    the replacement in the source) counts among the characters removed. *)
Theorem citation_key_keeps_underscore :
  Validators.createCitationKey [js "Jane Doe_Smith"] (Some (Int 2020))
    (js "The Great Study")
  = js "doe_smith2020great".
Proof. vm_compute. reflexivity. Qed.

(** Whatever the input, a key holds only lower-case letters, digits and
    underscores. *)
Lemma citation_key_characters (authors0 : list jsstring) (year0 : option number)
    (title0 : jsstring) :
  Forall (fun c => is_lower c || is_digit c || (c =? 95) = true)
    (Validators.createCitationKey authors0 year0 title0).
Proof.
  unfold Validators.createCitationKey, toLowerCase, remove_all.
  apply List.Forall_map. apply Forall_forall. intros c Hc.
  apply list_elem_of_filter in Hc as [_ Hc].
  apply list_elem_of_filter in Hc as [Hw _].
  rewrite negb_involutive in Hw.
  unfold lower_char, is_word, is_upper, is_lower, is_digit in *.
  destruct ((65 <=? c) && (c <=? 90)) eqn:Hu; lia.
Qed.

(** The steps of the import on the specification's example: the entry
    pattern matches once, with the entry type and the citation key in its
    first two groups; the field pattern finds the three fields in the third
    group; an author written last name first is put back in order. *)
Example sample_entry_captures :
  map (fun m : captures => (m !! 1%nat, m !! 2%nat))
      (exec_all BibTeX.entryRegex sample_bibtex)
  = [(Some (js "article"), Some (js "doe2020test"))].
Proof. vm_compute. reflexivity. Qed.

Example sample_entry_fields :
  map (fun m : captures =>
         let fields := BibTeX.parseFields (default [] (m !! 3%nat)) in
         (fields !! js "title", fields !! js "author", fields !! js "year",
          fields !! js "journal"))
      (exec_all BibTeX.entryRegex sample_bibtex)
  = [(Some (js "A Test"), Some (js "Doe, Jane"), Some (js "2020"), None)].
Proof. vm_compute. reflexivity. Qed.

Example parseAuthors_reorders :
  BibTeX.parseAuthors (js "Doe, Jane and John Smith and Curie, Marie")
  = [js "Jane Doe"; js "John Smith"; js "Marie Curie"].
Proof. vm_compute. reflexivity. Qed.

(** C8.  The BibTeX text of the specification's example parses to exactly
    one record: title "A Test", the single author "Jane Doe" (reordered from
    "Doe, Jane"), year 2020, no tags, visibility private. *)
Theorem parseBibTeX_sample (now : Z) :
  BibTeX.parseBibTeX now sample_bibtex =
  [ {| id := js "doe2020test";
       title := js "A Test";
       authors := [js "Jane Doe"];
       year := Some (Int 2020);
       journalOrBook := None;
       doi := None;
       url := None;
       tags := [];
       notes := None;
       visibility := private;
       createdAt := now;
       updatedAt := now;
       eventId := None |} ].
Proof. vm_compute. reflexivity. Qed.

(** ** The public event codec *)

Section PublicCodec.
Import NostrService.

Lemma js_inj (a b : string) : js a = js b -> a = b.
Proof.
  revert b. induction a as [|c a IH]; intros [|d b] H; try discriminate; [reflexivity|].
  unfold js in H. cbn [list_ascii_of_string map] in H.
  injection H as Hc Hr. f_equal.
  - apply N2Z.inj in Hc.
    rewrite <- (ascii_N_embedding c), <- (ascii_N_embedding d). congruence.
  - apply IH. exact Hr.
Qed.

Lemma tag_named_js (n k : string) (v : list jsstring) :
  tag_named n (js k :: v) = String.eqb k n.
Proof.
  unfold tag_named. cbn [lookup list_lookup].
  destruct (String.eqb_spec k n) as [->|Hne].
  - apply bool_decide_eq_true. reflexivity.
  - apply bool_decide_eq_false. intros [= H]. apply Hne, js_inj, H.
Qed.

Lemma find_app {A} (f : A -> bool) (l1 l2 : list A) :
  find f (l1 ++ l2) = match find f l1 with Some x => Some x | None => find f l2 end.
Proof.
  induction l1 as [|x l1 IH]; [reflexivity|]. cbn [app find].
  destruct (f x); [reflexivity | exact IH].
Qed.

Lemma find_tagged (n k : string) (vs : list jsstring) :
  find (tag_named n) (tagged k vs)
  = if String.eqb k n then head (tagged k vs) else None.
Proof.
  induction vs as [|v vs IH]; cbn [tagged map find head].
  - destruct (String.eqb k n); reflexivity.
  - rewrite tag_named_js. destruct (String.eqb k n); [reflexivity | exact IH].
Qed.

Lemma filter_tagged (n k : string) (vs : list jsstring) :
  filter (fun tag => tag_named n tag = true) (tagged k vs)
  = if String.eqb k n then tagged k vs else [].
Proof.
  induction vs as [|v vs IH]; cbn [tagged map].
  - destruct (String.eqb k n); reflexivity.
  - rewrite filter_cons, tag_named_js. fold (tagged k vs). rewrite IH.
    destruct (String.eqb k n); reflexivity.
Qed.

Lemma mapM_tagged (k : string) (vs : list jsstring) :
  mapM (fun tag : list jsstring => tag !! 1%nat) (tagged k vs) = Some vs.
Proof.
  induction vs as [|v vs IH]; [reflexivity|].
  cbn [tagged map]. fold (tagged k vs).
  cbn [mapM lookup list_lookup]. rewrite IH. reflexivity.
Qed.

(** The tags of a public event, name by name. *)
Lemma toPublicEvent_tags (r : Reference) (now : Z) :
  etags (toPublicEvent r now)
  = tagged "title" [title r]
    ++ tagged "author" (authors r)
    ++ tagged "year" (match year r with
                      | Some y => if truthy_number y then [toString y] else []
                      | None => []
                      end)
    ++ tagged "journal" (option_list (present (journalOrBook r)))
    ++ tagged "doi" (option_list (present (doi r)))
    ++ tagged "url" (option_list (present (url r)))
    ++ tagged "t" (tags r)
    ++ tagged "client-ref-id" [id r].
Proof.
  unfold toPublicEvent, present. cbn [etags].
  f_equal. f_equal. f_equal.
  { destruct (year r) as [y|]; [destruct (truthy_number y)|]; reflexivity. }
  f_equal.
  { destruct (journalOrBook r) as [[|? ?]|]; reflexivity. }
  f_equal.
  { destruct (doi r) as [[|? ?]|]; reflexivity. }
  f_equal.
  { destruct (url r) as [[|? ?]|]; reflexivity. }
Qed.

Lemma value_of_head_tagged (k : string) (vs : list jsstring) :
  value_of (head (tagged k vs)) = head vs.
Proof. destruct vs; reflexivity. Qed.

(** What decoding makes of the public event of a record, field by field. *)
Lemma fromPublicEvent_toPublicEvent (r : Reference) (now : Z) (eid : jsstring) :
  fromPublicEvent (signed (toPublicEvent r now) eid)
  = Some
      {| id := or_else (Some (id r)) eid;
         title := or_else (Some (title r)) (js "Untitled Reference");
         authors := authors r;
         year := match year r with
                 | Some y => if truthy_number y then Some (parseInt (toString y)) else None
                 | None => None
                 end;
         journalOrBook := present (journalOrBook r);
         doi := present (doi r);
         url := present (url r);
         tags := tags r;
         notes := None;
         visibility := public;
         createdAt := now;
         updatedAt := now;
         eventId := Some eid |}.
Proof.
  unfold fromPublicEvent. cbn [signed ev_tags ev_id ev_created_at].
  rewrite toPublicEvent_tags. cbn [kind content created_at toPublicEvent].
  rewrite !filter_app, !find_app, !find_tagged, !filter_tagged.
  cbn [String.eqb Ascii.eqb Bool.eqb andb].
  cbn [app]. rewrite !app_nil_r, !mapM_tagged. cbn [mbind option_bind].
  assert (Hsame : forall o : option (list jsstring),
             match o with Some x => Some x | None => None end = o)
    by (intros [?|]; reflexivity).
  rewrite !Hsame, !value_of_head_tagged.
  f_equal. f_equal.
  - destruct (year r) as [y|]; [destruct (truthy_number y)|]; reflexivity.
  - destruct (present (journalOrBook r)); reflexivity.
  - destruct (present (doi r)); reflexivity.
  - destruct (present (url r)); reflexivity.
Qed.

(** A record the schema accepts has a title and a year that is an
    integer from 0 on, if it has one. *)
Lemma referenceSchema_title_year (url_ok : jsstring -> bool) (this_year : Z)
    (r : Reference) :
  Validators.referenceSchema url_ok this_year (formOf r) = true ->
  title r <> []
  /\ (year r = None \/ exists y, year r = Some (Int y) /\ 0 <= y).
Proof.
  unfold Validators.referenceSchema. cbn [formOf f_title f_authors f_year f_doi f_url].
  intros H. repeat (apply andb_prop in H; destruct H as [H ?]).
  split.
  - intros Ht. rewrite Ht in H. discriminate.
  - destruct (year r) as [[y|]|]; [right; exists y; split; [reflexivity|lia] | discriminate | left; reflexivity].
Qed.

End PublicCodec.

(** C2, as amended.  For every record the schema accepts whose year is not
    0, decoding the public event built for it yields a record with the same
    title, the same authors in the same order, the same year and the same
    tags in the same order (hence the same set); container, DOI and URL are
    the same when they hold text, and an empty or absent one is decoded as
    absent. *)
Theorem public_event_roundtrip (url_ok : jsstring -> bool) (this_year : Z)
    (r : Reference) (now : Z) (eid : jsstring) :
  Validators.referenceSchema url_ok this_year (formOf r) = true ->
  year r <> Some (Int 0) ->
  exists r',
    NostrService.fromPublicEvent (signed (NostrService.toPublicEvent r now) eid)
    = Some r'
    /\ title r' = title r
    /\ authors r' = authors r
    /\ year r' = year r
    /\ journalOrBook r' = present (journalOrBook r)
    /\ doi r' = present (doi r)
    /\ url r' = present (url r)
    /\ tags r' = tags r.
Proof.
  intros Hvalid Hyear.
  destruct (referenceSchema_title_year _ _ _ Hvalid) as [Htitle Hy].
  eexists. split; [apply fromPublicEvent_toPublicEvent|].
  cbn [title authors year journalOrBook doi url tags].
  repeat split.
  - destruct (title r); [congruence | reflexivity].
  - destruct Hy as [Hnone|(y & Hsome & Hy)]; rewrite ?Hnone, ?Hsome in *;
      [reflexivity|].
    cbn [truthy_number].
    destruct (Z.eqb_spec y 0) as [Hz|Hnz]; [subst y; congruence|].
    cbn [negb]. rewrite parseInt_toString. reflexivity.
Qed.

Lemma public_event_roundtrip_witness :
  Validators.referenceSchema (fun _ => true) 2025 (formOf sample_reference) = true
  /\ year sample_reference <> Some (Int 0)
  /\ exists r',
      NostrService.fromPublicEvent
        (signed (NostrService.toPublicEvent sample_reference 1700000000) (js "ev50000"))
      = Some r'
      /\ title r' = title sample_reference
      /\ authors r' = authors sample_reference
      /\ year r' = year sample_reference
      /\ journalOrBook r' = present (journalOrBook sample_reference)
      /\ doi r' = present (doi sample_reference)
      /\ url r' = present (url sample_reference)
      /\ tags r' = tags sample_reference.
Proof.
  assert (H1 : Validators.referenceSchema (fun _ => true) 2025
                 (formOf sample_reference) = true) by (vm_compute; reflexivity).
  assert (H2 : year sample_reference <> Some (Int 0)) by (cbn; congruence).
  split; [exact H1|]. split; [exact H2|].
  exact (public_event_roundtrip (fun _ => true) 2025 sample_reference
           1700000000 (js "ev50000") H1 H2).
Defined.

(** C2 as stated fails: a record the schema accepts whose URL is the empty
    text comes back with no URL at all. *)
Lemma public_event_roundtrip_blank_url :
  Validators.referenceSchema (fun _ => false) 2025 (formOf blank_url_reference) = true
  /\ url blank_url_reference = Some []
  /\ url <$> NostrService.fromPublicEvent
               (signed (NostrService.toPublicEvent blank_url_reference 1700000000)
                       (js "ev50000"))
     = Some None.
Proof. vm_compute. repeat split. Qed.

(** ** Base64 *)

Section Base64.

Lemma list_ind3 {A} (Q : list A -> Prop) :
  Q [] -> (forall a, Q [a]) -> (forall a b, Q [a; b]) ->
  (forall a b c l, Q l -> Q (a :: b :: c :: l)) ->
  forall l, Q l.
Proof.
  intros H0 H1 H2 H3.
  assert (H : forall l, Q l /\ (forall a, Q (a :: l)) /\ (forall a b, Q (a :: b :: l))).
  { induction l as [|x l (IH0 & IH1 & IH2)]; [auto|].
    split; [apply IH1|]. split; [intros a; apply IH2|].
    intros a b. apply H3, IH0. }
  intros l. apply H.
Qed.

Lemma b64_value_char (v : Z) : is_sextet v -> b64_value (b64_char v) = Some v.
Proof.
  unfold is_sextet, b64_value, b64_char, is_upper, is_lower, is_digit. intros H.
  destruct (Z.ltb_spec v 26).
  { replace ((65 <=? 65 + v) && (65 + v <=? 90)) with true by lia. f_equal. lia. }
  destruct (Z.ltb_spec v 52).
  { replace ((65 <=? 71 + v) && (71 + v <=? 90)) with false by lia.
    replace ((97 <=? 71 + v) && (71 + v <=? 122)) with true by lia. f_equal. lia. }
  destruct (Z.ltb_spec v 62).
  { replace ((65 <=? v - 4) && (v - 4 <=? 90)) with false by lia.
    replace ((97 <=? v - 4) && (v - 4 <=? 122)) with false by lia.
    replace ((48 <=? v - 4) && (v - 4 <=? 57)) with true by lia. f_equal. lia. }
  destruct (Z.eqb_spec v 62) as [->|]; [reflexivity|].
  assert (v = 63) as -> by lia. reflexivity.
Qed.

Lemma b64_char_plain (v : Z) :
  is_sextet v -> (b64_char v =? 61) = false /\ is_ascii_whitespace (b64_char v) = false.
Proof.
  unfold is_sextet, b64_char, is_ascii_whitespace. intros H.
  destruct (Z.ltb_spec v 26); [lia|].
  destruct (Z.ltb_spec v 52); [lia|].
  destruct (Z.ltb_spec v 62); [lia|].
  destruct (Z.eqb_spec v 62); split; reflexivity.
Qed.

(** The groups of a byte sequence: sextets, padded to a multiple of four,
    from which the bytes are read back. *)
Lemma b64_groups_spec (l : list Z) :
  Forall is_byte l ->
  Forall is_sextet (b64_groups l).1
  /\ b64_bytes (b64_groups l).1 = l
  /\ ((b64_groups l).2 <= 2)%nat
  /\ Z.of_nat (length (b64_groups l).1 + (b64_groups l).2) mod 4 = 0.
Proof.
  unfold is_byte, is_sextet.
  induction l as [| a | a b | a b c l IH] using list_ind3; intros Hl.
  - cbn. repeat split; [constructor | lia].
  - apply Forall_cons in Hl as [Ha _]. cbn [b64_groups fst snd b64_bytes length].
    split; [repeat constructor; Z.div_mod_to_equations; lia|].
    split; [f_equal; Z.div_mod_to_equations; lia|]. split; [lia | reflexivity].
  - apply Forall_cons in Hl as [Ha Hl]. apply Forall_cons in Hl as [Hb _].
    cbn [b64_groups fst snd b64_bytes length].
    split; [repeat constructor; Z.div_mod_to_equations; lia|].
    split; [repeat f_equal; Z.div_mod_to_equations; lia|]. split; [lia | reflexivity].
  - apply Forall_cons in Hl as [Ha Hl]. apply Forall_cons in Hl as [Hb Hl].
    apply Forall_cons in Hl as [Hc Hl].
    destruct (IH Hl) as (Hs & Hbytes & Hpad & Hlen).
    cbn [b64_groups]. destruct (b64_groups l) as [g pad].
    cbn [fst snd] in *. cbn [b64_bytes length].
    split; [repeat (constructor; [Z.div_mod_to_equations; lia|]); exact Hs|].
    split; [rewrite Hbytes; repeat f_equal; Z.div_mod_to_equations; lia|].
    split; [exact Hpad|].
    replace (Z.of_nat (S (S (S (S (length g)))) + pad))
      with (Z.of_nat (length g + pad) + 1 * 4) by lia.
    rewrite Z.mod_add by lia. exact Hlen.
Qed.

Lemma filter_all {A} (Q : A -> Prop) `{forall x, Decision (Q x)} (l : list A) :
  Forall Q l -> filter Q l = l.
Proof.
  induction 1 as [|x l Hx Hl IH]; [reflexivity|].
  rewrite filter_cons, decide_True by assumption. f_equal. exact IH.
Qed.

Lemma mapM_b64_value (g : list Z) :
  Forall is_sextet g -> mapM b64_value (map b64_char g) = Some g.
Proof.
  induction 1 as [|v g Hv Hg IH]; [reflexivity|].
  cbn [map mapM]. rewrite (b64_value_char v Hv), IH. reflexivity.
Qed.

Lemma strip_padding_spec (m : jsstring) (pad : nat) :
  Forall (fun c => (c =? 61) = false) m -> (pad <= 2)%nat ->
  strip_padding (m ++ replicate pad 61) = m.
Proof.
  intros Hm Hpad. unfold strip_padding. rewrite rev_app_distr.
  assert (Hrev : Forall (fun c => (c =? 61) = false) (rev m)).
  { apply Forall_rev. exact Hm. }
  destruct pad as [|[|[|pad]]]; [| | |lia]; cbn [replicate rev app].
  - rewrite app_nil_r. destruct (rev m) as [|a [|b r]] eqn:Hr.
    + reflexivity.
    + rewrite (Forall_inv Hrev). reflexivity.
    + rewrite (Forall_inv Hrev). reflexivity.
  - destruct (rev m) as [|b r] eqn:Hr.
    + apply (f_equal (@rev Z)) in Hr. rewrite rev_involutive in Hr. subst m. reflexivity.
    + rewrite (Forall_inv Hrev). cbn [Z.eqb Pos.eqb andb].
      change (rev r ++ [b]) with (rev (b :: r)).
      rewrite <- Hr, rev_involutive. reflexivity.
  - rewrite rev_involutive. reflexivity.
Qed.

(** Decoding the base64 text of a byte sequence gives the bytes back. *)
Lemma atob_btoa (l : list Z) (blob : jsstring) :
  Forall is_byte l -> btoa l = Some blob -> atob blob = Some l.
Proof.
  intros Hl Hb. unfold btoa in Hb.
  destruct (forallb _ l); [|discriminate].
  destruct (b64_groups_spec l Hl) as (Hs & Hbytes & Hpad & Hlen).
  destruct (b64_groups l) as [g pad]. cbn [fst snd] in *.
  injection Hb as <-. unfold atob.
  assert (Hplain : Forall (fun c => (c =? 61) = false) (map b64_char g)).
  { apply List.Forall_map. eapply Forall_impl; [exact Hs|].
    intros v Hv. apply (b64_char_plain v Hv). }
  rewrite filter_all.
  2:{ apply Forall_app. split.
      - apply List.Forall_map. eapply Forall_impl; [exact Hs|].
        intros v Hv. apply (b64_char_plain v Hv).
      - apply Forall_replicate. reflexivity. }
  rewrite length_app, length_map, length_replicate.
  apply Z.eqb_eq in Hlen as Hlen'. rewrite Hlen'.
  rewrite (strip_padding_spec _ pad Hplain Hpad), length_map.
  assert ((Z.of_nat (length g) mod 4 =? 1) = false) as ->.
  { apply Z.eqb_neq. revert Hlen. rewrite Nat2Z.inj_add.
    destruct pad as [|[|[|pad]]]; [| | |lia]; intros Hlen;
      Z.div_mod_to_equations; lia. }
  rewrite (mapM_b64_value g Hs). cbn [fmap option_fmap option_map]. congruence.
Qed.

End Base64.

(** ** UTF-8 and UTF-16 *)

Section Utf8.

Lemma utf8_run_cons (st : utf8_state) (b : Z) (rest : list Z) :
  utf8_run st (b :: rest)
  = (utf8_step st b).2 ++ utf8_run (utf8_step st b).1 rest.
Proof. cbn [utf8_run]. destruct (utf8_step st b). reflexivity. Qed.

Lemma utf8_step_more (cp seen needed lo hi b : Z) :
  needed <> 0 -> lo <= b <= hi -> seen + 1 <> needed ->
  utf8_step (mkUtf8 cp seen needed lo hi) b
  = (mkUtf8 (cp * 64 + (b - 128)) (seen + 1) needed 128 191, []).
Proof.
  intros Hn Hb Hs. unfold utf8_step. cbn [u_needed u_lower u_upper u_seen u_cp].
  replace (needed =? 0) with false by lia.
  replace ((lo <=? b) && (b <=? hi)) with true by lia.
  replace (seen + 1 =? needed) with false by lia. reflexivity.
Qed.

Lemma utf8_step_last (cp seen needed lo hi b : Z) :
  needed <> 0 -> lo <= b <= hi -> seen + 1 = needed ->
  utf8_step (mkUtf8 cp seen needed lo hi) b = (utf8_init, [cp * 64 + (b - 128)]).
Proof.
  intros Hn Hb Hs. unfold utf8_step. cbn [u_needed u_lower u_upper u_seen u_cp].
  replace (needed =? 0) with false by lia.
  replace ((lo <=? b) && (b <=? hi)) with true by lia.
  replace (seen + 1 =? needed) with true by lia. reflexivity.
Qed.

Lemma utf8_step_init (b : Z) : utf8_step utf8_init b = utf8_lead b.
Proof. reflexivity. Qed.

Lemma utf8_run_1 (b : Z) (rest : list Z) :
  0 <= b <= 127 ->
  utf8_run utf8_init (b :: rest) = b :: utf8_run utf8_init rest.
Proof.
  intros H. rewrite utf8_run_cons, utf8_step_init. unfold utf8_lead.
  replace (b <=? 127) with true by lia. reflexivity.
Qed.

Lemma utf8_run_2 (b1 b2 : Z) (rest : list Z) :
  194 <= b1 <= 223 -> 128 <= b2 <= 191 ->
  utf8_run utf8_init (b1 :: b2 :: rest)
  = ((b1 - 192) * 64 + (b2 - 128)) :: utf8_run utf8_init rest.
Proof.
  intros H1 H2. rewrite utf8_run_cons, utf8_step_init. unfold utf8_lead.
  replace (b1 <=? 127) with false by lia.
  replace ((194 <=? b1) && (b1 <=? 223)) with true by lia.
  cbn [fst snd app].
  rewrite utf8_run_cons, utf8_step_last by lia. reflexivity.
Qed.

Lemma utf8_run_3 (b1 b2 b3 : Z) (rest : list Z) :
  224 <= b1 <= 239 ->
  (if b1 =? 224 then 160 else 128) <= b2 <= (if b1 =? 237 then 159 else 191) ->
  128 <= b3 <= 191 ->
  utf8_run utf8_init (b1 :: b2 :: b3 :: rest)
  = (((b1 - 224) * 64 + (b2 - 128)) * 64 + (b3 - 128)) :: utf8_run utf8_init rest.
Proof.
  intros H1 H2 H3. rewrite utf8_run_cons, utf8_step_init. unfold utf8_lead.
  replace (b1 <=? 127) with false by lia.
  replace ((194 <=? b1) && (b1 <=? 223)) with false by lia.
  replace ((224 <=? b1) && (b1 <=? 239)) with true by lia.
  cbn [fst snd app].
  rewrite utf8_run_cons, utf8_step_more by (try exact H2; lia). cbn [fst snd app].
  rewrite utf8_run_cons, utf8_step_last by lia. reflexivity.
Qed.

Lemma utf8_run_4 (b1 b2 b3 b4 : Z) (rest : list Z) :
  240 <= b1 <= 244 ->
  (if b1 =? 240 then 144 else 128) <= b2 <= (if b1 =? 244 then 143 else 191) ->
  128 <= b3 <= 191 -> 128 <= b4 <= 191 ->
  utf8_run utf8_init (b1 :: b2 :: b3 :: b4 :: rest)
  = ((((b1 - 240) * 64 + (b2 - 128)) * 64 + (b3 - 128)) * 64 + (b4 - 128))
      :: utf8_run utf8_init rest.
Proof.
  intros H1 H2 H3 H4. rewrite utf8_run_cons, utf8_step_init. unfold utf8_lead.
  replace (b1 <=? 127) with false by lia.
  replace ((194 <=? b1) && (b1 <=? 223)) with false by lia.
  replace ((224 <=? b1) && (b1 <=? 239)) with false by lia.
  replace ((240 <=? b1) && (b1 <=? 244)) with true by lia.
  cbn [fst snd app].
  rewrite utf8_run_cons, utf8_step_more by (try exact H2; lia). cbn [fst snd app].
  rewrite utf8_run_cons, utf8_step_more by lia. cbn [fst snd app].
  rewrite utf8_run_cons, utf8_step_last by lia. reflexivity.
Qed.

(** Decoding the bytes of one scalar value, whatever follows. *)
Lemma utf8_run_encode_scalar (cp : Z) (rest : list Z) :
  is_scalar cp ->
  utf8_run utf8_init (utf8_encode_scalar cp ++ rest) = cp :: utf8_run utf8_init rest.
Proof.
  intros [Hr Hs]. unfold utf8_encode_scalar.
  destruct (Z.ltb_spec cp 128); [apply utf8_run_1; lia|].
  destruct (Z.ltb_spec cp 2048).
  { cbn [app]. rewrite utf8_run_2 by (Z.div_mod_to_equations; lia).
    f_equal. Z.div_mod_to_equations; lia. }
  destruct (Z.ltb_spec cp 65536).
  { cbn [app]. rewrite utf8_run_3.
    - f_equal. Z.div_mod_to_equations; lia.
    - Z.div_mod_to_equations; lia.
    - destruct (Z.eqb_spec (224 + cp / 4096) 224);
        destruct (Z.eqb_spec (224 + cp / 4096) 237);
        Z.div_mod_to_equations; lia.
    - Z.div_mod_to_equations; lia. }
  cbn [app]. rewrite utf8_run_4.
  - f_equal. Z.div_mod_to_equations; lia.
  - Z.div_mod_to_equations; lia.
  - destruct (Z.eqb_spec (240 + cp / 262144) 240);
      destruct (Z.eqb_spec (240 + cp / 262144) 244);
      Z.div_mod_to_equations; lia.
  - Z.div_mod_to_equations; lia.
  - Z.div_mod_to_equations; lia.
Qed.

Lemma utf8_encode_scalar_bytes (cp : Z) :
  0 <= cp < 1114112 -> Forall is_byte (utf8_encode_scalar cp).
Proof.
  intros H. unfold utf8_encode_scalar, is_byte.
  destruct (Z.ltb_spec cp 128); [repeat constructor; lia|].
  destruct (Z.ltb_spec cp 2048); [repeat constructor; Z.div_mod_to_equations; lia|].
  destruct (Z.ltb_spec cp 65536); repeat constructor; Z.div_mod_to_equations; lia.
Qed.

Lemma utf8_run_encode (cps : list Z) :
  Forall is_scalar cps ->
  utf8_run utf8_init (concat (map utf8_encode_scalar cps)) = cps.
Proof.
  induction 1 as [|cp cps Hcp Hcps IH]; [reflexivity|].
  cbn [map concat]. rewrite utf8_run_encode_scalar by assumption. f_equal. exact IH.
Qed.

Lemma to_scalars_range (s : jsstring) :
  Forall code_unit s -> Forall (fun cp => 0 <= cp < 1114112) (to_scalars s).
Proof.
  assert (H : forall n s, (length s <= n)%nat -> Forall code_unit s ->
                          Forall (fun cp => 0 <= cp < 1114112) (to_scalars s)).
  { induction n as [|n IH]; intros [|c s'] Hlen Hs; cbn [length] in Hlen;
      try (constructor; fail); [lia|].
    apply Forall_cons in Hs as [Hc Hs]. unfold code_unit in Hc.
    cbn [to_scalars]. unfold is_high_surrogate, is_low_surrogate.
    destruct ((55296 <=? c) && (c <=? 56319)) eqn:Hhi.
    - destruct s' as [|d s'']; [repeat constructor; lia|].
      pose proof Hs as Hs'. apply Forall_cons in Hs' as [Hd Hs''].
      unfold code_unit in Hd. cbn [length] in Hlen.
      destruct ((56320 <=? d) && (d <=? 57343)) eqn:Hlo.
      + constructor; [lia | apply IH; [lia | assumption]].
      + constructor; [lia | apply IH; [cbn [length]; lia | assumption]].
    - destruct ((56320 <=? c) && (c <=? 57343));
        (constructor; [lia | apply IH; [lia | assumption]]). }
  intros Hs. apply (H (length s) s); [lia | assumption].
Qed.

(** On a string without unpaired surrogates the conversion to scalar
    values loses nothing. *)
Lemma to_scalars_well_formed (s : jsstring) :
  Forall code_unit s -> well_formed s = true ->
  Forall is_scalar (to_scalars s)
  /\ concat (map utf16_encode_scalar (to_scalars s)) = s
  /\ (head (to_scalars s) = Some 65279 -> head s = Some 65279).
Proof.
  assert (H : forall n s, (length s <= n)%nat ->
            Forall code_unit s -> well_formed s = true ->
            Forall is_scalar (to_scalars s)
            /\ concat (map utf16_encode_scalar (to_scalars s)) = s
            /\ (head (to_scalars s) = Some 65279 -> head s = Some 65279)).
  { induction n as [|n IH]; intros [|c s'] Hlen Hs Hwf; cbn [length] in Hlen;
      try (repeat split; [constructor | discriminate]; fail); [lia|].
    apply Forall_cons in Hs as [Hc Hs]. unfold code_unit in Hc.
    cbn [to_scalars well_formed] in *.
    unfold is_high_surrogate, is_low_surrogate in *.
    destruct ((55296 <=? c) && (c <=? 56319)) eqn:Hhi.
    - destruct s' as [|d s'']; [discriminate|].
      apply andb_prop in Hwf as [Hlo Hwf]. rewrite Hlo.
      apply Forall_cons in Hs as [Hd Hs]. unfold code_unit in Hd.
      cbn [length] in Hlen.
      destruct (IH s'' ltac:(lia) Hs Hwf) as (Hsc & Hback & _).
      split; [constructor; [unfold is_scalar; lia | exact Hsc]|].
      split.
      + cbn [map concat]. rewrite Hback. unfold utf16_encode_scalar.
        replace (65536 + (c - 55296) * 1024 + (d - 56320) <? 65536) with false by lia.
        cbn [app]. f_equal; [|f_equal]; Z.div_mod_to_equations; lia.
      + cbn [head]. intros [= Heq]. lia.
    - apply andb_prop in Hwf as [Hlo Hwf]. apply negb_true_iff in Hlo. rewrite Hlo.
      destruct (IH s' ltac:(lia) Hs Hwf) as (Hsc & Hback & _).
      split; [constructor; [unfold is_scalar; lia | exact Hsc]|].
      split.
      + cbn [map concat]. rewrite Hback. unfold utf16_encode_scalar.
        replace (c <? 65536) with true by lia. reflexivity.
      + cbn [head]. intros H. exact H. }
  intros Hs Hwf. apply (H (length s) s); [lia | assumption | assumption].
Qed.

Lemma TextEncoder_bytes (s : jsstring) :
  Forall code_unit s -> Forall is_byte (TextEncoder_encode s).
Proof.
  intros Hs. unfold TextEncoder_encode. apply Forall_concat, List.Forall_map.
  eapply Forall_impl; [apply to_scalars_range, Hs|].
  intros cp Hcp. apply utf8_encode_scalar_bytes, Hcp.
Qed.

(** Decoding the UTF-8 bytes of a string without unpaired surrogates gives
    the string back, unless it starts with U+FEFF. *)
Lemma TextDecoder_TextEncoder (s : jsstring) :
  Forall code_unit s -> well_formed s = true -> head s <> Some 65279 ->
  TextDecoder_decode (TextEncoder_encode s) = s.
Proof.
  intros Hs Hwf Hbom.
  destruct (to_scalars_well_formed s Hs Hwf) as (Hsc & Hback & Hhead).
  unfold TextDecoder_decode, TextEncoder_encode. rewrite (utf8_run_encode _ Hsc).
  destruct (to_scalars s) as [|cp cps] eqn:Hcps; [exact Hback|].
  destruct (Z.eq_dec cp 65279) as [->|Hne].
  - exfalso. apply Hbom, Hhead. reflexivity.
  - replace (cp =? 65279) with false by lia. exact Hback.
Qed.

End Utf8.

(** ** Encryption *)

Section Blob.
Context {P : Primitives}.
Import Encryption.

Lemma btoa_total (l : list Z) :
  Forall is_byte l -> exists b, btoa l = Some b.
Proof.
  intros H. unfold btoa.
  assert (forallb (fun c => (0 <=? c) && (c <? 256)) l = true) as ->.
  { apply forallb_forall. intros c Hc. rewrite Forall_forall in H.
    apply list_elem_of_In, H in Hc. unfold is_byte in Hc. lia. }
  destruct (b64_groups l). eauto.
Qed.

Lemma Uint8Array_bytes (l : list Z) : Forall is_byte (Uint8Array l).
Proof.
  unfold Uint8Array. apply List.Forall_map, Forall_forall. intros c _.
  apply Z.mod_pos_bound. lia.
Qed.

Lemma drawn_iv_bytes (w : World) : Forall is_byte (drawn_iv w).
Proof.
  unfold drawn_iv. apply List.Forall_map, Forall_forall. intros c _.
  apply Z.mod_pos_bound. lia.
Qed.

Lemma blob_bytes_bytes (key : CryptoKey) (w : World) (data : jsstring) :
  Forall is_byte (blob_bytes key w data).
Proof.
  apply Forall_app. split; [apply drawn_iv_bytes | apply Uint8Array_bytes].
Qed.

Lemma bytes_as_code_units (l : list Z) :
  Forall is_byte l -> map (fun b => b mod 65536) l = l.
Proof.
  induction 1 as [|b l Hb _ IH]; [reflexivity|].
  cbn [map]. rewrite IH, Z.mod_small by (unfold is_byte in Hb; lia). reflexivity.
Qed.

(** Encryption draws the vector and then resolves with the base64 text of
    the vector followed by the cipher's output, when these bytes fit one
    call. *)
Lemma encryptData_resolves (data : jsstring) (key : CryptoKey) (w : World) :
  fits_one_call key w data ->
  exists blob,
    btoa (blob_bytes key w data) = Some blob
    /\ encryptData data key w = (Ok blob, use_entropy 12 w).
Proof.
  intros Hfit.
  destruct (btoa_total (blob_bytes key w data) (blob_bytes_bytes key w data))
    as [blob Hb].
  exists blob. split; [exact Hb|].
  unfold encryptData, getRandomValues, bind, String_fromCharCode_spread.
  fold (drawn_iv w). fold (blob_bytes key w data).
  rewrite (proj2 (Nat.leb_le _ _) Hfit). unfold ret at 1.
  rewrite (bytes_as_code_units _ (blob_bytes_bytes key w data)), Hb. reflexivity.
Qed.

(** When they do not, it rejects with the engine's [RangeError], the
    vector drawn. *)
Lemma encryptData_rejects (data : jsstring) (key : CryptoKey) (w : World) :
  ~ fits_one_call key w data ->
  encryptData data key w = (Throw RangeError, use_entropy 12 w).
Proof.
  intros Hfit.
  unfold encryptData, getRandomValues, bind, String_fromCharCode_spread.
  fold (drawn_iv w). fold (blob_bytes key w data).
  rewrite (proj2 (Nat.leb_gt _ _)) by (unfold fits_one_call in Hfit; lia).
  reflexivity.
Qed.

Lemma fits_one_call_dec (key : CryptoKey) (w : World) (data : jsstring) :
  fits_one_call key w data \/ ~ fits_one_call key w data.
Proof. unfold fits_one_call. lia. Qed.

End Blob.

Section Roundtrip.
Context {P : Primitives} {A : AEAD P}.
Import Encryption.

Lemma Uint8Array_of_bytes (l : list Z) : Forall is_byte l -> Uint8Array l = l.
Proof.
  unfold Uint8Array. induction 1 as [|b l Hb Hl IH]; [reflexivity|].
  cbn [map]. rewrite IH, Z.mod_small by exact Hb. reflexivity.
Qed.

(** The blob of an encryption: the base64 text of the vector followed by
    the cipher's output, which decodes to exactly these bytes. *)
Lemma encryptData_blob (text : jsstring) (key : CryptoKey) (w : World) :
  Forall code_unit text ->
  fits_one_call key w text ->
  exists blob,
    encryptData text key w = (Ok blob, use_entropy 12 w)
    /\ atob blob
       = Some (drawn_iv w ++ aes_gcm_encrypt key (drawn_iv w) (TextEncoder_encode text)).
Proof.
  intros Htext Hfit.
  destruct (encryptData_resolves text key w Hfit) as (blob & Hb & Hrun).
  exists blob. split; [exact Hrun|].
  pose proof (aead_bytes key (drawn_iv w) _ (TextEncoder_bytes text Htext)) as Hct.
  unfold blob_bytes in Hb. rewrite (Uint8Array_of_bytes _ Hct) in Hb.
  apply (atob_btoa _ blob); [|exact Hb].
  apply Forall_app. split; [apply drawn_iv_bytes | exact Hct].
Qed.

(** Under the same key, decryption resolves with the text the platform's
    decoder makes of the plaintext's UTF-8 bytes; under another key it
    rejects. *)
Lemma decryptData_encryptData (text : jsstring) (key : CryptoKey) (w : World) :
  Forall code_unit text ->
  fits_one_call key w text ->
  exists blob,
    encryptData text key w = (Ok blob, use_entropy 12 w)
    /\ (forall w2,
          decryptData blob key w2
          = (Ok (TextDecoder_decode (TextEncoder_encode text)), w2))
    /\ (forall key' w2,
          key' <> key ->
          decryptData blob key' w2
          = (Throw (DOMException (js "OperationError")), w2)).
Proof.
  intros Hunits Hfit.
  destruct (encryptData_blob text key w Hunits Hfit) as (blob & Hrun & Hatob).
  exists blob. split; [exact Hrun|].
  assert (Htake : take 12 (drawn_iv w ++ aes_gcm_encrypt key (drawn_iv w)
                             (TextEncoder_encode text)) = drawn_iv w).
  { change 12%nat with (length (drawn_iv w)). apply take_app_length. }
  assert (Hdrop : drop 12 (drawn_iv w ++ aes_gcm_encrypt key (drawn_iv w)
                             (TextEncoder_encode text))
                  = aes_gcm_encrypt key (drawn_iv w) (TextEncoder_encode text)).
  { change 12%nat with (length (drawn_iv w)). apply drop_app_length. }
  split.
  - intros w2. unfold decryptData. rewrite Hatob, Htake, Hdrop.
    rewrite aead_correct by (apply TextEncoder_bytes, Hunits). reflexivity.
  - intros key' w2 Hkey. unfold decryptData. rewrite Hatob, Htake, Hdrop.
    rewrite aead_authentic by congruence. reflexivity.
Qed.

End Roundtrip.

(** The text codec alone drops a leading U+FEFF and replaces an unpaired
    surrogate. *)
Example text_codec_alters_some_texts :
  TextDecoder_decode (TextEncoder_encode [65279; 65]) = [65]
  /\ TextDecoder_decode (TextEncoder_encode [55357; 65]) = [65533; 65].
Proof. vm_compute. split; reflexivity. Qed.

#[local] Instance toy_aead : AEAD toy_primitives.
Proof.
  split.
  - intros k iv m Hm. constructor; [|exact Hm].
    unfold is_byte, toy_tag. destruct k; lia.
  - intros k iv m _. cbn. rewrite Z.eqb_refl. reflexivity.
  - intros k k' iv m Hk. cbn.
    destruct k, k'; try congruence; reflexivity.
Qed.

Lemma js_code_units (s : string) : Forall code_unit (js s).
Proof.
  induction s as [|a s IH]; [constructor|].
  unfold js. cbn [list_ascii_of_string map]. constructor; [|exact IH].
  unfold code_unit. pose proof (N_ascii_bounded a). lia.
Qed.

(** C6, as amended.  With a cipher that meets its guarantees, for every
    key and every plaintext that has no unpaired surrogate and does not
    start with U+FEFF.  When the vector and the cipher's output are few
    enough bytes to be the arguments of one call, encryption resolves with
    a blob whose decryption under the same key resolves with exactly the
    plaintext, and whose decryption under any other key rejects with the
    cipher's authentication error, returning no text.  When they are too
    many, encryption itself rejects with the engine's [RangeError] and
    there is no blob. *)
Theorem decrypt_inverts_encrypt {P : Primitives} {A : AEAD P}
    (text : jsstring) (key : CryptoKey) (w : World) :
  Forall code_unit text ->
  well_formed text = true ->
  head text <> Some 65279 ->
  (fits_one_call key w text ->
   exists blob,
     Encryption.encryptData text key w = (Ok blob, use_entropy 12 w)
     /\ (forall w2, Encryption.decryptData blob key w2 = (Ok text, w2))
     /\ (forall key' w2,
           key' <> key ->
           Encryption.decryptData blob key' w2
           = (Throw (DOMException (js "OperationError")), w2)))
  /\ (~ fits_one_call key w text ->
      Encryption.encryptData text key w = (Throw RangeError, use_entropy 12 w)).
Proof.
  intros Hunits Hwf Hbom. split; [|apply encryptData_rejects].
  intros Hfit.
  destruct (decryptData_encryptData text key w Hunits Hfit)
    as (blob & Hrun & Hsame & Hother).
  exists blob. split; [exact Hrun|]. split; [|exact Hother].
  intros w2. rewrite Hsame, (TextDecoder_TextEncoder text Hunits Hwf Hbom).
  reflexivity.
Qed.

Lemma decrypt_inverts_encrypt_witness :
  let text := js "{A Test}" in
  let w := sample_world [] in
  exists blob,
    Encryption.encryptData text true w = (Ok blob, use_entropy 12 w)
    /\ (forall w2, Encryption.decryptData blob true w2 = (Ok text, w2))
    /\ (forall key' w2,
          key' <> true ->
          Encryption.decryptData blob key' w2
          = (Throw (DOMException (js "OperationError")), w2)).
Proof.
  assert (H1 : Forall code_unit (js "{A Test}")) by apply js_code_units.
  assert (H2 : well_formed (js "{A Test}") = true) by (vm_compute; reflexivity).
  assert (H3 : head (js "{A Test}") <> Some 65279) by (vm_compute; congruence).
  assert (H4 : fits_one_call true (sample_world []) (js "{A Test}")).
  { unfold fits_one_call. vm_compute. repeat constructor. }
  exact (proj1 (decrypt_inverts_encrypt (A := toy_aead) (js "{A Test}") true
                  (sample_world []) H1 H2 H3) H4).
Defined.

(** C6 as stated fails: a plaintext that starts with U+FEFF comes back
    without it, and an unpaired surrogate comes back as U+FFFD. *)
Lemma decrypt_alters_some_plaintexts :
  let w := sample_world [] in
  match (Encryption.encryptData [65279; 65] true w).1 with
  | Ok blob => (Encryption.decryptData blob true w).1 = Ok [65]
  | Throw _ => False
  end
  /\ match (Encryption.encryptData [55357; 65] true w).1 with
     | Ok blob => (Encryption.decryptData blob true w).1 = Ok [65533; 65]
     | Throw _ => False
     end.
Proof. vm_compute. split; reflexivity. Qed.

(** ** What the publishing hooks put on the wire *)

Section Wire.
Import NostrService.

Lemma sent_between_nil (w w' : World) :
  wire w' = wire w -> sent_between w w' = [].
Proof. intros H. unfold sent_between. rewrite H. apply drop_all. Qed.

Lemma sent_between_app (w w' : World) (l : list NostrEvent) :
  wire w' = wire w ++ l -> sent_between w w' = l.
Proof. intros H. unfold sent_between. rewrite H. apply drop_app_length. Qed.

(** The publishing hook either rejects and leaves the world as it is, or
    resolves with the signed event, which is then the last on the wire. *)
Lemma useNostrPublish_cases (user : option User) (t : EventTemplate) (w : World) :
  (exists e, useNostrPublish user t w = (Throw e, w)
             /\ (user = None \/ relay w t = None))
  \/ (exists eid, user <> None /\ relay w t = Some eid
        /\ useNostrPublish user t w = (Ok (signed t eid), add_wire (signed t eid) w)).
Proof.
  unfold useNostrPublish, nostr_event, throw.
  destruct user as [u|]; [|left; eauto].
  destruct (relay w t) as [eid|] eqn:Hr; [right | left; eauto].
  exists eid. repeat split. discriminate.
Qed.

End Wire.

Section Hooks.
Context {P : Primitives}.
Import NostrService Encryption.

Lemma usePublishPublicReference_cases (user : option User) (r : Reference)
    (w : World) :
  (exists e, usePublishPublicReference user r w = (Throw e, w)
             /\ (user = None \/ relay w (toPublicEvent r (clock w / 1000)) = None))
  \/ (exists eid,
        user <> None
        /\ relay w (toPublicEvent r (clock w / 1000)) = Some eid
        /\ usePublishPublicReference user r w
           = (Ok (js "event:placeholder"),
              add_wire (signed (toPublicEvent r (clock w / 1000)) eid) w)).
Proof.
  unfold usePublishPublicReference, bind, now_seconds, ret.
  destruct (useNostrPublish_cases user (toPublicEvent r (clock w / 1000)) w)
    as [(e & -> & H)|(eid & Hu & Hr & ->)]; [left | right]; eauto.
Qed.

(** The private hook rejects (not logged in, too many bytes for one call,
    or the relays refuse), the world unchanged but for the vector drawn; or
    it resolves, the event on the wire holding the base64 text of the
    vector followed by the cipher's output. *)
Lemma usePublishPrivateReference_cases (user : option User) (r : Reference)
    (w : World) :
  (exists e w', usePublishPrivateReference user r w = (Throw e, w')
                /\ (w' = w \/ w' = use_entropy 12 w))
  \/ (exists u blob eid,
        user = Some u
        /\ fits_one_call (key_of u) w (JSON_stringify r)
        /\ btoa (blob_bytes (key_of u) w (JSON_stringify r)) = Some blob
        /\ relay w (toPrivateEvent r blob (clock w / 1000)) = Some eid
        /\ usePublishPrivateReference user r w
           = (Ok (js "event:placeholder:private"),
              add_wire (signed (toPrivateEvent r blob (clock w / 1000)) eid)
                       (use_entropy 12 w))).
Proof.
  unfold usePublishPrivateReference.
  destruct user as [u|];
    [|left; unfold throw; do 2 eexists; split; [reflexivity | left; reflexivity]].
  unfold deriveEncryptionKey, bind at 1, ret at 1. fold (key_of u).
  destruct (fits_one_call_dec (key_of u) w (JSON_stringify r)) as [Hfit|Hfit].
  - destruct (encryptData_resolves (JSON_stringify r) (key_of u) w Hfit)
      as (blob & Hblob & Hb).
    unfold bind, ret, now_seconds. rewrite Hb.
    change (clock (use_entropy 12 w)) with (clock w).
    destruct (useNostrPublish_cases (Some u) (toPrivateEvent r blob (clock w / 1000))
                (use_entropy 12 w)) as [(e & -> & H)|(eid & Hu & Hr & ->)].
    + left. exists e, (use_entropy 12 w). split; [reflexivity | right; reflexivity].
    + right. exists u, blob, eid. auto.
  - left. exists RangeError, (use_entropy 12 w).
    unfold bind. rewrite (encryptData_rejects _ _ _ Hfit).
    split; [reflexivity | right; reflexivity].
Qed.

Lemma useRetractReference_cases (user : option User) (r : Reference)
    (reason : jsstring) (w : World) :
  (exists e, useRetractReference user r reason w = (Throw e, w))
  \/ (exists evid eid,
        eventId r = Some evid /\ evid <> [] /\ user <> None
        /\ relay w (toRetraction evid reason (clock w / 1000)) = Some eid
        /\ useRetractReference user r reason w
           = (Ok true, add_wire (signed (toRetraction evid reason (clock w / 1000)) eid) w)).
Proof.
  unfold useRetractReference.
  destruct (eventId r) as [[|c e]|]; [left; unfold throw; eauto | | left; unfold throw; eauto].
  unfold bind, now_seconds, ret.
  destruct (useNostrPublish_cases user (toRetraction (c :: e) reason (clock w / 1000)) w)
    as [(x & -> & H)|(eid & Hu & Hr & ->)]; [left; eauto | right].
  exists (c :: e), eid. repeat split; auto.
Qed.

End Hooks.

(** C1.  The public event of a record does not depend on its notes, and is
    the only thing the public path can put on the wire.  The private path
    puts on the wire nothing, or one event of kind 50001 whose tags are the
    client-ref-id tag and the fixed type marker and whose content is the
    base64 text of the drawn vector followed by the output of AES-GCM,
    under the key derived by PBKDF2, for the UTF-8 bytes of the serialised
    record: the event is these bytes, the identifier of the record and the
    time, so that title, authors, year, doi, url and notes reach the wire
    as the input of the cipher and in no other way. *)
Theorem confidential_fields_stay_off_the_wire {P : Primitives} :
  (forall (r : Reference) (n : option jsstring) (now : Z),
     NostrService.toPublicEvent (set_notes n r) now
     = NostrService.toPublicEvent r now)
  /\ (forall (user : option User) (r : Reference) (w : World),
        let w' := (NostrService.usePublishPublicReference user r w).2 in
        sent_between w w' = []
        \/ exists eid,
             sent_between w w'
             = [signed (NostrService.toPublicEvent r (clock w / 1000)) eid])
  /\ (forall (user : option User) (r : Reference) (w : World),
        let w' := (NostrService.usePublishPrivateReference user r w).2 in
        sent_between w w' = []
        \/ exists u blob eid,
             let key :=
               pbkdf2_sha256 (TextEncoder_encode (pubkey u))
                 (TextEncoder_encode (js "KnowTation-Reference-Encryption"))
                 100000 in
             let iv :=
               map (fun i => entropy w (entropy_used w + i)%nat mod 256)
                   (seq 0 12) in
             let encrypted :=
               aes_gcm_encrypt key iv (TextEncoder_encode (JSON_stringify r)) in
             user = Some u
             /\ btoa (iv ++ map (fun b => b mod 256) encrypted) = Some blob
             /\ sent_between w w'
                = [{| ev_id := eid;
                      ev_kind := 50001;
                      ev_content := blob;
                      ev_tags := [[js "client-ref-id"; id r];
                                  [js "e-type"; js "reference"]];
                      ev_created_at := clock w / 1000 |}])
  /\ (forall (r r' : Reference) (key : CryptoKey) (iv : list Z)
             (blob blob' : jsstring) (now : Z),
        id r = id r' ->
        aes_gcm_encrypt key iv (TextEncoder_encode (JSON_stringify r))
        = aes_gcm_encrypt key iv (TextEncoder_encode (JSON_stringify r')) ->
        btoa (iv ++ Encryption.Uint8Array
                      (aes_gcm_encrypt key iv
                         (TextEncoder_encode (JSON_stringify r)))) = Some blob ->
        btoa (iv ++ Encryption.Uint8Array
                      (aes_gcm_encrypt key iv
                         (TextEncoder_encode (JSON_stringify r')))) = Some blob' ->
        NostrService.toPrivateEvent r blob now
        = NostrService.toPrivateEvent r' blob' now).
Proof.
  split; [reflexivity|]. split; [|split].
  - intros user r w.
    destruct (usePublishPublicReference_cases user r w)
      as [(e & -> & _)|(eid & _ & _ & ->)]; cbn [snd].
    + left. apply sent_between_nil. reflexivity.
    + right. exists eid. apply sent_between_app. reflexivity.
  - intros user r w.
    destruct (usePublishPrivateReference_cases user r w)
      as [(e & w1 & -> & Hw)|(u & blob & eid & Hu & _ & Hb & _ & ->)]; cbn [snd].
    + left. apply sent_between_nil. destruct Hw as [-> | ->]; reflexivity.
    + right. exists u, blob, eid. cbv zeta.
      split; [exact Hu|]. split; [exact Hb|].
      apply sent_between_app. reflexivity.
  - intros r r' key iv blob blob' now Hid Henc Hb Hb'.
    rewrite Henc, Hb' in Hb. injection Hb as <-.
    unfold NostrService.toPrivateEvent. rewrite Hid. reflexivity.
Qed.

(** ** Publishing, retracting and deleting *)

(** C3: the hooks resolve with fixed placeholder texts whatever identifier
    the relays gave the event, and the page that publishes a new record
    stores no identifier at all. *)
Theorem publish_discards_the_relay_identifier :
  let w := sample_world [] in
  let r := sample_reference in
  relay w (NostrService.toPublicEvent r (clock w / 1000)) = Some (js "ev50000")
  /\ (NostrService.usePublishPublicReference (Some alice) r w).1
     = Ok (js "event:placeholder")
  /\ map ev_id (wire (NostrService.usePublishPublicReference (Some alice) r w).2)
     = [js "ev50000"]
  /\ (NostrService.usePublishPrivateReference (Some alice) r w).1
     = Ok (js "event:placeholder:private")
  /\ map ev_id (wire (AddReference.handleSubmit (Some alice) (formOf r) w).2)
     = [js "ev50000"]
  /\ map eventId (storage (AddReference.handleSubmit (Some alice) (formOf r) w).2)
     = [None].
Proof. vm_compute. repeat split. Qed.

Section Retract.
Import NostrService ReferenceService.

Lemma set_storage_same (w : World) : set_storage (storage w) w = w.
Proof. destruct w. reflexivity. Qed.

Lemma filter_keeps_all {A} (Q : A -> Prop) `{forall x, Decision (Q x)} (l : list A) :
  length (filter Q l) = length l -> filter Q l = l.
Proof.
  induction l as [|x l IH]; [reflexivity|]. rewrite filter_cons.
  destruct (decide (Q x)); cbn [length]; intros Hl.
  - f_equal. apply IH. lia.
  - pose proof (length_filter Q l). lia.
Qed.

(** Deleting always resolves and leaves the library without the records of
    that identifier. *)
Lemma deleteReference_run (i : jsstring) (w : World) :
  exists b,
    deleteReference i w
    = (Ok b, set_storage (filter (fun ref => id ref <> i) (storage w)) w).
Proof.
  unfold deleteReference, bind, getAllReferences, saveReferences, modify, ret.
  case_bool_decide as Hlen.
  - exists false. rewrite (filter_keeps_all _ _ Hlen), set_storage_same. reflexivity.
  - exists true. reflexivity.
Qed.

End Retract.

(** C5, as amended.  Retracting a record whose eventId is absent or empty
    fails with the not-published error and sends nothing.  With an eventId,
    a logged-in user and relays that accept, it sends one deletion event
    whose only tag refers to that eventId and resolves true; otherwise it
    rejects and sends nothing.  In no case is the library written: the
    record keeps its eventId. *)
Theorem retract_refuses_or_sends (user : option User) (r : Reference)
    (reason : jsstring) (w : World) :
  match eventId r with
  | Some (c :: e) =>
    let t := NostrService.toRetraction (c :: e) reason (clock w / 1000) in
    kind t = 5 /\ etags t = [[js "e"; c :: e]] /\
    match user, relay w t with
    | Some _, Some rid =>
      NostrService.useRetractReference user r reason w
      = (Ok true, add_wire (signed t rid) w)
    | _, _ =>
      exists err, NostrService.useRetractReference user r reason w = (Throw err, w)
    end
  | _ =>
    NostrService.useRetractReference user r reason w
    = (Throw (Error (js "Cannot retract a reference that has not been published to Nostr")), w)
  end
  /\ storage (NostrService.useRetractReference user r reason w).2 = storage w.
Proof.
  unfold NostrService.useRetractReference.
  destruct (eventId r) as [[|c e]|]; [split; reflexivity | | split; reflexivity].
  cbn zeta. unfold bind, now_seconds, ret, NostrService.useNostrPublish,
    NostrService.nostr_event, throw.
  destruct user as [u|];
    [destruct (relay w _) as [rid|]|]; repeat split; eauto.
Qed.

(** C5 as stated fails: after a successful retraction the stored record
    still carries its eventId. *)
Lemma retract_keeps_event_id :
  let w := sample_world [sample_reference] in
  let done := NostrService.useRetractReference (Some alice) sample_reference
                (js "Deleted by user") w in
  done.1 = Ok true
  /\ map ev_kind (wire done.2) = [5]
  /\ map eventId (storage done.2) = [Some (js "ev50000")].
Proof. vm_compute. repeat split. Qed.

(** C10.  Deleting sends at most one event, a retraction, and only for a
    record that has an eventId and is public; deleting a private record
    leaves the wire as it is, published or not, while the library loses
    the record. *)
Theorem delete_retracts_only_published_public (id0 : option jsstring)
    (reference : option Reference) (user : option User) (w : World) :
  let w' := (ViewReference.confirmDelete id0 reference user w).2 in
  (sent_between w w' = []
   \/ exists r evid rid,
        reference = Some r /\ eventId r = Some evid /\ evid <> []
        /\ visibility r = public
        /\ sent_between w w'
           = [signed (NostrService.toRetraction evid (js "Deleted by user")
                        (clock w / 1000)) rid])
  /\ (forall r c i,
        id0 = Some (c :: i) -> reference = Some r -> visibility r = private ->
        wire w' = wire w
        /\ storage w' = filter (fun ref => id ref <> c :: i) (storage w)).
Proof.
  cbv zeta. unfold ViewReference.confirmDelete, try_catch, bind, ret, toast, modify.
  destruct id0 as [[|c i]|]; destruct reference as [r|];
    try (cbn; split; [left; apply sent_between_nil; reflexivity | intros; discriminate]).
  destruct (deleteReference_run (c :: i) w) as [b Hdel]. rewrite Hdel.
  set (w1 := set_storage _ w).
  destruct (truthy (eventId r) && bool_decide (visibility r = public)) eqn:Hcond.
  - apply andb_prop in Hcond as [He Hv]. apply bool_decide_eq_true in Hv.
    destruct (useRetractReference_cases user r (js "Deleted by user") w1)
      as [(e & Hrun)|(evid & eid & Hev & Hne & Hu & Hr & Hrun)];
      rewrite Hrun; cbn [snd]; split.
    + left. apply sent_between_nil. reflexivity.
    + intros r0 c0 i0 _ [= <-] Hp. congruence.
    + right. exists r, evid, eid. repeat split; try assumption.
      apply sent_between_app. reflexivity.
    + intros r0 c0 i0 _ [= <-] Hp. congruence.
  - cbn [snd]. split.
    + left. apply sent_between_nil. reflexivity.
    + intros r0 c0 i0 [= <- <-] [= <-] Hp. split; reflexivity.
Qed.

Lemma delete_retracts_only_published_public_witness :
  let old := set_visibility private sample_reference in
  let w := sample_world [old] in
  let w' := (ViewReference.confirmDelete (Some (js "ref1")) (Some old) (Some alice) w).2 in
  eventId old = Some (js "ev50000")
  /\ wire w' = wire w
  /\ storage w' = filter (fun ref => id ref <> js "ref1") (storage w).
Proof.
  cbv zeta. split; [reflexivity|].
  exact (proj2 (delete_retracts_only_published_public (Some (js "ref1"))
                  (Some (set_visibility private sample_reference)) (Some alice)
                  (sample_world [set_visibility private sample_reference]))
           (set_visibility private sample_reference) 114 (js "ef1")
           eq_refl eq_refl eq_refl).
Defined.

(** ** Updating a published record *)

Section Update.
Context {P : Primitives}.
Import NostrService ReferenceService Encryption.










End Update.




(** ** Identifiers in the library *)

Section Identifiers.
Import ReferenceService.
Context {P : Primitives}.







End Identifiers.




(** * More of the code: the rest of the services and the pages *)

(** ** Looking records up in the library *)

Section Lookup.
Import ReferenceService.


Lemma find_none_iff (i : jsstring) (l : list Reference) :
  find (fun ref => str_eqb (id ref) i) l = None <-> i ∉ map id l.
Proof.
  induction l as [|x l IH]; cbn [find map].
  - split; [intros _ H; inversion H | reflexivity].
  - unfold str_eqb at 1. destruct (decide (id x = i)) as [He|Hne].
    + rewrite bool_decide_eq_true_2 by exact He. split; [discriminate|].
      intros H. exfalso. apply H. rewrite He. left.
    + rewrite bool_decide_eq_false_2 by exact Hne. rewrite IH.
      rewrite not_elem_of_cons. split; [intros H; split; [congruence | exact H] | intros [_ H]; exact H].
Qed.

Lemma find_filter_ne (i j : jsstring) (l : list Reference) :
  j <> i ->
  find (fun ref => str_eqb (id ref) j) (filter (fun ref => id ref <> i) l)
  = find (fun ref => str_eqb (id ref) j) l.
Proof.
  intros Hne. induction l as [|x l IH]; [reflexivity|].
  rewrite filter_cons. cbn [find]. unfold str_eqb at 2.
  destruct (decide (id x <> i)) as [Hx|Hx].
  - cbn [find]. unfold str_eqb at 1. rewrite IH. reflexivity.
  - rewrite IH. rewrite bool_decide_eq_false_2; [reflexivity|].
    intros He. apply Hx. congruence.
Qed.

Lemma find_filter_same (i : jsstring) (l : list Reference) :
  find (fun ref => str_eqb (id ref) i) (filter (fun ref => id ref <> i) l) = None.
Proof.
  apply find_none_iff. intros H. apply list_elem_of_fmap in H as (r & -> & Hr).
  apply list_elem_of_filter in Hr as [Hr _]. congruence.
Qed.

End Lookup.

Section LookupTheorems.
Import ReferenceService.

Lemma getReference_run (i : jsstring) (w : World) :
  getReference i w = (Ok (find (fun ref => str_eqb (id ref) i) (storage w)), w).
Proof. reflexivity. Qed.



(** X2.  Deleting resolves with whether some record carried the
    identifier, removes every record that carries it and nothing else,
    sends nothing, and leaves nothing to be found under it. *)
Theorem deleted_reference_is_gone (i : jsstring) (w : World) :
  exists w1,
    deleteReference i w = (Ok (bool_decide (i ∈ map id (storage w))), w1)
    /\ storage w1 = filter (fun ref => id ref <> i) (storage w)
    /\ wire w1 = wire w
    /\ getReference i w1 = (Ok None, w1)
    /\ forall j, j <> i -> (getReference j w1).1 = (getReference j w).1.
Proof.
  exists (set_storage (filter (fun ref => id ref <> i) (storage w)) w).
  split.
  - unfold deleteReference, bind, getAllReferences, saveReferences, modify, ret.
    case_bool_decide as Hlen.
    + rewrite (filter_keeps_all _ _ Hlen), set_storage_same.
      rewrite bool_decide_eq_false_2; [reflexivity|].
      intros Hin. apply list_elem_of_fmap in Hin as (r & -> & Hr).
      rewrite <- (filter_keeps_all _ _ Hlen) in Hr.
      apply list_elem_of_filter in Hr as [Hr _]. congruence.
    + rewrite bool_decide_eq_true_2; [reflexivity|].
      destruct (decide (i ∈ map id (storage w))) as [Hin|Hnin]; [exact Hin|].
      exfalso. apply Hlen. f_equal. apply filter_all.
      apply Forall_forall. intros r Hr He. apply Hnin.
      apply list_elem_of_fmap. exists r. split; [congruence | exact Hr].
  - rewrite !getReference_run. cbn [storage set_storage wire fst].
    repeat split.
    + rewrite find_filter_same. reflexivity.
    + intros j Hj. rewrite !getReference_run. cbn [storage set_storage fst].
      f_equal. apply find_filter_ne. exact Hj.
Qed.
End LookupTheorems.

Section UpdateLookup.
Import ReferenceService.







End UpdateLookup.

(** ** Sorting, and the lists of tags and authors *)

Section Sorting.
Context {A : Type} (compare : A -> A -> Z).

Lemma sort_insert_perm (x : A) (l : list A) : sort_insert compare x l ≡ₚ x :: l.
Proof.
  induction l as [|y l IH]; [reflexivity|]. cbn [sort_insert].
  destruct (compare x y <=? 0); [reflexivity|].
  rewrite IH. apply Permutation_swap.
Qed.

Lemma sort_perm (l : list A) : sort compare l ≡ₚ l.
Proof.
  induction l as [|x l IH]; [reflexivity|]. unfold sort in *. cbn [foldr].
  rewrite sort_insert_perm, IH. reflexivity.
Qed.

(** Elements that the comparison does not tell apart keep their order. *)
Lemma sort_insert_stable (Q : A -> Prop) `{forall a, Decision (Q a)} (x : A) (l : list A) :
  (forall a b, Q a -> Q b -> compare a b <= 0) ->
  filter Q (sort_insert compare x l) = filter Q (x :: l).
Proof.
  intros HQ. induction l as [|y l IH]; [reflexivity|]. cbn [sort_insert].
  destruct (Z.leb_spec (compare x y) 0) as [Hle|Hgt]; [reflexivity|].
  rewrite filter_cons, IH, !filter_cons.
  destruct (decide (Q y)) as [Hy|Hy]; [|reflexivity].
  destruct (decide (Q x)) as [Hx|Hx]; [|reflexivity].
  specialize (HQ x y Hx Hy). lia.
Qed.

Lemma sort_stable (Q : A -> Prop) `{forall a, Decision (Q a)} (l : list A) :
  (forall a b, Q a -> Q b -> compare a b <= 0) ->
  filter Q (sort compare l) = filter Q l.
Proof.
  intros HQ. induction l as [|x l IH]; [reflexivity|]. unfold sort in *. cbn [foldr].
  rewrite sort_insert_stable by exact HQ. rewrite !filter_cons, IH. reflexivity.
Qed.

Variable before : A -> A -> Prop.
Hypothesis before_trans : forall a b c, before a b -> before b c -> before a c.

Lemma sort_insert_sorted (x : A) (l : list A) :
  (forall y, y ∈ l -> compare x y <= 0 -> before x y) ->
  (forall y, y ∈ l -> 0 < compare x y -> before y x) ->
  StronglySorted before l -> StronglySorted before (sort_insert compare x l).
Proof.
  intros Hle Hgt Hs. induction Hs as [|y l Hs IH Hy]; cbn [sort_insert].
  - repeat constructor.
  - destruct (Z.leb_spec (compare x y) 0) as [Hc|Hc].
    + constructor; [constructor; assumption|].
      assert (Hxy : before x y) by (apply Hle; [left | exact Hc]).
      constructor; [exact Hxy|].
      eapply Forall_impl; [exact Hy|]. intros z Hz. exact (before_trans _ _ _ Hxy Hz).
    + constructor.
      * apply IH; intros z Hz; [apply Hle | apply Hgt]; right; exact Hz.
      * assert (Hyx : before y x) by (apply Hgt; [left | exact Hc]).
        rewrite sort_insert_perm. constructor; assumption.
Qed.

End Sorting.

Section SortedLists.
Context {A : Type} (compare : A -> A -> Z) (before : A -> A -> Prop).

Lemma sort_sorted (l : list A) :
  (forall a b c, before a b -> before b c -> before a c) ->
  (forall x y, compare x y <= 0 -> before x y) ->
  (forall x y, 0 < compare x y -> before y x) ->
  StronglySorted before (sort compare l).
Proof.
  intros Htrans Hle Hgt. induction l as [|x l IH]; [constructor|].
  change (sort compare (x :: l)) with (sort_insert compare x (sort compare l)).
  apply sort_insert_sorted; [exact Htrans | intros y _; apply Hle | intros y _; apply Hgt | exact IH].
Qed.

End SortedLists.

Section TextOrder.

Lemma str_compare_eq (a b : jsstring) : str_compare a b = Eq <-> a = b.
Proof.
  revert b. induction a as [|x a IH]; intros [|y b]; cbn [str_compare];
    try (split; discriminate).
  { split; reflexivity. }
  destruct (Z.compare_spec x y) as [->|Hlt|Hgt].
  - rewrite IH. split; [intros ->; reflexivity | intros [= ->]; reflexivity].
  - split; [discriminate | intros [= -> _]; lia].
  - split; [discriminate | intros [= -> _]; lia].
Qed.

Lemma str_compare_antisym (a b : jsstring) :
  str_compare b a = CompOpp (str_compare a b).
Proof.
  revert b. induction a as [|x a IH]; intros [|y b]; cbn [str_compare]; try reflexivity.
  rewrite (Z.compare_antisym x y).
  destruct (x ?= y); cbn [CompOpp]; [apply IH | reflexivity | reflexivity].
Qed.

Lemma str_compare_trans (a b c : jsstring) :
  str_compare a b = Lt -> str_compare b c = Lt -> str_compare a c = Lt.
Proof.
  revert b c. induction a as [|x a IH]; intros [|y b] [|z c]; cbn [str_compare];
    try discriminate; try reflexivity.
  destruct (Z.compare_spec x y) as [->|Hxy|Hxy]; [| |discriminate].
  - destruct (Z.compare_spec y z) as [->|Hyz|Hyz]; [| |discriminate].
    + apply IH.
    + reflexivity.
  - intros _. destruct (Z.compare_spec y z) as [->|Hyz|Hyz]; [| |discriminate].
    + intros _. rewrite (proj2 (Z.compare_lt_iff x z)) by lia. reflexivity.
    + intros _. rewrite (proj2 (Z.compare_lt_iff x z)) by lia. reflexivity.
Qed.

(** Sorting duplicate-free texts with the default comparison puts them in
    strictly ascending order. *)
Lemma sort_default_ascending (l : list jsstring) :
  NoDup l ->
  StronglySorted (fun a b => str_compare a b = Lt) (sort default_compare l).
Proof.
  induction 1 as [|x l Hx Hl IH]; [constructor|].
  change (sort default_compare (x :: l))
    with (sort_insert default_compare x (sort default_compare l)).
  apply sort_insert_sorted; [exact str_compare_trans | | | exact IH].
  - intros y Hy. rewrite sort_perm in Hy. unfold default_compare.
    destruct (str_compare x y) eqn:Hc; [|reflexivity|lia].
    apply str_compare_eq in Hc. subst y. contradiction.
  - intros y Hy. unfold default_compare. rewrite (str_compare_antisym x y).
    destruct (str_compare x y); cbn [CompOpp]; [lia | lia | reflexivity].
Qed.

End TextOrder.

Section Collected.

Lemma Set_add_elem {A} `{EqDecision A} (x y : A) (set : list A) :
  y ∈ Set_add x set <-> y = x \/ y ∈ set.
Proof.
  unfold Set_add. case_bool_decide as Hin.
  - split; [right; assumption | intros [->|H]; assumption].
  - rewrite elem_of_app, list_elem_of_singleton. tauto.
Qed.

Lemma Set_add_NoDup {A} `{EqDecision A} (x : A) (set : list A) :
  NoDup set -> NoDup (Set_add x set).
Proof.
  intros Hs. unfold Set_add. case_bool_decide as Hin; [exact Hs|].
  apply NoDup_app. split; [exact Hs|]. split; [|apply NoDup_singleton].
  intros y Hy Hy'. apply list_elem_of_singleton in Hy'. subst y. contradiction.
Qed.

Lemma Set_add_all {A} `{EqDecision A} (xs : list A) : forall set : list A,
  NoDup set ->
  NoDup (foldl (fun set x => Set_add x set) set xs)
  /\ forall y, y ∈ foldl (fun set x => Set_add x set) set xs <-> y ∈ set \/ y ∈ xs.
Proof.
  induction xs as [|x xs IH]; intros set Hs; cbn [foldl].
  - split; [exact Hs|]. intros y. rewrite elem_of_nil. tauto.
  - destruct (IH (Set_add x set) (Set_add_NoDup x set Hs)) as [Hn He].
    split; [exact Hn|]. intros y. rewrite He, Set_add_elem, elem_of_cons. tauto.
Qed.

(** The set collected from a field of every record of the library. *)
Lemma collected_set (field : Reference -> list jsstring) (l : list Reference) :
  forall set : list jsstring,
  NoDup set ->
  NoDup (foldl (fun set reference =>
                  foldl (fun set x => Set_add x set) set (field reference)) set l)
  /\ forall y,
       y ∈ foldl (fun set reference =>
                    foldl (fun set x => Set_add x set) set (field reference)) set l
       <-> y ∈ set \/ exists r, r ∈ l /\ y ∈ field r.
Proof.
  induction l as [|r l IH]; intros set Hs; cbn [foldl].
  - split; [exact Hs|]. intros y. split; [left; assumption|].
    intros [H|(r & Hr & _)]; [exact H | inversion Hr].
  - destruct (Set_add_all (field r) set Hs) as [Hn He].
    destruct (IH _ Hn) as [Hn' He'].
    split; [exact Hn'|]. intros y. rewrite He', He. split.
    + intros [[H|H]|(r0 & Hr0 & Hy)]; [left; exact H | right; exists r; split; [left | exact H] |].
      right. exists r0. split; [right; exact Hr0 | exact Hy].
    + intros [H|(r0 & Hr0 & Hy)]; [left; left; exact H|].
      apply elem_of_cons in Hr0 as [->|Hr0]; [left; right; exact Hy|].
      right. exists r0. split; assumption.
Qed.

(** X5.  The lists of all tags and of all authors hold exactly the tags
    (authors) of the records of the library, each once, in strictly
    ascending order of their code units; computing them changes nothing. *)
Theorem tag_and_author_lists_are_sorted_and_complete (w : World) :
  (exists l,
     ReferenceSearch.getAllTags w = (Ok l, w)
     /\ StronglySorted (fun a b => str_compare a b = Lt) l
     /\ forall t, t ∈ l <-> exists r, r ∈ storage w /\ t ∈ tags r)
  /\ (exists l,
        ReferenceSearch.getAllAuthors w = (Ok l, w)
        /\ StronglySorted (fun a b => str_compare a b = Lt) l
        /\ forall a, a ∈ l <-> exists r, r ∈ storage w /\ a ∈ authors r).
Proof.
  split.
  - destruct (collected_set tags (storage w) [] (NoDup_nil_2 (A := jsstring))) as [Hn He].
    eexists. split; [reflexivity|]. split; [apply sort_default_ascending, Hn|].
    intros t. rewrite sort_perm, He, elem_of_nil. tauto.
  - destruct (collected_set authors (storage w) [] (NoDup_nil_2 (A := jsstring))) as [Hn He].
    eexists. split; [reflexivity|]. split; [apply sort_default_ascending, Hn|].
    intros a. rewrite sort_perm, He, elem_of_nil. tauto.
Qed.

End Collected.

(** ** Search *)

Section Search.
Context {T : Platform.Text}.
Import ReferenceSearch.

Lemma includes_elem (l : list jsstring) (x : jsstring) :
  Validators.includes l x = true <-> x ∈ l.
Proof.
  unfold Validators.includes. rewrite existsb_exists. split.
  - intros (y & Hy & He). unfold str_eqb in He. apply bool_decide_eq_true in He.
    subst y. apply list_elem_of_In. exact Hy.
  - intros Hx. exists x. split; [apply list_elem_of_In; exact Hx|].
    unfold str_eqb. apply bool_decide_eq_true. reflexivity.
Qed.

(** What a record the search keeps satisfies. *)
Lemma keeps_spec (query : jsstring) (filters : SearchFilters) (r : Reference) :
  keeps query filters r = true ->
  (query <> [] ->
   String_includes (Platform.toLowerCase query) (Platform.toLowerCase (title r)) = true
   \/ (exists a, a ∈ authors r
         /\ String_includes (Platform.toLowerCase query) (Platform.toLowerCase a) = true)
   \/ (exists j, journalOrBook r = Some j
         /\ String_includes (Platform.toLowerCase query) (Platform.toLowerCase j) = true))
  /\ (forall a l, filter_authors filters = Some (a :: l) ->
        exists wanted a0, wanted ∈ a :: l /\ a0 ∈ authors r
          /\ String_includes (Platform.toLowerCase wanted) (Platform.toLowerCase a0) = true)
  /\ (forall y, filter_year filters = Some y -> exists z, y = Int z /\ year r = Some (Int z))
  /\ (forall t l, filter_tags filters = Some (t :: l) ->
        exists tag, tag ∈ t :: l /\ tag ∈ tags r)
  /\ (forall v, filter_visibility filters = Some v -> visibility r = v).
Proof.
  unfold keeps. cbv zeta. intros H.
  match type of H with (if ?c then _ else _) = _ =>
    destruct c eqn:Hq; [discriminate|] end.
  match type of H with (if ?c then _ else _) = _ =>
    destruct c eqn:Ha; [discriminate|] end.
  match type of H with (if ?c then _ else _) = _ =>
    destruct c eqn:Hy; [discriminate|] end.
  match type of H with (if ?c then _ else _) = _ =>
    destruct c eqn:Ht; [discriminate|] end.
  match type of H with (if ?c then _ else _) = _ =>
    destruct c eqn:Hv; [discriminate|] end.
  clear H. split; [|split; [|split; [|split]]].
  - intros Hne. apply andb_false_iff in Hq as [Hq|Hq].
    { apply negb_false_iff, bool_decide_eq_true in Hq. contradiction. }
    apply negb_false_iff, orb_true_iff in Hq as [Hq|Hq].
    + apply orb_true_iff in Hq as [Hq|Hq]; [left; exact Hq|].
      right. left. apply existsb_exists in Hq as (a0 & Ha0 & Hi).
      exists a0. split; [apply list_elem_of_In; exact Ha0 | exact Hi].
    + right. right. destruct (journalOrBook r) as [j|]; [|discriminate].
      exists j. split; [reflexivity | exact Hq].
  - intros a l Heq. rewrite Heq in Ha.
    apply negb_false_iff, existsb_exists in Ha as (wanted & Hw & Hin).
    apply existsb_exists in Hin as (a0 & Ha0 & Hi).
    exists wanted, a0. repeat split;
      [apply list_elem_of_In; exact Hw | apply list_elem_of_In; exact Ha0 | exact Hi].
  - intros y Heq. rewrite Heq in Hy. apply negb_false_iff in Hy.
    destruct (year r) as [[z'|]|]; try discriminate.
    destruct y as [z|]; try discriminate. cbn [number_eqb] in Hy.
    apply Z.eqb_eq in Hy. subst z'. exists z. split; reflexivity.
  - intros t l Heq. rewrite Heq in Ht.
    apply negb_false_iff, existsb_exists in Ht as (tag & Htg & Hin).
    exists tag. split; [apply list_elem_of_In; exact Htg | apply includes_elem; exact Hin].
  - intros v Heq. rewrite Heq in Hv.
    apply negb_false_iff, bool_decide_eq_true in Hv. exact Hv.
Qed.

Lemma keeps_everything (r : Reference) : keeps [] no_filters r = true.
Proof. reflexivity. Qed.

(** X6.  A search changes nothing and resolves with records of the
    library, in the order of the library: exactly those the filter
    predicate keeps.  Each of them has the visibility, the year and one of
    the tags asked for, and holds the query in its title, an author or its
    container; the empty query without filters gives the whole library. *)
Theorem search_keeps_order_and_filters (query : jsstring) (filters : SearchFilters)
    (w : World) :
  exists l,
    searchReferences query filters w = (Ok l, w)
    /\ sublist l (storage w)
    /\ (forall r, r ∈ l ->
          (forall v, filter_visibility filters = Some v -> visibility r = v)
          /\ (forall y, filter_year filters = Some y ->
                exists z, y = Int z /\ year r = Some (Int z))
          /\ (forall t ts, filter_tags filters = Some (t :: ts) ->
                exists tag, tag ∈ t :: ts /\ tag ∈ tags r)
          /\ (query <> [] ->
              exists text,
                (text = title r \/ text ∈ authors r \/ journalOrBook r = Some text)
                /\ String_includes (Platform.toLowerCase query)
                     (Platform.toLowerCase text) = true))
    /\ (forall r, r ∈ storage w -> keeps query filters r = true -> r ∈ l)
    /\ (query = [] -> filters = no_filters -> l = storage w).
Proof.
  eexists. split; [reflexivity|]. split; [apply sublist_filter|]. split; [|split].
  - intros r Hr. apply list_elem_of_filter in Hr as [Hk _].
    destruct (keeps_spec _ _ _ Hk) as (Hq & _ & Hy & Ht & Hv).
    split; [exact Hv|]. split; [exact Hy|]. split; [exact Ht|].
    intros Hne. destruct (Hq Hne) as [H|[(a & Ha & H)|(j & Hj & H)]].
    + exists (title r). split; [left; reflexivity | exact H].
    + exists a. split; [right; left; exact Ha | exact H].
    + exists j. split; [right; right; exact Hj | exact H].
  - intros r Hr Hk. apply list_elem_of_filter. split; assumption.
  - intros -> ->. apply filter_all. apply Forall_forall. intros r _. reflexivity.
Qed.

End Search.

(** ** BibTeX export *)

Section ExportText.
Import BibTeXExport.

Lemma escape_all_app (p : Z -> bool) (a b : jsstring) :
  escape_all p (a ++ b) = escape_all p a ++ escape_all p b.
Proof. unfold escape_all. apply flat_map_app. Qed.

Lemma escapeBibTeX_single_pass (text : jsstring) :
  escapeBibTeX text
  = flat_map (fun c => if is_brace_or_backslash c || is_tex_special c
                       then [92; c] else [c]) text.
Proof.
  unfold escapeBibTeX. induction text as [|c text IH]; [reflexivity|].
  change (escape_all is_brace_or_backslash (c :: text))
    with ((if is_brace_or_backslash c then [92; c] else [c])
          ++ escape_all is_brace_or_backslash text).
  rewrite escape_all_app. cbn [flat_map]. rewrite IH. f_equal.
  assert (H92 : is_tex_special 92 = false) by reflexivity.
  destruct (is_brace_or_backslash c) eqn:Hb.
  - assert (Hc : is_tex_special c = false).
    { unfold is_brace_or_backslash in Hb. unfold is_tex_special. cbn [existsb].
      lia. }
    cbn [orb]. unfold escape_all. cbn [flat_map]. rewrite H92, Hc. reflexivity.
  - cbn [orb]. unfold escape_all. cbn [flat_map].
    destruct (is_tex_special c); reflexivity.
Qed.

(** X7.  Escaping puts one backslash before each backslash, brace,
    ampersand, percent, dollar, hash, underscore, caret and tilde, and
    leaves every other code unit as it is: the backslashes of the first
    replacement are not escaped again by the second. *)
Theorem escapeBibTeX_escapes_once (text : jsstring) :
  escapeBibTeX text
  = flat_map (fun c => if is_brace_or_backslash c || is_tex_special c
                       then [92; c] else [c]) text
  /\ length (escapeBibTeX text)
     = (length text
        + length (filter (fun c => is_brace_or_backslash c || is_tex_special c = true)
                         text))%nat
  /\ (Forall (fun c => is_brace_or_backslash c || is_tex_special c = false) text ->
      escapeBibTeX text = text).
Proof.
  split; [apply escapeBibTeX_single_pass|]. rewrite escapeBibTeX_single_pass. split.
  - induction text as [|c text IH]; [reflexivity|].
    cbn [flat_map]. rewrite filter_cons, length_app, IH.
    destruct (is_brace_or_backslash c || is_tex_special c).
    + rewrite decide_True by reflexivity. cbn [length]. lia.
    + rewrite decide_False by discriminate. cbn [length]. lia.
  - induction 1 as [|c text Hc Ht IH]; [reflexivity|].
    cbn [flat_map]. rewrite Hc, IH. reflexivity.
Qed.

Lemma drop_last_app (n : nat) (a b : jsstring) :
  (n <= length b)%nat -> drop_last n (a ++ b) = a ++ drop_last n b.
Proof.
  intros H. unfold drop_last. rewrite length_app.
  replace (length a + length b - n)%nat with (length a + (length b - n))%nat by lia.
  apply take_app_add'. reflexivity.
Qed.

Lemma if_append (c : bool) (b p : jsstring) :
  (if c then b ++ p else b) = b ++ (if c then p else []).
Proof. destruct c; [reflexivity | rewrite app_nil_r; reflexivity]. Qed.

Lemma match_year_append (o : option number) (b : jsstring) (f : number -> jsstring) :
  match o with Some y => b ++ f y | None => b end
  = b ++ match o with Some y => f y | None => [] end.
Proof. destruct o; [reflexivity | rewrite app_nil_r; reflexivity]. Qed.

Lemma match_text_append (o : option jsstring) (b : jsstring)
    (f : Z -> jsstring -> jsstring) :
  match o with Some (c :: j) => b ++ f c j | _ => b end
  = b ++ match o with Some (c :: j) => f c j | _ => [] end.
Proof. destruct o as [[|c j]|]; rewrite ?app_nil_r; reflexivity. Qed.

Section WithText.
Context {T : Platform.Text}.

(** The text of one round of the loop: what was collected, the header
    and the title line, and the optional fields, less the last comma and
    line end, closed by a brace and an empty line. *)
Lemma exportEntry_text (r : Reference) :
  exists fields,
    forall acc,
      exportEntry acc r
      = acc ++ js "@" ++ entryTypeOf r ++ js "{"
        ++ Validators.createCitationKey (authors r) (year r) (title r) ++ [44; 10]
        ++ js "  title = {" ++ escapeBibTeX (title r) ++ js "}"
        ++ drop_last 2 (44 :: 10 :: fields) ++ [10; 125; 10; 10].
Proof.
  eexists. intros acc0. unfold exportEntry. cbv zeta.
  rewrite (if_append (0 <? length (tags r))%nat).
  rewrite (match_text_append (url r)), (match_text_append (doi r)),
    (match_text_append (journalOrBook r)), (match_year_append (year r)),
    (if_append (0 <? length (authors r))%nat).
  rewrite <- !app_assoc.
  do 8 (rewrite drop_last_app
          by (rewrite ?length_app; cbn [length js list_ascii_of_string map]; lia)).
  change (js "}," ++ [10] ++ ?W) with (js "}" ++ (44 :: 10 :: W)).
  rewrite drop_last_app by (cbn [length]; lia).
  rewrite <- !app_assoc. reflexivity.
Qed.

(** An entry is added after the text collected so far, which it leaves as
    it is. *)
Lemma exportEntry_app (acc : jsstring) (r : Reference) :
  exportEntry acc r = acc ++ exportEntry [] r.
Proof.
  destruct (exportEntry_text r) as [fields H].
  rewrite (H acc), (H []). reflexivity.
Qed.

Lemma exportToBibTeX_from (acc : jsstring) (l : list Reference) :
  foldl exportEntry acc l = acc ++ exportToBibTeX l.
Proof.
  unfold exportToBibTeX. revert acc. induction l as [|r l IH]; intros acc; cbn [foldl].
  - rewrite app_nil_r. reflexivity.
  - rewrite IH, (IH (exportEntry [] r)), exportEntry_app, app_assoc. reflexivity.
Qed.

(** X8.  The export of a list is the export of its records one after the
    other; the entry of a record opens with its type, its citation key and
    the escaped title, and closes with a brace on a line of its own,
    followed by an empty line. *)
Theorem export_is_entry_by_entry (l1 l2 : list Reference) (r : Reference) :
  exportToBibTeX (l1 ++ l2) = exportToBibTeX l1 ++ exportToBibTeX l2
  /\ exists fields,
       exportToBibTeX [r]
       = js "@" ++ entryTypeOf r ++ js "{"
         ++ Validators.createCitationKey (authors r) (year r) (title r) ++ [44; 10]
         ++ js "  title = {" ++ escapeBibTeX (title r) ++ js "}"
         ++ fields ++ [10; 125; 10; 10].
Proof.
  split.
  - unfold exportToBibTeX at 1. rewrite foldl_app. apply exportToBibTeX_from.
  - destruct (exportEntry_text r) as [fields H].
    exists (drop_last 2 (44 :: 10 :: fields)).
    unfold exportToBibTeX. cbn [foldl]. rewrite (H []). reflexivity.
Qed.

End WithText.
End ExportText.

Section CitationKey.

Lemma toString_has_word (n : number) :
  exists c, c ∈ toString n /\ is_word c = true /\ is_space c = false.
Proof.
  destruct n as [z|].
  - cbn [toString]. unfold toStringRadix.
    destruct (Z.ltb_spec z 0) as [Hneg|Hpos].
    + destruct (parseInt_digits (- z) ltac:(lia)) as [_ (d & ds & Hs & Hall)].
      rewrite Hs. exists d. pose proof (Forall_inv Hall) as Hd.
      split; [right; left|]. split;
        [unfold is_word; rewrite Hd; destruct (is_upper d), (is_lower d); reflexivity
        | apply digit_is_not_space, Hd].
    + destruct (parseInt_digits z Hpos) as [_ (d & ds & Hs & Hall)].
      rewrite Hs. exists d. pose proof (Forall_inv Hall) as Hd.
      split; [left|]. split;
        [unfold is_word; rewrite Hd; destruct (is_upper d), (is_lower d); reflexivity
        | apply digit_is_not_space, Hd].
  - exists 78. split; [left|]. split; reflexivity.
Qed.

(** The year, or the letters that stand for a missing one, always give the
    key a character. *)
Lemma citation_key_not_empty (authors0 : list jsstring)
    (year0 : option number) (title0 : jsstring) :
  Validators.createCitationKey authors0 year0 title0 <> [].
Proof.
  assert (Hy : exists c, c ∈ or_else (toString <$> year0) (js "nd")
                         /\ is_word c = true /\ is_space c = false).
  { destruct year0 as [n|]; cbn [fmap option_fmap option_map or_else].
    - destruct (toString_has_word n) as (c & Hc & Hw & Hs).
      destruct (toString n) as [|c0 s0]; [inversion Hc|].
      exists c. auto.
    - exists 110. split; [left|]. split; reflexivity. }
  destruct Hy as (c & Hc & Hw & Hs).
  unfold Validators.createCitationKey. cbv zeta.
  set (lastName := match exec _ _ with Some _ => _ | None => _ end).
  set (word := or_else _ (js "untitled")).
  intros Hnil. apply (f_equal (@length Z)) in Hnil.
  unfold toLowerCase in Hnil. rewrite length_map in Hnil. cbn [length] in Hnil.
  apply length_zero_iff_nil in Hnil.
  assert (Hin : c ∈ remove_all is_space
                  (remove_all (fun c => negb (is_word c))
                     (lastName ++ or_else (toString <$> year0) (js "nd") ++ word))).
  { unfold remove_all. apply list_elem_of_filter. split; [rewrite Hs; reflexivity|].
    apply list_elem_of_filter. split; [rewrite Hw; reflexivity|].
    apply elem_of_app. right. apply elem_of_app. left. exact Hc. }
  rewrite Hnil in Hin. inversion Hin.
Qed.

(** X9.  Whatever the authors, year and title, the citation key is not
    empty and holds only lower-case letters, digits and underscores. *)
Theorem citation_key_is_a_plain_word (authors0 : list jsstring)
    (year0 : option number) (title0 : jsstring) :
  Validators.createCitationKey authors0 year0 title0 <> []
  /\ Forall (fun c => is_lower c || is_digit c || (c =? 95) = true)
       (Validators.createCitationKey authors0 year0 title0).
Proof. split; [apply citation_key_not_empty | apply citation_key_characters]. Qed.

End CitationKey.

(** ** What the patterns match *)

Section MatcherSound.
Context {R : Type}.

Lemma star_sound (g : bool) (p : Z -> bool) (k : jsstring -> option R) :
  forall (s : jsstring) (x : R),
    star g p k s = Some x ->
    exists pre s', s = pre ++ s' /\ Forall (fun c => p c = true) pre /\ k s' = Some x.
Proof.
  induction s as [|c s IH]; intros x H; cbn [star] in H.
  - exists [], []. repeat split; [constructor | exact H].
  - destruct (p c) eqn:Hp.
    + destruct g.
      * destruct (star true p k s) as [y|] eqn:Hs.
        -- injection H as <-. destruct (IH y eq_refl) as (pre & s' & -> & Hall & Hk).
           exists (c :: pre), s'. repeat split; [constructor; assumption | exact Hk].
        -- exists [], (c :: s). repeat split; [constructor | exact H].
      * destruct (k (c :: s)) as [y|] eqn:Hk.
        -- injection H as <-. exists [], (c :: s). repeat split; [constructor | exact Hk].
        -- destruct (IH x H) as (pre & s' & -> & Hall & Hk').
           exists (c :: pre), s'. repeat split; [constructor; assumption | exact Hk'].
    + exists [], (c :: s). repeat split; [constructor | exact H].
Qed.

(** A match the matcher finds is a match of the pattern. *)
Lemma rmatch_sound (r : regex) :
  forall (s : jsstring) (caps : captures) (k : jsstring -> captures -> option R) (x : R),
    rmatch r s caps k = Some x ->
    exists s' caps', derives r s s' /\ k s' caps' = Some x.
Proof.
  induction r as [| p | g p | a IHa b IHb | a IHa b IHb | i a IHa |];
    intros s caps k x H; cbn [rmatch derives] in *.
  - exists s, caps. split; [reflexivity | exact H].
  - destruct s as [|c s]; [discriminate|].
    destruct (p c) eqn:Hp; [|discriminate].
    exists s, caps. split; [exists c; split; [reflexivity | exact Hp] | exact H].
  - destruct (star_sound g p _ s x H) as (pre & s' & -> & Hall & Hk).
    exists s', caps. split; [exists pre; split; [reflexivity | exact Hall] | exact Hk].
  - destruct (IHa _ _ _ _ H) as (s1 & caps1 & H1 & Hk1).
    destruct (IHb _ _ _ _ Hk1) as (s2 & caps2 & H2 & Hk2).
    exists s2, caps2. split; [exists s1; split; assumption | exact Hk2].
  - destruct (rmatch a s caps k) as [y|] eqn:Ha.
    + injection H as <-. destruct (IHa _ _ _ _ Ha) as (s1 & caps1 & H1 & Hk1).
      exists s1, caps1. split; [left; exact H1 | exact Hk1].
    + destruct (IHb _ _ _ _ H) as (s1 & caps1 & H1 & Hk1).
      exists s1, caps1. split; [right; exact H1 | exact Hk1].
  - destruct (IHa _ _ _ _ H) as (s1 & caps1 & H1 & Hk1).
    eexists s1, _. split; [exact H1 | exact Hk1].
  - destruct s; [|discriminate].
    exists [], caps. split; [split; reflexivity | exact H].
Qed.

(** A greedy repetition takes every code unit of the class when what
    follows then matches. *)
Lemma star_greedy_all (p : Z -> bool) (k : jsstring -> option R)
    (pre s : jsstring) (x : R) :
  Forall (fun c => p c = true) pre -> k s = Some x ->
  exists y, star true p k (pre ++ s) = Some y.
Proof.
  intros Hall Hk. induction Hall as [|c pre Hc Hall IH]; cbn [app].
  - destruct s as [|c s]; cbn [star]; [eauto|].
    destruct (p c); [|eauto].
    destruct (star true p k s); eauto.
  - cbn [star]. rewrite Hc. destruct IH as [y ->]. eauto.
Qed.

Lemma rmatch_Exactly (n : nat) (p : Z -> bool) :
  forall (pre s : jsstring) (caps : captures) (k : jsstring -> captures -> option R),
    length pre = n -> Forall (fun c => p c = true) pre ->
    rmatch (Exactly n p) (pre ++ s) caps k = k s caps.
Proof.
  unfold Exactly. induction n as [|n IH]; intros pre s caps k Hl Hall.
  - destruct pre; [reflexivity | discriminate].
  - destruct pre as [|c pre]; [discriminate|].
    apply Forall_cons in Hall as [Hc Hall].
    cbn [replicate seq_of foldr rmatch app]. rewrite Hc.
    apply IH; [cbn [length] in Hl; lia | exact Hall].
Qed.

Lemma rmatch_AtMost (n : nat) (p : Z -> bool) :
  forall (pre s : jsstring) (caps : captures) (k : jsstring -> captures -> option R) (x : R),
    (length pre <= n)%nat -> Forall (fun c => p c = true) pre ->
    k s caps = Some x ->
    exists y, rmatch (AtMost n p) (pre ++ s) caps k = Some y.
Proof.
  induction n as [|n IH]; intros pre s caps k x Hl Hall Hk.
  - destruct pre; [|cbn [length] in Hl; lia]. cbn. eauto.
  - destruct pre as [|c pre]; cbn [AtMost rmatch app].
    + destruct s as [|c s]; [eauto|].
      destruct (p c); [|eauto].
      destruct (rmatch (AtMost n p) s caps k); eauto.
    + apply Forall_cons in Hall as [Hc Hall]. rewrite Hc.
      destruct (IH pre s caps k x ltac:(cbn [length] in Hl; lia) Hall Hk) as [y ->].
      eauto.
Qed.

End MatcherSound.

Lemma derives_Exactly (n : nat) (p : Z -> bool) (s s' : jsstring) :
  derives (Exactly n p) s s' ->
  exists pre, s = pre ++ s' /\ length pre = n /\ Forall (fun c => p c = true) pre.
Proof.
  unfold Exactly. revert s. induction n as [|n IH]; intros s H; cbn in H.
  - exists []. subst. repeat split. constructor.
  - destruct H as (m & (c & -> & Hc) & Hm).
    destruct (IH m Hm) as (pre & -> & Hl & Hall).
    exists (c :: pre). repeat split; [cbn [length]; lia | constructor; assumption].
Qed.

Lemma derives_AtMost (n : nat) (p : Z -> bool) (s s' : jsstring) :
  derives (AtMost n p) s s' ->
  exists pre, s = pre ++ s' /\ (length pre <= n)%nat /\ Forall (fun c => p c = true) pre.
Proof.
  revert s. induction n as [|n IH]; intros s H; cbn in H.
  - exists []. subst. repeat split; [cbn [length]; lia | constructor].
  - destruct H as [(m & (c & -> & Hc) & Hm)|H].
    + destruct (IH m Hm) as (pre & -> & Hl & Hall).
      exists (c :: pre). repeat split; [cbn [length]; lia | constructor; assumption].
    + exists []. subst. repeat split; [cbn [length]; lia | constructor].
Qed.

Section Doi.
Import Validators.

(** X10.  The DOI pattern of the schema accepts exactly the texts made of
    [10.], four to nine digits, a slash, and one or more of the letters,
    digits and punctuation marks of its class. *)
Theorem doi_pattern_accepts_exactly (val : jsstring) :
  test_anchored doiRegex val = true
  <-> exists digits suffix,
        val = js "10." ++ digits ++ js "/" ++ suffix
        /\ (4 <= length digits <= 9)%nat
        /\ Forall (fun c => is_digit c = true) digits
        /\ suffix <> []
        /\ Forall (fun c => doi_char c = true) suffix.
Proof.
  unfold test_anchored, match_at. split.
  - destruct (rmatch doiRegex val ∅ _) as [m|] eqn:Hm; [intros _|discriminate].
    apply rmatch_sound in Hm as (s' & caps' & Hd & _).
    unfold doiRegex in Hd. cbn [seq_of foldr derives] in Hd.
    destruct Hd as (s1 & (c1 & -> & H1) & s2 & (c2 & -> & H2) & s3 & (c3 & -> & H3)
                    & s4 & Hfour & s5 & Hmost & s6 & (c6 & -> & H6) & s7 & Hplus
                    & s8 & [-> ->] & ->).
    apply derives_Exactly in Hfour as (d4 & -> & Hl4 & Hall4).
    apply derives_AtMost in Hmost as (d5 & -> & Hl5 & Hall5).
    unfold Plus in Hplus. cbn [derives] in Hplus.
    destruct Hplus as (s9 & (c9 & -> & H9) & pre & -> & Hpre).
    unfold is_char in *.
    apply Z.eqb_eq in H1, H2, H3, H6. subst c1 c2 c3 c6.
    exists (d4 ++ d5), (c9 :: pre ++ []).
    split; [cbn; rewrite <- app_assoc; reflexivity|].
    split; [rewrite length_app; lia|].
    split; [apply Forall_app; split; assumption|].
    split; [discriminate|].
    rewrite app_nil_r. constructor; assumption.
  - intros (digits & suffix & -> & Hl & Hd & Hne & Hs).
    destruct suffix as [|c suffix]; [congruence|].
    apply Forall_cons in Hs as [Hc Hs].
    assert (Hsplit : digits = take 4 digits ++ drop 4 digits) by (symmetry; apply take_drop).
    assert (H4 : Forall (fun c => is_digit c = true) (take 4 digits))
      by (apply Forall_take; exact Hd).
    assert (H5 : Forall (fun c => is_digit c = true) (drop 4 digits))
      by (apply Forall_drop; exact Hd).
    assert (Hl4 : length (take 4 digits) = 4%nat) by (rewrite length_take; lia).
    assert (Hl5 : (length (drop 4 digits) <= 5)%nat) by (rewrite length_drop; lia).
    set (d4 := take 4 digits) in *. set (d5 := drop 4 digits) in *.
    rewrite Hsplit. clearbody d4 d5.
    unfold doiRegex. cbn [seq_of foldr]. cbn [rmatch js list_ascii_of_string map app].
    change (is_char 49 (Z.of_N (N_of_ascii "1"))) with true.
    change (is_char 48 (Z.of_N (N_of_ascii "0"))) with true.
    change (is_char 46 (Z.of_N (N_of_ascii "."))) with true.
    cbv iota. rewrite <- app_assoc. rewrite rmatch_Exactly by assumption.
    match goal with
    | |- (if rmatch _ _ _ ?k0 is Some _ then _ else _) = _ => set (k := k0)
    end.
    assert (Hk : exists x, k (Z.of_N (N_of_ascii "/") :: c :: suffix) ∅ = Some x).
    { subst k. cbv beta iota.
      change (is_char 47 (Z.of_N (N_of_ascii "/"))) with true. cbv iota.
      unfold Plus. cbn [rmatch]. rewrite Hc.
      rewrite <- (app_nil_r suffix).
      match goal with
      | |- exists x, star true doi_char ?k0 _ = _ =>
        destruct (star_greedy_all doi_char k0 suffix [] (∅, []) Hs eq_refl) as [z Hz]
      end.
      exists z. exact Hz. }
    destruct Hk as [x Hk].
    destruct (rmatch_AtMost 5 is_digit d5 _ ∅ k x Hl5 H5 Hk) as [y Hy].
    rewrite Hy. reflexivity.
Qed.

End Doi.

(** ** The pages: adding and editing *)

Section Pages.
Context {P : Primitives}.
Import NostrService.



End Pages.

Section Frames.
Context {P : Primitives}.
Import NostrService.








End Frames.

(** ** The pages: deleting *)

Section Deleting.
Import NostrService ReferenceService.

Lemma useRetractReference_fails (user : option User) (r : Reference)
    (reason : jsstring) (w : World) :
  user = None \/ (forall t, relay w t = None) ->
  exists e, useRetractReference user r reason w = (Throw e, w).
Proof.
  intros H. unfold useRetractReference.
  destruct (eventId r) as [[|c e]|]; [unfold throw; eauto | | unfold throw; eauto].
  unfold bind, now_seconds, ret, useNostrPublish, nostr_event, throw.
  destruct H as [->|H]; [eauto|].
  destruct user; [rewrite H|]; eauto.
Qed.

(** X13.  Deleting a published public record while logged out, or while the
    relays refuse, removes the record from the library and then reports an
    error: the retraction is attempted after the local deletion. *)
Theorem delete_reports_failure_after_removing (c : Z) (i : jsstring)
    (r : Reference) (user : option User) (w : World) :
  truthy (eventId r) = true -> visibility r = public ->
  user = None \/ (forall t, relay w t = None) ->
  let w' := (ViewReference.confirmDelete (Some (c :: i)) (Some r) user w).2 in
  storage w' = filter (fun ref => id ref <> c :: i) (storage w)
  /\ wire w' = wire w
  /\ toasts w' = toasts w ++ [js "Error"].
Proof.
  intros He Hv Hfail. cbv zeta.
  assert (Hrun : ViewReference.confirmDelete (Some (c :: i)) (Some r) user w
                 = (Ok tt, add_toast (js "Error")
                             (set_storage (filter (fun ref => id ref <> c :: i)
                                             (storage w)) w))).
  { unfold ViewReference.confirmDelete, try_catch. unfold bind at 1.
    destruct (deleteReference_run (c :: i) w) as [b Hdel]. rewrite Hdel.
    set (w1 := set_storage _ w).
    rewrite He, Hv, bool_decide_eq_true_2 by reflexivity. cbn [andb].
    destruct (useRetractReference_fails user r (js "Deleted by user") w1 Hfail)
      as [e Hr].
    unfold bind. rewrite Hr. reflexivity. }
  rewrite Hrun. split; [reflexivity|]. split; reflexivity.
Qed.

Lemma delete_reports_failure_after_removing_witness :
  let w := sample_world [sample_reference] in
  let w' := (ViewReference.confirmDelete (Some (js "ref1")) (Some sample_reference)
               None w).2 in
  storage w' = filter (fun ref => id ref <> js "ref1") (storage w)
  /\ wire w' = wire w
  /\ toasts w' = toasts w ++ [js "Error"].
Proof.
  exact (delete_reports_failure_after_removing 114 (js "ef1") sample_reference None
           (sample_world [sample_reference]) eq_refl eq_refl (or_introl eq_refl)).
Defined.

Lemma deleteEach_run (refs : list Reference) : forall w,
  Settings.deleteEach refs w
  = (Ok tt, set_storage (filter (fun ref => id ref ∉ map id refs) (storage w)) w).
Proof.
  induction refs as [|r refs IH]; intros w.
  - cbn [Settings.deleteEach map]. unfold ret. rewrite filter_all, set_storage_same;
      [reflexivity|]. apply Forall_forall. intros x _ Hx. inversion Hx.
  - cbn [Settings.deleteEach]. unfold bind.
    destruct (deleteReference_run (id r) w) as [b ->]. rewrite IH.
    f_equal. cbn [storage set_storage map]. unfold set_storage. cbn.
    f_equal. rewrite list_filter_filter. apply list_filter_iff.
    intros x. rewrite not_elem_of_cons. tauto.
Qed.

Lemma filter_none {A} (Q : A -> Prop) `{forall x, Decision (Q x)} (l : list A) :
  Forall (fun x => ~ Q x) l -> filter Q l = [].
Proof.
  induction 1 as [|x l Hx Hl IH]; [reflexivity|].
  rewrite filter_cons, decide_False by exact Hx. exact IH.
Qed.

(** X14.  Deleting all references removes from the library the records
    whose identifiers the page holds (all of them, when the page holds the
    library) and sends no retraction, published or not. *)
Theorem delete_all_sends_no_retraction (refs : list Reference) (w : World) :
  exists w',
    Settings.confirmDeleteAll refs w = (Ok [], w')
    /\ storage w' = filter (fun ref => id ref ∉ map id refs) (storage w)
    /\ wire w' = wire w
    /\ toasts w' = toasts w ++ [js "References Deleted"]
    /\ (refs = storage w -> storage w' = []).
Proof.
  eexists. unfold Settings.confirmDeleteAll, try_catch, bind.
  rewrite deleteEach_run. unfold toast, modify, ret.
  split; [reflexivity|]. cbn [storage wire toasts add_toast set_storage].
  split; [reflexivity|]. split; [reflexivity|]. split; [reflexivity|].
  intros ->. apply filter_none. apply Forall_forall. intros x Hx Hn.
  apply Hn. apply list_elem_of_fmap. exists x. split; [reflexivity | exact Hx].
Qed.

End Deleting.

Section DashboardDelete.
Context {T : Platform.Text}.
Import Dashboard NostrService.

Lemma loadReferences_run (st : State) (w : World) :
  loadReferences st w
  = (Ok (set_references
           (sortReferences
              (filter (fun r => ReferenceSearch.keeps (searchQuery st)
                                  (search_filters (filters st)) r = true)
                      (storage w))
              (sortOrder st))
           false st), w).
Proof. reflexivity. Qed.

(** X16.  Deleting from the dashboard removes the records with the
    identifier of the chosen one, closes the dialog, and sends a retraction
    only for a public record with an event identifier.  When nothing fails
    the list shown is searched and sorted anew from the library; when the
    retraction fails the list stays as it was, the record still in it. *)
Theorem dashboard_delete_retracts_only_published_public (user : option User)
    (st : State) (w : World) :
  match referenceToDelete st with
  | None => confirmDelete user st w = (Ok st, w)
  | Some r =>
    exists st' w',
      confirmDelete user st w = (Ok st', w')
      /\ storage w' = filter (fun ref => id ref <> id r) (storage w)
      /\ deleteDialogOpen st' = false /\ referenceToDelete st' = None
      /\ (sent_between w w' = []
          \/ exists evid rid,
               eventId r = Some evid /\ evid <> [] /\ visibility r = public
               /\ sent_between w w'
                  = [signed (toRetraction evid (js "Deleted by user")
                               (clock w / 1000)) rid])
      /\ ((toasts w' = toasts w ++ [js "Success"]
           /\ references st'
              = sortReferences
                  (filter (fun x => ReferenceSearch.keeps (searchQuery st)
                                      (search_filters (filters st)) x = true)
                          (storage w'))
                  (sortOrder st))
          \/ (toasts w' = toasts w ++ [js "Error"]
              /\ references st' = references st
              /\ truthy (eventId r) = true /\ visibility r = public))
  end.
Proof.
  unfold confirmDelete. destruct (referenceToDelete st) as [r|]; [|reflexivity].
  unfold try_catch. unfold bind at 1. unfold bind at 1.
  destruct (deleteReference_run (id r) w) as [b Hdel]. rewrite Hdel.
  set (w1 := set_storage _ w).
  destruct (truthy (eventId r) && bool_decide (visibility r = public)) eqn:Hcond.
  - apply andb_prop in Hcond as [He Hv]. apply bool_decide_eq_true in Hv.
    destruct (useRetractReference_cases user r (js "Deleted by user") w1)
      as [(e & Hrun)|(evid & eid & Hev & Hne & Hu & Hr & Hrun)].
    + unfold bind. rewrite Hrun. unfold toast, modify, ret.
      eexists _, _. split; [reflexivity|]. cbn [storage add_toast].
      split; [reflexivity|]. split; [reflexivity|]. split; [reflexivity|].
      split; [left; apply sent_between_nil; reflexivity|].
      right. repeat split; assumption.
    + unfold bind. rewrite Hrun. cbv beta iota. unfold ret at 1. cbv beta iota.
      rewrite loadReferences_run. unfold toast, modify, ret.
      eexists _, _. split; [reflexivity|]. cbn [storage add_toast add_wire].
      split; [reflexivity|]. split; [reflexivity|]. split; [reflexivity|].
      split.
      * right. exists evid, eid. repeat split; try assumption.
        apply sent_between_app. reflexivity.
      * left. split; reflexivity.
  - unfold bind. unfold ret at 1. cbv beta iota. rewrite loadReferences_run.
    unfold toast, modify, ret.
    eexists _, _. split; [reflexivity|]. cbn [storage add_toast].
    split; [reflexivity|]. split; [reflexivity|]. split; [reflexivity|].
    split; [left; apply sent_between_nil; reflexivity|].
    left. split; reflexivity.
Qed.

End DashboardDelete.

(** ** The dashboard's list *)

Section DashboardPage.
Context {T : Platform.Text}.
Import Dashboard.

(** X15.  Sorting the dashboard's list keeps its records; by newest the
    creation times descend, by oldest they ascend, and records created at
    the same time keep their order. *)
Theorem dashboard_sort_orders_by_creation_time (refs : list Reference) :
  (forall order, sortReferences refs order ≡ₚ refs)
  /\ StronglySorted (fun a b => createdAt b <= createdAt a) (sortReferences refs newest)
  /\ StronglySorted (fun a b => createdAt a <= createdAt b) (sortReferences refs oldest)
  /\ (forall order t,
        order <> by_title ->
        filter (fun r => createdAt r = t) (sortReferences refs order)
        = filter (fun r => createdAt r = t) refs).
Proof.
  split; [intros order; apply sort_perm|]. split; [|split].
  - apply sort_sorted; intros; lia.
  - apply sort_sorted; intros; lia.
  - intros order t Ho. apply sort_stable. intros a b Ha Hb.
    destruct order; [lia | lia | congruence].
Qed.

End DashboardPage.

(** ** The reference form *)

Section Trimming.

Lemma trimStart_fixed (s : jsstring) :
  match s with c :: _ => is_space c = false | [] => True end -> trimStart s = s.
Proof. destruct s as [|c s]; [reflexivity|]. cbn [trimStart]. intros ->. reflexivity. Qed.

Lemma trimStart_head (s : jsstring) :
  match trimStart s with c :: _ => is_space c = false | [] => True end.
Proof.
  induction s as [|c s IH]; [exact I|]. cbn [trimStart].
  destruct (is_space c) eqn:Hc; [exact IH | exact Hc].
Qed.

Lemma trimStart_idem (s : jsstring) : trimStart (trimStart s) = trimStart s.
Proof. apply trimStart_fixed, trimStart_head. Qed.

Lemma trimStart_snoc (l : jsstring) (c : Z) :
  is_space c = false -> exists l', trimStart (l ++ [c]) = l' ++ [c].
Proof.
  intros Hc. induction l as [|x l IH]; cbn [app trimStart].
  - rewrite Hc. exists []. reflexivity.
  - destruct (is_space x); [exact IH|]. exists (x :: l). reflexivity.
Qed.

Lemma trimEnd_head (s : jsstring) :
  match s with c :: _ => is_space c = false | [] => True end ->
  match trimEnd s with c :: _ => is_space c = false | [] => True end.
Proof.
  destruct s as [|c s]; [intros _; exact I|]. intros Hc. unfold trimEnd.
  cbn [rev]. destruct (trimStart_snoc (rev s) c Hc) as [l' ->].
  rewrite rev_app_distr. cbn [rev app]. exact Hc.
Qed.

Lemma trimEnd_idem (s : jsstring) : trimEnd (trimEnd s) = trimEnd s.
Proof. unfold trimEnd. rewrite rev_involutive, trimStart_idem. reflexivity. Qed.

(** Trimming a trimmed text changes nothing. *)
Lemma trim_idem (s : jsstring) : trim (trim s) = trim s.
Proof.
  unfold trim. rewrite (trimStart_fixed (trimEnd (trimStart s))).
  - apply trimEnd_idem.
  - apply trimEnd_head, trimStart_head.
Qed.

End Trimming.

Section Form.
Import ReferenceForm.

(** X17.  The tags of the form stay pairwise distinct, non-blank and
    trimmed: adding the typed tag either changes nothing or appends the
    trimmed text and clears the input; removing a tag removes it and only
    it. *)
Theorem form_keeps_its_tags_tidy (st : State) (tag : jsstring) :
  tidy_tags (st_tags st) ->
  tidy_tags (st_tags (addTag st))
  /\ (st_tags (addTag st) = st_tags st
      \/ st_tags (addTag st) = st_tags st ++ [trim (st_tagInput st)]
         /\ st_tagInput (addTag st) = [])
  /\ tidy_tags (st_tags (removeTag tag st))
  /\ (tag ∉ st_tags (removeTag tag st))
  /\ (forall t, t <> tag -> t ∈ st_tags st -> t ∈ st_tags (removeTag tag st))
  /\ f_tags (values (removeTag tag st)) = st_tags (removeTag tag st).
Proof.
  intros [Hnd Hall]. split; [|split; [|split; [|split; [|split]]]].
  - unfold addTag.
    destruct (negb (bool_decide (trim (st_tagInput st) = []))
              && negb (Validators.includes (st_tags st) (trim (st_tagInput st))))
      eqn:Hc; [|split; assumption].
    apply andb_prop in Hc as [Hne Hnew].
    apply negb_true_iff, bool_decide_eq_false in Hne.
    apply negb_true_iff in Hnew.
    assert (Hnotin : trim (st_tagInput st) ∉ st_tags st).
    { intros Hin. apply includes_elem in Hin. congruence. }
    cbn [st_tags]. split.
    + apply NoDup_app. split; [exact Hnd|]. split; [|apply NoDup_singleton].
      intros x Hx Hx'. apply list_elem_of_singleton in Hx'. subst x. contradiction.
    + apply Forall_app. split; [exact Hall|]. constructor; [|constructor].
      split; [exact Hne | apply trim_idem].
  - unfold addTag. destruct (negb _ && negb _); [right; split; reflexivity | left; reflexivity].
  - cbn [removeTag st_tags]. split.
    + apply NoDup_filter, Hnd.
    + apply Forall_forall. intros x Hx. apply list_elem_of_filter in Hx as [_ Hx].
      rewrite Forall_forall in Hall. apply Hall, Hx.
  - cbn [removeTag st_tags]. intros Hin. apply list_elem_of_filter in Hin as [Hne _].
    congruence.
  - intros t Hne Hin. cbn [removeTag st_tags]. apply list_elem_of_filter. split; assumption.
  - reflexivity.
Qed.

Lemma form_keeps_its_tags_tidy_witness :
  let st := setTagInput (js " history ") (init None) in
  tidy_tags (st_tags st)
  /\ tidy_tags (st_tags (addTag st))
  /\ st_tags (addTag st) = [js "history"]
  /\ (js "history" ∉ st_tags (removeTag (js "history") (addTag st))).
Proof.
  cbv zeta.
  assert (H0 : tidy_tags (st_tags (setTagInput (js " history ") (init None)))).
  { split; [apply NoDup_nil_2 | constructor]. }
  split; [exact H0|].
  pose proof (form_keeps_its_tags_tidy (setTagInput (js " history ") (init None))
                (js "history") H0) as (H1 & _).
  split; [exact H1|]. split; [vm_compute; reflexivity|].
  assert (H2 : tidy_tags (st_tags (addTag (setTagInput (js " history ") (init None)))))
    by exact H1.
  exact (proj1 (proj2 (proj2 (proj2
           (form_keeps_its_tags_tidy (addTag (setTagInput (js " history ") (init None)))
              (js "history") H2))))).
Defined.

(** X18.  When the values of the form pass the schema, the data handed on
    carry the non-blank authors of the author inputs and the tags of the
    tag list.  If every author input is blank the data handed on have no
    author at all, and would not pass the schema themselves. *)
Theorem blank_authors_pass_the_schema_and_are_dropped (url_ok : jsstring -> bool)
    (this_year : Z) (st : State) :
  Validators.referenceSchema url_ok this_year (values st) = true ->
  exists d,
    submit url_ok this_year st = Some d
    /\ f_authors d = filter (fun a => trim a <> []) (st_authors st)
    /\ f_tags d = st_tags st
    /\ f_title d = f_title (values st)
    /\ (Forall (fun a => trim a = []) (st_authors st) ->
        f_authors d = []
        /\ Validators.referenceSchema url_ok this_year d = false).
Proof.
  intros Hv. unfold submit. rewrite Hv. eexists. split; [reflexivity|].
  cbn [handleSubmit f_authors f_tags f_title].
  split; [reflexivity|]. split; [reflexivity|]. split; [reflexivity|].
  intros Hblank.
  assert (Hnil : filter (fun a => trim a <> []) (st_authors st) = []).
  { apply filter_none. eapply Forall_impl; [exact Hblank|]. intros a Ha Hn. congruence. }
  split; [exact Hnil|].
  unfold Validators.referenceSchema. cbn [handleSubmit f_title f_authors]. rewrite Hnil.
  rewrite (bool_decide_eq_true_2 (@nil jsstring = [])) by reflexivity.
  cbn [negb]. rewrite andb_false_r. reflexivity.
Qed.

Lemma blank_authors_pass_the_schema_and_are_dropped_witness :
  let st := {| values := {| f_title := js "A Test"; f_authors := [js " "];
                            f_year := None; f_journalOrBook := Some [];
                            f_doi := Some []; f_url := Some []; f_tags := [];
                            f_notes := Some []; f_visibility := private |};
               st_authors := [js " "]; st_tagInput := []; st_tags := [] |} in
  Validators.referenceSchema (fun _ => true) 2025 (values st) = true
  /\ exists d,
       submit (fun _ => true) 2025 st = Some d
       /\ f_authors d = filter (fun a => trim a <> []) (st_authors st)
       /\ f_tags d = st_tags st
       /\ f_title d = f_title (values st)
       /\ (Forall (fun a => trim a = []) (st_authors st) ->
           f_authors d = []
           /\ Validators.referenceSchema (fun _ => true) 2025 d = false).
Proof.
  cbv zeta. split; [vm_compute; reflexivity|].
  apply (blank_authors_pass_the_schema_and_are_dropped (fun _ => true) 2025).
  vm_compute. reflexivity.
Defined.

End Form.

(** ** Importing *)

Section Importing.
Import ImportPreview.

Lemma match_at_entry_needs_at (s : jsstring) :
  match s with c :: _ => c <> 64 | [] => True end ->
  match_at BibTeX.entryRegex s = None.
Proof.
  unfold match_at, BibTeX.entryRegex. cbn [seq_of foldr rmatch].
  destruct s as [|c s]; [reflexivity|]. intros Hc. unfold is_char.
  replace (c =? 64) with false by lia. reflexivity.
Qed.

(** A text without an at sign holds no entry. *)
Lemma parseBibTeX_needs_at (now : Z) (s : jsstring) :
  64 ∉ s -> BibTeX.parseBibTeX now s = [].
Proof.
  intros Hs. unfold BibTeX.parseBibTeX, exec_all.
  assert (He : exec BibTeX.entryRegex s = None).
  { induction s as [|c s IH]; cbn [exec].
    - rewrite match_at_entry_needs_at by exact I. reflexivity.
    - apply not_elem_of_cons in Hs as [Hc Hs].
      rewrite match_at_entry_needs_at by congruence. apply IH, Hs. }
  cbn [exec_loop length]. rewrite He. reflexivity.
Qed.

(** Every record the parser builds is private and unpublished, without
    tags or notes. *)
Lemma parseBibTeX_records (now : Z) (s : jsstring) :
  Forall (fun r => visibility r = private /\ eventId r = None /\ tags r = []
                   /\ notes r = None /\ createdAt r = now)
         (BibTeX.parseBibTeX now s).
Proof.
  unfold BibTeX.parseBibTeX. apply List.Forall_map, Forall_forall. intros m _.
  repeat split.
Qed.

(** X19.  Parsing for the preview shows one toast and touches neither the
    library nor the wire.  A blank input, and an input without an at sign,
    leave the page as it is; otherwise the page either stays as it is or
    moves to the preview with the parsed records, all private and
    unpublished. *)
Theorem parsing_for_the_preview_stores_nothing (st : State) (w : World) :
  exists st' t,
    handleParse st w = (Ok st', add_toast t w)
    /\ (trim (bibtexInput st) = [] -> st' = st /\ t = js "Empty Input")
    /\ (trim (bibtexInput st) <> [] -> 64 ∉ bibtexInput st ->
        st' = st /\ t = js "No References Found")
    /\ (st' = st
        \/ t = js "BibTeX Parsed" /\ parseStep st' = preview
           /\ parsedReferences st' = BibTeX.parseBibTeX (clock w / 1000) (bibtexInput st)
           /\ parsedReferences st' <> []
           /\ Forall (fun r => visibility r = private /\ eventId r = None)
                     (parsedReferences st')).
Proof.
  unfold handleParse. case_bool_decide as Hblank.
  - exists st, (js "Empty Input"). split; [reflexivity|].
    split; [intros _; split; reflexivity|]. split; [congruence | left; reflexivity].
  - unfold try_catch, bind, now_seconds.
    destruct (BibTeX.parseBibTeX (clock w / 1000) (bibtexInput st)) as [|r l] eqn:Hp.
    + exists st, (js "No References Found"). split; [reflexivity|].
      split; [congruence|]. split; [intros _ _; split; reflexivity | left; reflexivity].
    + eexists _, (js "BibTeX Parsed"). split; [reflexivity|].
      split; [congruence|]. split.
      * intros _ Hat. rewrite (parseBibTeX_needs_at _ _ Hat) in Hp. discriminate.
      * right. cbn [parseStep parsedReferences]. repeat split; [discriminate|].
        rewrite <- Hp. eapply Forall_impl; [apply parseBibTeX_records|].
        intros x (Hv & He & _). split; assumption.
Qed.

End Importing.

Section ImportingAll.
Context {P : Primitives}.
Import ReferenceService.




End ImportingAll.

(** ** Private events and the year tag *)

Section PrivateEvents.
Context {P : Primitives} {A : AEAD P}.
Import NostrService Encryption.

(** X21.  With a cipher that meets its guarantees and a serialisation
    that is well-formed text, the content of the event the private path
    sends decrypts to the serialised record under the key derived from the
    author's public key alone, and under no other key. *)
Theorem private_event_opens_with_the_public_key (u : User) (r : Reference)
    (w : World) :
  Forall code_unit (JSON_stringify r) ->
  well_formed (JSON_stringify r) = true ->
  head (JSON_stringify r) <> Some 65279 ->
  let w' := (usePublishPrivateReference (Some u) r w).2 in
  sent_between w w' = []
  \/ exists e,
       sent_between w w' = [e]
       /\ (forall w2,
             (let* key := deriveEncryptionKey (pubkey u) in
              decryptData (ev_content e) key) w2
             = (Ok (JSON_stringify r), w2))
       /\ (forall key' w2,
             key' <> key_of u ->
             decryptData (ev_content e) key' w2
             = (Throw (DOMException (js "OperationError")), w2)).
Proof.
  intros Hunits Hwf Hbom. cbv zeta.
  destruct (usePublishPrivateReference_cases (Some u) r w)
    as [(e & w1 & -> & Hw)|(u' & blob & eid & [= <-] & Hfit & Hb & _ & ->)];
    cbn [snd].
  - left. apply sent_between_nil. destruct Hw as [-> | ->]; reflexivity.
  - right. eexists. split; [apply sent_between_app; reflexivity|].
    cbn [ev_content signed content toPrivateEvent].
    destruct (decryptData_encryptData (JSON_stringify r) (key_of u) w Hunits Hfit)
      as (blob' & Henc' & Hsame & Hother).
    destruct (encryptData_resolves (JSON_stringify r) (key_of u) w Hfit)
      as (blob2 & Hb2 & Henc).
    rewrite Hb in Hb2. injection Hb2 as <-.
    rewrite Henc in Henc'. injection Henc' as <-.
    split.
    + intros w2. unfold deriveEncryptionKey, bind, ret. fold (key_of u).
      rewrite Hsame, (TextDecoder_TextEncoder _ Hunits Hwf Hbom). reflexivity.
    + exact Hother.
Qed.

End PrivateEvents.

Lemma private_event_opens_with_the_public_key_witness :
  let w := sample_world [] in
  let w' := (NostrService.usePublishPrivateReference (Some alice) sample_reference w).2 in
  sent_between w w' = []
  \/ exists e,
       sent_between w w' = [e]
       /\ (forall w2,
             (let* key := Encryption.deriveEncryptionKey (pubkey alice) in
              Encryption.decryptData (ev_content e) key) w2
             = (Ok (JSON_stringify sample_reference), w2))
       /\ (forall key' w2,
             key' <> key_of alice ->
             Encryption.decryptData (ev_content e) key' w2
             = (Throw (DOMException (js "OperationError")), w2)).
Proof.
  assert (H1 : Forall code_unit (JSON_stringify sample_reference))
    by exact (js_code_units "{A Test}").
  assert (H2 : well_formed (JSON_stringify sample_reference) = true)
    by (vm_compute; reflexivity).
  assert (H3 : head (JSON_stringify sample_reference) <> Some 65279)
    by (vm_compute; congruence).
  exact (private_event_opens_with_the_public_key (A := toy_aead) alice sample_reference
           (sample_world []) H1 H2 H3).
Defined.

Section YearTag.
Import NostrService.

(** X22.  A year that is 0, NaN or absent gives no year tag, and decodes
    as absent; every other year that is a safe integer is decoded as it
    was. *)
Theorem public_event_drops_a_falsy_year (r : Reference) (now : Z) (eid : jsstring) :
  safe_year (year r) ->
  exists r',
    fromPublicEvent (signed (toPublicEvent r now) eid) = Some r'
    /\ year r' = match year r with
                 | Some (Int y) => if y =? 0 then None else Some (Int y)
                 | _ => None
                 end
    /\ (find (tag_named "year") (etags (toPublicEvent r now)) = None
        <-> year r' = None).
Proof.
  intros _.
  eexists. split; [apply fromPublicEvent_toPublicEvent|]. cbn [year].
  split.
  - destruct (year r) as [[y|]|]; [|reflexivity|reflexivity].
    cbn [truthy_number]. destruct (y =? 0); [reflexivity|].
    cbn [negb]. rewrite parseInt_toString. reflexivity.
  - rewrite toPublicEvent_tags, !find_app, !find_tagged.
    cbn [String.eqb Ascii.eqb Bool.eqb andb].
    destruct (year r) as [[y|]|]; cbn [truthy_number tagged map head].
    + destruct (y =? 0); cbn [negb map head]; split; try reflexivity; discriminate.
    + split; reflexivity.
    + split; reflexivity.
Qed.

Lemma public_event_drops_a_falsy_year_witness :
  exists r',
    fromPublicEvent (signed (toPublicEvent sample_reference 1700000000) (js "e1"))
    = Some r'
    /\ year r' = match year sample_reference with
                 | Some (Int y) => if y =? 0 then None else Some (Int y)
                 | _ => None
                 end
    /\ (find (tag_named "year") (etags (toPublicEvent sample_reference 1700000000))
        = None
        <-> year r' = None).
Proof.
  apply (public_event_drops_a_falsy_year sample_reference 1700000000 (js "e1")).
  cbn [sample_reference year safe_year]. unfold safe_integer. lia.
Defined.

End YearTag.

(** ** Authors through export and import *)

Section Splitting.
Variable sep : jsstring.
Hypothesis sep_nonempty : sep <> [].

Lemma starts_with_app (R : jsstring) : starts_with sep (sep ++ R) = true.
Proof.
  clear sep_nonempty. induction sep as [|c p IH]; [reflexivity|].
  cbn [app starts_with]. rewrite Z.eqb_refl. exact IH.
Qed.

Lemma split_from_skip (n : nat) (acc x R : jsstring) :
  length x = n -> split_from sep n acc (x ++ R) = split_from sep 0 acc R.
Proof.
  revert x. induction n as [|n IH]; intros [|c x] Hl; try discriminate; [reflexivity|].
  cbn [app split_from]. apply IH. cbn [length] in Hl. lia.
Qed.

(** At an occurrence of the separator the piece collected is closed. *)
Lemma split_from_sep (acc R : jsstring) :
  split_from sep 0 acc (sep ++ R) = acc :: split_from sep 0 [] R.
Proof.
  pose proof (starts_with_app R) as Hs.
  destruct sep as [|c p] eqn:Hsep; [congruence|].
  cbn [app split_from]. cbn [app] in Hs. rewrite Hs. f_equal.
  cbn [length Nat.pred]. rewrite <- Hsep. apply split_from_skip. reflexivity.
Qed.

(** A stretch without an occurrence of the separator goes to the piece
    being collected. *)
Lemma split_from_piece (s acc R : jsstring) :
  no_occurrence sep s R ->
  split_from sep 0 acc (s ++ R) = split_from sep 0 (acc ++ s) R.
Proof.
  revert acc. induction s as [|c s IH]; intros acc Hno.
  - rewrite app_nil_r. reflexivity.
  - cbn [app split_from].
    change (c :: s ++ R) with ((c :: s) ++ R).
    rewrite (Hno [] (c :: s) eq_refl ltac:(discriminate)).
    rewrite IH.
    + rewrite <- app_assoc. reflexivity.
    + intros u v -> Hv. apply (Hno (c :: u) v); [reflexivity | exact Hv].
Qed.

Lemma split_from_end (acc : jsstring) : split_from sep 0 acc [] = [acc].
Proof. reflexivity. Qed.

(** Splitting the text joined from pieces gives the pieces back, when the
    separator occurs nowhere but between them. *)
Lemma split_join (items : list jsstring) :
  items <> [] ->
  (forall pre x post, items = pre ++ x :: post ->
     no_occurrence sep x (match post with [] => [] | _ => sep ++ join sep post end)) ->
  split sep (join sep items) = items.
Proof.
  intros Hne Hno.
  assert (H : forall acc, split_from sep 0 acc (join sep items)
                          = match items with
                            | x :: rest => (acc ++ x) :: rest
                            | [] => [acc]
                            end).
  { clear Hne. induction items as [|x rest IH]; intros acc; [reflexivity|].
    cbn [join]. destruct rest as [|y rest].
    - rewrite <- (app_nil_r x) at 1.
      rewrite split_from_piece by exact (Hno [] x [] eq_refl).
      reflexivity.
    - rewrite split_from_piece by exact (Hno [] x (y :: rest) eq_refl).
      rewrite split_from_sep. f_equal. rewrite IH; [reflexivity|].
      intros pre z post Hz. apply (Hno (x :: pre) z post). rewrite Hz. reflexivity. }
  assert (Hsplit : split sep (join sep items) = split_from sep 0 [] (join sep items)).
  { unfold split. destruct sep; [congruence | reflexivity]. }
  rewrite Hsplit, H. destruct items; [congruence | reflexivity].
Qed.

End Splitting.

Section Occurrences.

Lemma no_occurrence_nil (sep R : jsstring) : no_occurrence sep [] R.
Proof. intros u v H Hv. symmetry in H. apply app_eq_nil in H as [_ ->]. congruence. Qed.

Lemma no_occurrence_app (sep a b R : jsstring) :
  no_occurrence sep a (b ++ R) -> no_occurrence sep b R ->
  no_occurrence sep (a ++ b) R.
Proof.
  intros Ha Hb u v H Hv.
  apply app_eq_app in H as (k & [(-> & ->)|(-> & ->)]).
  - rewrite <- app_assoc. destruct k as [|c k].
    + cbn [app] in *. destruct b as [|d b]; [congruence|].
      apply (Hb [] (d :: b)); [reflexivity | discriminate].
    + apply (Ha u (c :: k)); [reflexivity | discriminate].
  - apply (Hb k v); [reflexivity | exact Hv].
Qed.

(** No occurrence starts at a code unit that is not the first of the
    separator. *)
Lemma no_occurrence_head (c0 : Z) (p s R : jsstring) :
  Forall (fun d => d <> c0) s -> no_occurrence (c0 :: p) s R.
Proof.
  intros Hs u v -> Hv. apply Forall_app in Hs as [_ Hs].
  destruct v as [|d v]; [congruence|]. apply Forall_cons in Hs as [Hd _].
  cbn [app starts_with]. replace (c0 =? d) with false by lia. reflexivity.
Qed.

End Occurrences.

Section Words.

Lemma join_cons (sep w : jsstring) (ws : list jsstring) :
  ws <> [] -> join sep (w :: ws) = w ++ sep ++ join sep ws.
Proof. destruct ws; [congruence | reflexivity]. Qed.

Lemma join_snoc (sep x : jsstring) (l : list jsstring) :
  l <> [] -> join sep (l ++ [x]) = join sep l ++ sep ++ x.
Proof.
  induction l as [|y l IH]; [congruence|]. intros _.
  destruct l as [|z l]; [reflexivity|].
  change ((y :: z :: l) ++ [x]) with (y :: ((z :: l) ++ [x])).
  rewrite join_cons by (destruct l; discriminate).
  rewrite IH by discriminate. rewrite (join_cons sep y (z :: l)) by discriminate.
  rewrite <- !app_assoc. reflexivity.
Qed.

(** After a space, the separator of the author list needs the word [and]
    followed by a space. *)
Lemma starts_with_and_word (w rest : jsstring) :
  spaceless w -> w <> js "and" ->
  match rest with [] => True | c :: _ => c = 32 end ->
  starts_with (js "and ") (w ++ rest) = false.
Proof.
  intros [Hne Hw] Hand Hrest.
  destruct w as [|c1 [|c2 [|c3 [|c4 t]]]]; [congruence| | | |].
  - cbn [app]. destruct rest as [|r rest]; cbn; [destruct (_ =? c1); reflexivity|].
    subst r. destruct (_ =? c1); reflexivity.
  - cbn [app]. destruct rest as [|r rest]; cbn;
      [destruct (_ =? c1), (_ =? c2); reflexivity|].
    subst r. destruct (_ =? c1), (_ =? c2); reflexivity.
  - cbn [app]. cbn [js list_ascii_of_string map starts_with].
    destruct (Z.eqb_spec (Z.of_N (N_of_ascii "a")) c1) as [<-|]; [|reflexivity].
    destruct (Z.eqb_spec (Z.of_N (N_of_ascii "n")) c2) as [<-|]; [|reflexivity].
    destruct (Z.eqb_spec (Z.of_N (N_of_ascii "d")) c3) as [<-|]; [|reflexivity].
    exfalso. apply Hand. reflexivity.
  - cbn [app]. cbn [js list_ascii_of_string map starts_with].
    assert (H4 : c4 <> 32).
    { apply Forall_cons in Hw as [_ Hw]. apply Forall_cons in Hw as [_ Hw].
      apply Forall_cons in Hw as [_ Hw]. apply Forall_cons in Hw as [H4 _]. exact H4. }
    replace (Z.of_N (N_of_ascii " ") =? c4) with false
      by (change (Z.of_N (N_of_ascii " ")) with 32; lia).
    destruct (_ =? c1), (_ =? c2), (_ =? c3); reflexivity.
Qed.

(** In words joined by single spaces, none of them [and], the separator
    of the author list does not occur. *)
Lemma no_occurrence_and (ws : list jsstring) (R : jsstring) :
  Forall spaceless ws -> js "and" ∉ ws ->
  match R with [] => True | c :: _ => c = 32 end ->
  no_occurrence (js " and ") (join (js " ") ws) R.
Proof.
  intros Hws Hand HR. induction Hws as [|w ws Hw Hws IH]; [apply no_occurrence_nil|].
  apply not_elem_of_cons in Hand as [Hw' Hand].
  assert (Hword : forall X, no_occurrence (js " and ") w X).
  { intros X. apply (no_occurrence_head 32). apply Hw. }
  destruct ws as [|w2 ws]; [apply Hword|].
  rewrite join_cons by discriminate.
  apply no_occurrence_app; [apply Hword|].
  apply no_occurrence_app; [|apply IH, Hand].
  intros u v Huv Hv.
  assert (v = js " ") as ->.
  { destruct u as [|c u]; [symmetry; exact Huv|].
    change (js " ") with [32] in Huv. injection Huv as _ Huv.
    destruct u; [cbn in Huv; subst v; congruence | discriminate]. }
  change (js " " ++ join (js " ") (w2 :: ws) ++ R)
    with (32 :: (join (js " ") (w2 :: ws) ++ R)).
  change (js " and ") with (32 :: js "and ").
  cbn [starts_with]. rewrite Z.eqb_refl. cbn [andb].
  apply Forall_cons in Hws as [Hw2 Hws].
  apply not_elem_of_cons in Hand as [Hw2' Hand].
  destruct ws as [|w3 ws].
  - cbn [join]. apply starts_with_and_word; [exact Hw2 | congruence | exact HR].
  - rewrite join_cons by discriminate. rewrite <- app_assoc.
    apply starts_with_and_word; [exact Hw2 | congruence | reflexivity].
Qed.

Lemma rev_nil_inv (l : jsstring) : rev l = [] -> l = [].
Proof.
  intros H. apply (f_equal (@rev Z)) in H. rewrite rev_involutive in H. exact H.
Qed.

Lemma trim_fixed (s : jsstring) :
  match s with c :: _ => is_space c = false | [] => True end ->
  match rev s with c :: _ => is_space c = false | [] => True end ->
  trim s = s.
Proof.
  intros Hh Hl. unfold trim. rewrite (trimStart_fixed s Hh).
  unfold trimEnd. rewrite (trimStart_fixed (rev s) Hl). apply rev_involutive.
Qed.

End Words.

Section AuthorsRoundTrip.
Import BibTeX BibTeXExport.

Lemma plain_word_spaceless (w : jsstring) : plain_word w -> spaceless w.
Proof.
  intros [Hne Hw]. split; [exact Hne|].
  eapply Forall_impl; [exact Hw|]. intros c (Hs & _) ->. discriminate.
Qed.

Lemma split_words (ws : list jsstring) :
  ws <> [] -> Forall spaceless ws -> split (js " ") (join (js " ") ws) = ws.
Proof.
  intros Hne Hws. apply split_join; [discriminate | exact Hne|].
  intros pre x post ->. apply (no_occurrence_head 32 []).
  apply Forall_app in Hws as [_ Hws]. apply Forall_cons in Hws as [Hx _]. apply Hx.
Qed.

Lemma plain_word_ends (w : jsstring) :
  plain_word w ->
  match w with c :: _ => is_space c = false | [] => True end
  /\ match rev w with c :: _ => is_space c = false | [] => True end.
Proof.
  intros [Hne Hw]. split.
  - destruct w; [exact I|]. apply (Forall_inv Hw).
  - apply Forall_rev in Hw. destruct (rev w); [exact I|]. apply (Forall_inv Hw).
Qed.

(** What the export makes of one plain name, and that the import reads it
    back. *)
Lemma format_one (a : jsstring) :
  plain_name a ->
  let formatted :=
    (let parts := split (js " ") a in
     if (2 <=? length parts)%nat then
       let lastName := or_else (last parts) [] in
       let firstName := join (js " ") (removelast parts) in
       lastName ++ js ", " ++ firstName
     else a) in
  (exists ws', formatted = join (js " ") ws' /\ Forall spaceless ws' /\ js "and" ∉ ws')
  /\ formatted <> []
  /\ trim formatted = formatted
  /\ match map trim (split (js ",") formatted) with
     | [last; first] => first ++ js " " ++ last
     | _ => formatted
     end = a.
Proof.
  intros (ws & -> & Hne & Hws & Hand). cbv zeta.
  assert (Hsp : Forall spaceless ws).
  { eapply Forall_impl; [exact Hws|]. apply plain_word_spaceless. }
  rewrite (split_words ws Hne Hsp).
  destruct (exists_last Hne) as (init & l & ->).
  apply Forall_app in Hws as [Hinit Hl]. apply Forall_cons in Hl as [Hl _].
  destruct init as [|w1 init].
  - (* a single word *)
    cbn [app length Nat.leb join].
    destruct Hl as [Hlne Hlall].
    split; [exists [l]; split; [reflexivity|]; split; [exact Hsp | exact Hand]|].
    split; [exact Hlne|].
    destruct (plain_word_ends l (conj Hlne Hlall)) as [Hh Ht].
    split; [apply trim_fixed; assumption|].
    assert (Hsplit : split (js ",") l = [l]).
    { apply (split_join (js ",") ltac:(discriminate) [l]); [discriminate|].
      intros pre x post Hx. destruct pre as [|? [|? ?]]; try discriminate.
      injection Hx as <- <-. apply (no_occurrence_head 44 []).
      eapply Forall_impl; [exact Hlall|]. intros c (_ & Hc & _). exact Hc. }
    rewrite Hsplit. reflexivity.
  - (* a last name after one or more other words *)
    set (firsts := w1 :: init) in *.
    assert (Hlen : (2 <=? length (firsts ++ [l]))%nat = true).
    { rewrite length_app. subst firsts. cbn [length]. apply Nat.leb_le. lia. }
    rewrite Hlen, last_snoc, removelast_last.
    destruct Hl as [Hlne Hlall].
    assert (Hor : or_else (Some l) [] = l) by (destruct l; [congruence | reflexivity]).
    rewrite Hor.
    assert (Hfne : firsts <> []) by discriminate.
    assert (Hjoin : l ++ js ", " ++ join (js " ") firsts
                    = join (js " ") ((l ++ js ",") :: firsts)).
    { rewrite join_cons by exact Hfne. rewrite <- app_assoc. reflexivity. }
    destruct (plain_word_ends l (conj Hlne Hlall)) as [Hlh Hlt].
    assert (Hfirsts_ends :
      match join (js " ") firsts with c :: _ => is_space c = false | [] => True end
      /\ match rev (join (js " ") firsts) with c :: _ => is_space c = false | [] => True end).
    { clear -Hinit Hfne. split.
      - destruct firsts as [|w ws]; [congruence|].
        apply Forall_cons in Hinit as [Hw _]. destruct (plain_word_ends w Hw) as [Hh _].
        destruct Hw as [Hwne _]. destruct w as [|c w]; [congruence|].
        destruct ws; [exact Hh|]. rewrite join_cons by discriminate. exact Hh.
      - destruct (exists_last Hfne) as (ws & w & ->).
        apply Forall_app in Hinit as [_ Hw]. apply Forall_cons in Hw as [Hw _].
        destruct (plain_word_ends w Hw) as [_ Ht]. destruct Hw as [Hwne _].
        destruct ws as [|w0 ws].
        + cbn [app join]. exact Ht.
        + rewrite join_snoc by discriminate. rewrite !rev_app_distr.
          destruct (rev w) as [|c r] eqn:Hr; [|exact Ht].
          apply rev_nil_inv in Hr. congruence. }
    destruct Hfirsts_ends as [Hfh Hft].
    assert (Hfirsts_ne : join (js " ") firsts <> []).
    { subst firsts. destruct init; cbn [join].
      - apply Forall_cons in Hinit as [[Hw _] _]. exact Hw.
      - apply Forall_cons in Hinit as [[Hw _] _]. destruct w1; [congruence | discriminate]. }
    split; [|split; [|split]].
    + exists ((l ++ js ",") :: firsts). split; [exact Hjoin|]. split.
      * constructor.
        -- split; [destruct l; discriminate|].
           apply Forall_app. split.
           ++ eapply Forall_impl; [exact Hlall|]. intros c (Hs & _) ->. discriminate.
           ++ repeat constructor. discriminate.
        -- apply Forall_app in Hsp as [Hsp _]. exact Hsp.
      * intros Hin. apply elem_of_cons in Hin as [Heq|Hin].
        -- apply (f_equal (@rev Z)) in Heq. rewrite rev_app_distr in Heq.
           vm_compute in Heq. destruct (rev l) as [|c r]; cbn in Heq; discriminate.
        -- apply Hand. apply elem_of_app. left. exact Hin.
    + destruct l; [congruence | discriminate].
    + apply trim_fixed.
      * destruct l as [|c l]; [congruence|]. exact Hlh.
      * rewrite !rev_app_distr.
        destruct (rev (join (js " ") firsts)) as [|c r] eqn:Hr; [|exact Hft].
        apply rev_nil_inv in Hr. congruence.
    + assert (Hsplit : split (js ",") (l ++ js ", " ++ join (js " ") firsts)
                       = [l; js " " ++ join (js " ") firsts]).
      { change (l ++ js ", " ++ join (js " ") firsts)
          with (join (js ",") [l; js " " ++ join (js " ") firsts]).
        apply (split_join (js ",") ltac:(discriminate)); [discriminate|].
        intros pre x post Hx.
        assert (Hnc : forall ws0, Forall plain_word ws0 ->
                  Forall (fun d => d <> 44) (join (js " ") ws0)).
        { clear. induction 1 as [|w ws0 Hw Hws0 IH]; [constructor|].
          assert (Hw' : Forall (fun d => d <> 44) w).
          { destruct Hw as [_ Hw]. eapply Forall_impl; [exact Hw|].
            intros c (_ & Hc & _). exact Hc. }
          destruct ws0; [exact Hw'|]. rewrite join_cons by discriminate.
          apply Forall_app. split; [exact Hw'|]. apply Forall_app. split; [|exact IH].
          repeat constructor. discriminate. }
        assert (Hsecond : Forall (fun d => d <> 44) (js " " ++ join (js " ") firsts)).
        { apply Forall_app. split; [repeat constructor; discriminate|].
          apply Hnc, Hinit. }
        set (second := js " " ++ join (js " ") firsts) in *. clearbody second.
        destruct pre as [|? [|? [|? ?]]]; try discriminate.
        - injection Hx as <- <-. apply (no_occurrence_head 44 []).
          eapply Forall_impl; [exact Hlall|]. intros c (_ & Hc & _). exact Hc.
        - injection Hx as _ <- <-. apply (no_occurrence_head 44 []). exact Hsecond. }
      rewrite Hsplit. cbn [map].
      rewrite (trim_fixed l) by assumption.
      assert (Htrim : trim (js " " ++ join (js " ") firsts) = join (js " ") firsts).
      { unfold trim. change (js " " ++ join (js " ") firsts)
          with (32 :: join (js " ") firsts).
        cbn [trimStart]. change (is_space 32) with true. cbv iota.
        rewrite (trimStart_fixed _ Hfh). unfold trimEnd.
        rewrite (trimStart_fixed _ Hft). apply rev_involutive. }
      rewrite Htrim. rewrite join_snoc by exact Hfne. reflexivity.
Qed.

End AuthorsRoundTrip.

Section AuthorsTheorem.
Import BibTeX BibTeXExport.

(** The author field of plain names is read back as the names. *)
Lemma parseAuthors_formatAuthors (l : list jsstring) :
  Forall plain_name l -> parseAuthors (formatAuthorsForBibTeX l) = l.
Proof.
  intros Hl. destruct l as [|a0 l0]; [reflexivity|].
  set (l := a0 :: l0) in *.
  unfold formatAuthorsForBibTeX, parseAuthors. cbv zeta.
  set (fmt := fun author : jsstring =>
                if (2 <=? length (split (js " ") author))%nat
                then or_else (last (split (js " ") author)) [] ++ js ", "
                     ++ join (js " ") (removelast (split (js " ") author))
                else author).
  set (unfmt := fun author : jsstring =>
                  match map trim (split (js ",") author) with
                  | [last; first] => first ++ js " " ++ last
                  | _ => author
                  end).
  assert (Hone : Forall (fun a =>
              (exists ws', fmt a = join (js " ") ws' /\ Forall spaceless ws'
                           /\ js "and" ∉ ws')
              /\ fmt a <> [] /\ trim (fmt a) = fmt a /\ unfmt (fmt a) = a) l).
  { eapply Forall_impl; [exact Hl|]. intros a Ha. exact (format_one a Ha). }
  assert (Hsplit : split (js " and ") (join (js " and ") (map fmt l)) = map fmt l).
  { apply split_join; [discriminate | discriminate|].
    intros pre x post Hx.
    assert (Hx' : x ∈ map fmt l) by (rewrite Hx; apply elem_of_app; right; left).
    apply list_elem_of_fmap in Hx' as (a & -> & Ha).
    rewrite Forall_forall in Hone. destruct (Hone a Ha) as ((ws' & -> & Hws' & Hand) & _).
    apply no_occurrence_and; [exact Hws' | exact Hand|].
    destruct post; [exact I | reflexivity]. }
  rewrite Hsplit. clear Hsplit Hl. clearbody l.
  induction Hone as [|a l (_ & Hne & Htrim & Hback) Hone IH]; [reflexivity|].
  cbn [map]. rewrite Htrim, filter_cons.
  assert (Ht : truthy (Some (fmt a)) = true) by (destruct (fmt a); [congruence | reflexivity]).
  rewrite decide_True by exact Ht. cbn [map]. rewrite Hback. f_equal. exact IH.
Qed.

(** X23.  Names made of words separated by single spaces, none of them the
    word [and] and none holding white space, a comma, a brace or a
    backslash, are read back by the import exactly as the export wrote
    them: last name first with a comma on the way out, back in order on
    the way in. *)
Theorem plain_authors_survive_export_and_import (l : list jsstring) :
  Forall plain_name l -> parseAuthors (formatAuthorsForBibTeX l) = l.
Proof. apply parseAuthors_formatAuthors. Qed.

Lemma plain_authors_survive_export_and_import_witness :
  BibTeX.parseAuthors
    (BibTeXExport.formatAuthorsForBibTeX [js "Mary Jane Doe"; js "Plato"])
  = [js "Mary Jane Doe"; js "Plato"].
Proof.
  apply plain_authors_survive_export_and_import.
  assert (Hw : forall s : string,
            forallb (fun c => negb (is_space c) && negb (c =? 44) && negb (c =? 123)
                              && negb (c =? 125) && negb (c =? 92)) (js s) = true ->
            js s <> [] -> plain_word (js s)).
  { intros s Hs Hne. split; [exact Hne|]. apply Forall_forall. intros c Hc.
    rewrite forallb_forall in Hs. apply list_elem_of_In, Hs in Hc.
    unfold is_space in *. lia. }
  constructor; [|constructor; [|constructor]].
  - exists [js "Mary"; js "Jane"; js "Doe"].
    split; [reflexivity|]. split; [discriminate|]. split.
    + repeat (apply Forall_cons; split; [apply Hw; [reflexivity | discriminate]|]).
      constructor.
    + intros Hin. repeat (apply elem_of_cons in Hin as [Hin|Hin]; [discriminate|]).
      inversion Hin.
  - exists [js "Plato"].
    split; [reflexivity|]. split; [discriminate|]. split.
    + repeat (apply Forall_cons; split; [apply Hw; [reflexivity | discriminate]|]).
      constructor.
    + intros Hin. repeat (apply elem_of_cons in Hin as [Hin|Hin]; [discriminate|]).
      inversion Hin.
Defined.

End AuthorsTheorem.

(** ** Reading an exported entry back *)

Section FirstChoice.
Context {R : Type}.

(** A greedy repetition that meets the end of its class takes all of it,
    when what follows matches there. *)
Lemma star_greedy_exact (p : Z -> bool) (k : jsstring -> option R)
    (pre s : jsstring) (x : R) :
  Forall (fun c => p c = true) pre ->
  match s with c :: _ => p c = false | [] => True end ->
  k s = Some x ->
  star true p k (pre ++ s) = Some x.
Proof.
  intros Hpre Hs Hk. induction Hpre as [|c pre Hc _ IH]; cbn [app].
  - destruct s as [|c s]; cbn [star]; [exact Hk|]. rewrite Hs. exact Hk.
  - cbn [star]. rewrite Hc, IH. reflexivity.
Qed.

(** A lazy repetition passes a text at none of whose positions the rest
    of the pattern matches. *)
Lemma star_lazy_skip (k : jsstring -> option R) (pre s : jsstring) :
  (forall u v, pre = u ++ v -> v <> [] -> k (v ++ s) = None) ->
  star false any_char k (pre ++ s) = star false any_char k s.
Proof.
  induction pre as [|c pre IH]; intros H; [reflexivity|].
  cbn [app star]. unfold any_char at 1. cbv iota.
  change (c :: pre ++ s) with ((c :: pre) ++ s).
  rewrite (H [] (c :: pre) eq_refl) by discriminate.
  apply IH. intros u v -> Hv. apply (H (c :: u) v); [reflexivity | exact Hv].
Qed.

Lemma star_lazy_stop (k : jsstring -> option R) (s : jsstring) (x : R) :
  k s = Some x -> star false any_char k s = Some x.
Proof.
  intros Hk. destruct s as [|c s]; cbn [star]; [exact Hk|].
  unfold any_char. rewrite Hk. reflexivity.
Qed.

End FirstChoice.

Lemma captured (a b : jsstring) :
  take (length (a ++ b) - length b) (a ++ b) = a.
Proof.
  rewrite length_app.
  replace (length a + length b - length b)%nat with (length a) by lia.
  apply take_app_length.
Qed.

Section FieldPattern.
Import BibTeX.

Lemma match_at_field (n v rest : jsstring) :
  n <> [] -> Forall (fun c => is_word c = true) n ->
  Forall (fun c => c <> 125) v ->
  match_at fieldRegex (n ++ js " = {" ++ v ++ js "}" ++ rest)
  = Some (field_captures (n, v), rest).
Proof.
  intros Hn Hw Hv. destruct n as [|c n]; [congruence|].
  apply Forall_cons in Hw as [Hc Hw].
  unfold match_at, fieldRegex, Plus. cbn [seq_of foldr rmatch app].
  rewrite Hc.
  apply star_greedy_exact; [exact Hw | reflexivity|].
  change (js " = {" ++ v ++ js "}" ++ rest)
    with ([32] ++ 61 :: [32] ++ 123 :: v ++ 125 :: rest).
  apply star_greedy_exact; [repeat constructor | reflexivity|].
  cbn [is_char Z.eqb Pos.eqb].
  apply star_greedy_exact; [repeat constructor | reflexivity|].
  cbn [is_char Z.eqb Pos.eqb].
  apply star_greedy_exact.
  { eapply Forall_impl; [exact Hv|]. intros d Hd. cbv beta in Hd.
    unfold not_char. apply negb_true_iff. lia. }
  { reflexivity. }
  cbn [is_char Z.eqb Pos.eqb].
  unfold field_captures. cbn [fst snd].
  change (c :: n ++ [32] ++ 61 :: [32] ++ 123 :: v ++ 125 :: rest)
    with ((c :: n) ++ [32] ++ 61 :: [32] ++ 123 :: v ++ 125 :: rest).
  rewrite captured.
  change (v ++ 125 :: rest) with (v ++ (125 :: rest)).
  rewrite captured. reflexivity.
Qed.

End FieldPattern.

Section FieldLoop.
Import BibTeX.

Lemma match_at_field_needs_word (s : jsstring) :
  match s with c :: _ => is_word c = false | [] => True end ->
  match_at fieldRegex s = None.
Proof.
  unfold match_at, fieldRegex, Plus. cbn [seq_of foldr rmatch].
  destruct s as [|c s]; [reflexivity|]. intros ->. reflexivity.
Qed.

Lemma exec_field_skip (junk s : jsstring) :
  Forall (fun c => is_word c = false) junk ->
  exec fieldRegex (junk ++ s) = exec fieldRegex s.
Proof.
  induction 1 as [|c junk Hc _ IH]; [reflexivity|].
  cbn [app exec]. rewrite match_at_field_needs_word by exact Hc. exact IH.
Qed.

Lemma exec_field (junk rest : jsstring) (p : jsstring * jsstring) :
  Forall (fun c => is_word c = false) junk -> readable_field p ->
  exec fieldRegex (junk ++ field_text p ++ rest) = Some (field_captures p, rest).
Proof.
  intros Hj (Hn & Hw & Hv). destruct p as [n v]. cbn [fst snd] in *.
  unfold field_text. cbn [fst snd]. rewrite <- !app_assoc.
  rewrite exec_field_skip by exact Hj.
  rewrite (exec_field_skip (js "  ")) by (repeat constructor).
  destruct n as [|c n]; [congruence|].
  cbn [app exec].
  change (c :: n ++ js " = {" ++ v ++ js "}" ++ rest)
    with ((c :: n) ++ js " = {" ++ v ++ js "}" ++ rest).
  rewrite match_at_field by assumption. reflexivity.
Qed.

(** The fields of an entry, one to a line, are found one after the
    other. *)
Lemma exec_loop_fields (fs : list (jsstring * jsstring)) :
  Forall readable_field fs ->
  forall (junk : jsstring) (fuel : nat),
    Forall (fun c => is_word c = false) junk ->
    (length (junk ++ join [44; 10]%Z (map field_text fs)) < fuel)%nat ->
    exec_loop fuel fieldRegex (junk ++ join [44; 10] (map field_text fs))
    = map field_captures fs.
Proof.
  induction 1 as [|p fs Hp Hfs IH]; intros junk fuel Hj Hfuel.
  - cbn [map join]. rewrite app_nil_r.
    destruct fuel as [|fuel]; [reflexivity|]. cbn [exec_loop].
    rewrite <- (app_nil_r junk), exec_field_skip by exact Hj. reflexivity.
  - destruct fuel as [|fuel]; [lia|]. cbn [exec_loop map].
    destruct fs as [|q fs].
    + cbn [map join]. rewrite <- (app_nil_r (field_text p)).
      rewrite exec_field by assumption.
      destruct fuel; reflexivity.
    + change (map field_text (q :: fs)) with (field_text q :: map field_text fs).
      rewrite join_cons by discriminate.
      rewrite exec_field by assumption.
      f_equal. apply (IH [44; 10] fuel); [repeat constructor|].
      cbn [map] in Hfuel. rewrite join_cons in Hfuel by discriminate.
      cbn [map]. rewrite !length_app in Hfuel. rewrite !length_app.
      cbn [length] in *.
      assert (2 <= length (field_text p))%nat
        by (unfold field_text; rewrite length_app; cbn [length js list_ascii_of_string map]; lia).
      lia.
Qed.

End FieldLoop.

Section EntryPattern.
Import BibTeX.
Context {R : Type}.
Variable k : jsstring -> option R.
Hypothesis k_newline : forall c t, c <> 10 -> k (c :: t) = None.
Hypothesis k_brace : forall d t, d <> 125 -> k (10 :: d :: t) = None.

Lemma lazy_skip_plain (pre s : jsstring) :
  Forall (fun c => c <> 10) pre ->
  star false any_char k (pre ++ s) = star false any_char k s.
Proof.
  intros Hpre. apply star_lazy_skip. intros u v -> Hv.
  apply Forall_app in Hpre as [_ Hpre].
  destruct v as [|c v]; [congruence|]. apply Forall_cons in Hpre as [Hc _].
  apply k_newline, Hc.
Qed.

Lemma lazy_skip_newline (d : Z) (s : jsstring) :
  d <> 125 ->
  star false any_char k (10 :: d :: s) = star false any_char k (d :: s).
Proof.
  intros Hd. cbn [star]. unfold any_char at 1. cbv iota.
  rewrite k_brace by exact Hd. reflexivity.
Qed.

Lemma word_is_not_newline (n : jsstring) :
  Forall (fun c => is_word c = true) n -> Forall (fun c => c <> 10) n.
Proof.
  intros H. eapply Forall_impl; [exact H|]. intros c Hc ->. discriminate.
Qed.

Lemma field_text_one_line (p : jsstring * jsstring) :
  one_line_field p -> Forall (fun c => c <> 10) (field_text p).
Proof.
  intros [(_ & Hw & _) Hv]. unfold field_text.
  repeat (apply Forall_app; split);
    [repeat constructor; discriminate | apply word_is_not_newline, Hw
    | repeat constructor; discriminate | exact Hv
    | repeat constructor; discriminate].
Qed.

(** The lazy group passes all the field lines: a line end inside them is
    followed by the two spaces of the next line, never by a brace. *)
Lemma lazy_skip_fields (fs : list (jsstring * jsstring)) (s : jsstring) :
  Forall one_line_field fs ->
  star false any_char k (join [44; 10] (map field_text fs) ++ s)
  = star false any_char k s.
Proof.
  induction 1 as [|p fs Hp Hfs IH]; [reflexivity|].
  destruct fs as [|q fs].
  - cbn [map join]. apply lazy_skip_plain, field_text_one_line, Hp.
  - cbn [map]. cbn [map] in IH. rewrite join_cons by discriminate.
    rewrite <- !app_assoc.
    rewrite lazy_skip_plain by (apply field_text_one_line, Hp).
    change ([44; 10] ++ ?x) with ([44] ++ 10 :: x).
    rewrite lazy_skip_plain by (repeat constructor; discriminate).
    assert (Hq : exists t, join [44; 10] (field_text q :: map field_text fs) ++ s
                           = 32 :: t).
    { destruct fs as [|q' fs]; cbn [map join]; unfold field_text at 1;
        cbn [js list_ascii_of_string map app]; eexists; reflexivity. }
    destruct Hq as [t Hq]. rewrite <- IH. rewrite Hq.
    apply lazy_skip_newline. discriminate.
Qed.

End EntryPattern.

Section EntryMatch.
Import BibTeX.

Lemma word_is_not_space (c : Z) : is_word c = true -> is_space c = false.
Proof. unfold is_word, is_upper, is_lower, is_digit, is_space. lia. Qed.

(** An entry as the export writes it is matched from its at sign to its
    closing brace. *)
Lemma match_at_entry (entryType citationKey tail : jsstring)
    (fs : list (jsstring * jsstring)) :
  entryType <> [] -> Forall (fun c => is_word c = true) entryType ->
  citationKey <> [] -> Forall (fun c => is_word c = true) citationKey ->
  Forall one_line_field fs ->
  match_at entryRegex
    (js "@" ++ entryType ++ js "{" ++ citationKey ++ [44; 10]
     ++ join [44; 10] (map field_text fs) ++ [10; 125] ++ tail)
  = Some (entry_captures entryType citationKey
            (10 :: join [44; 10] (map field_text fs)), tail).
Proof.
  intros Ht Htw Hk Hkw Hfs.
  destruct entryType as [|t entryType]; [congruence|].
  destruct citationKey as [|c citationKey]; [congruence|].
  apply Forall_cons in Htw as [Htc Htw]. apply Forall_cons in Hkw as [Hkc Hkw].
  change (js "@" ++ (t :: entryType) ++ js "{" ++ (c :: citationKey) ++ [44; 10]
          ++ join [44; 10] (map field_text fs) ++ [10; 125] ++ tail)
    with (64 :: t :: entryType ++ 123 :: c :: citationKey ++ 44 :: 10
          :: join [44; 10] (map field_text fs) ++ 10 :: 125 :: tail).
  unfold match_at, entryRegex, Plus. cbn [seq_of foldr rmatch].
  cbn [is_char Z.eqb Pos.eqb]. rewrite Htc.
  apply star_greedy_exact; [exact Htw | reflexivity|].
  apply (star_greedy_exact _ _ []); [constructor | reflexivity|].
  cbn [app is_char Z.eqb Pos.eqb].
  apply (star_greedy_exact _ _ []);
    [constructor | apply word_is_not_space, Hkc|].
  cbn [app].
  assert (Hcomma : forall d, is_word d = true -> not_char 44 d = true).
  { intros d Hd. unfold not_char. apply negb_true_iff.
    destruct (Z.eqb_spec d 44) as [->|]; [discriminate | reflexivity]. }
  rewrite (Hcomma c Hkc).
  apply star_greedy_exact;
    [eapply Forall_impl; [exact Hkw | exact Hcomma] | reflexivity|].
  apply (star_greedy_exact _ _ []); [constructor | reflexivity|].
  cbn [app is_char Z.eqb Pos.eqb]. unfold any_char at 1. cbv iota.
  rewrite lazy_skip_fields; [| | |exact Hfs].
  - apply star_lazy_stop. cbn [is_char Z.eqb Pos.eqb].
    unfold entry_captures. do 3 f_equal.
    + change (10 :: join [44; 10] (map field_text fs) ++ 10 :: 125 :: tail)
        with ((10 :: join [44; 10] (map field_text fs)) ++ 10 :: 125 :: tail).
      apply captured.
    + f_equal.
      * change (c :: citationKey ++ ?x) with ((c :: citationKey) ++ x).
        apply captured.
      * f_equal.
        change (t :: entryType ++ ?x) with ((t :: entryType) ++ x).
        apply captured.
  - intros d s Hd. unfold is_char.
    destruct (Z.eqb_spec d 10); [contradiction | reflexivity].
  - intros d s Hd. cbn [is_char Z.eqb Pos.eqb]. unfold is_char.
    destruct (Z.eqb_spec d 125); [contradiction | reflexivity].
Qed.
End EntryMatch.

Section FieldsObject.
Import BibTeX.

Lemma foldl_field_captures (fs : list (jsstring * jsstring)) :
  forall acc : gmap jsstring jsstring,
    foldl (fun fields fieldMatch =>
             let fieldName := toLowerCase (default [] (fieldMatch !! 1%nat)) in
             let fieldValue := trim (default [] (fieldMatch !! 2%nat)) in
             <[fieldName := fieldValue]> fields)
          acc (map field_captures fs)
    = foldl (fun fields p => <[toLowerCase p.1 := trim p.2]> fields) acc fs.
Proof.
  induction fs as [|[n v] fs IH]; intros acc; [reflexivity|].
  cbn [map foldl]. rewrite IH. reflexivity.
Qed.

(** The fields object of the text of an entry holds its fields, names in
    lower case and values trimmed. *)
Lemma parseFields_text (fs : list (jsstring * jsstring)) :
  Forall readable_field fs ->
  parseFields (10 :: join [44; 10] (map field_text fs)) = fields_object fs.
Proof.
  intros Hfs. unfold parseFields, exec_all, fields_object.
  change (10 :: join [44; 10] (map field_text fs))
    with ([10] ++ join [44; 10] (map field_text fs)).
  rewrite exec_loop_fields; [apply foldl_field_captures | exact Hfs | | lia].
  repeat constructor.
Qed.

Lemma fields_object_from (fs : list (jsstring * jsstring)) (k : jsstring) :
  forall acc : gmap jsstring jsstring,
    k ∉ map (fun p => toLowerCase p.1) fs ->
    foldl (fun fields p => <[toLowerCase p.1 := trim p.2]> fields) acc fs !! k
    = acc !! k.
Proof.
  induction fs as [|p fs IH]; intros acc Hk; [reflexivity|].
  cbn [map] in Hk. apply not_elem_of_cons in Hk as [Hp Hk].
  cbn [foldl]. rewrite IH by exact Hk. apply lookup_insert_ne. congruence.
Qed.

Lemma written_fields_names (slots : list (jsstring * option jsstring)) (k : jsstring) :
  k ∉ map (fun slot => toLowerCase slot.1) slots ->
  k ∉ map (fun p => toLowerCase p.1) (written_fields slots).
Proof.
  induction slots as [|[n o] slots IH]; intros Hk; [exact Hk|].
  cbn [map fst] in Hk. apply not_elem_of_cons in Hk as [Hn Hk].
  unfold written_fields. cbn [flat_map fst snd]. rewrite map_app.
  intros Hin. apply elem_of_app in Hin as [Hin|Hin].
  - destruct o as [v|]; cbn [map fst] in Hin; [|inversion Hin].
    apply list_elem_of_singleton in Hin. congruence.
  - exact (IH Hk Hin).
Qed.

Lemma lookup_written_from (slots : list (jsstring * option jsstring))
    (n : jsstring) (o : option jsstring) :
  forall acc : gmap jsstring jsstring,
    acc !! toLowerCase n = None ->
    NoDup (map (fun slot => toLowerCase slot.1) slots) ->
    (n, o) ∈ slots ->
    foldl (fun fields p => <[toLowerCase p.1 := trim p.2]> fields) acc
      (written_fields slots) !! toLowerCase n
    = trim <$> o.
Proof.
  induction slots as [|[n' o'] slots IH]; intros acc Hacc Hnd Hin; [inversion Hin|].
  cbn [map fst] in Hnd. apply NoDup_cons in Hnd as [Hn' Hnd].
  unfold written_fields. cbn [flat_map fst snd]. rewrite foldl_app.
  apply elem_of_cons in Hin as [[= <- <-]|Hin].
  - rewrite fields_object_from by (apply written_fields_names, Hn').
    destruct o as [v|]; cbn [foldl fst snd]; [|exact Hacc].
    first [apply lookup_insert | apply lookup_insert_eq].
  - apply IH; [|exact Hnd | exact Hin].
    assert (Hne : toLowerCase n' <> toLowerCase n).
    { intros Heq. apply Hn'. rewrite Heq.
      apply (list_elem_of_fmap_2 (fun slot : jsstring * option jsstring =>
                                    toLowerCase slot.1) _ (n, o)), Hin. }
    destruct o' as [v|]; cbn [foldl fst snd]; [|exact Hacc].
    rewrite lookup_insert_ne by exact Hne. exact Hacc.
Qed.

(** Looking a name up in the fields object gives the value of its slot,
    trimmed, when no two slots share a name; a name of no slot is not
    found. *)
Lemma lookup_written (slots : list (jsstring * option jsstring))
    (n : jsstring) (o : option jsstring) :
  NoDup (map (fun slot => toLowerCase slot.1) slots) ->
  (n, o) ∈ slots ->
  fields_object (written_fields slots) !! toLowerCase n = trim <$> o.
Proof. apply lookup_written_from. reflexivity. Qed.

Lemma lookup_unwritten (slots : list (jsstring * option jsstring)) (k : jsstring) :
  k ∉ map (fun slot => toLowerCase slot.1) slots ->
  fields_object (written_fields slots) !! k = None.
Proof.
  intros Hk. unfold fields_object.
  rewrite fields_object_from by (apply written_fields_names, Hk). reflexivity.
Qed.

End FieldsObject.

Section ExportedText.
Import BibTeXExport.
Context {T : Platform.Text}.

Lemma lines_join (fs : list (jsstring * jsstring)) :
  fs <> [] ->
  concat (map (fun p => field_text p ++ [44; 10]) fs)
  = join [44; 10] (map field_text fs) ++ [44; 10].
Proof.
  induction fs as [|p fs IH]; [congruence|]. intros _.
  destruct fs as [|q fs]; [cbn [map concat join]; apply app_nil_r|].
  cbn [map concat]. cbn [map concat] in IH. rewrite IH by discriminate.
  rewrite (join_cons _ (field_text p)) by discriminate.
  rewrite <- !app_assoc. reflexivity.
Qed.

Lemma lines_slots (n : jsstring) (o : option jsstring)
    (slots : list (jsstring * option jsstring)) :
  concat (map (fun p => field_text p ++ [44; 10]) (written_fields ((n, o) :: slots)))
  = match o with Some v => field_text (n, v) ++ [44; 10] | None => [] end
    ++ concat (map (fun p => field_text p ++ [44; 10]) (written_fields slots)).
Proof.
  unfold written_fields. cbn [flat_map fst snd]. rewrite map_app, concat_app.
  destruct o; cbn [map concat]; rewrite ?app_nil_r; reflexivity.
Qed.

Lemma line_text (n v : jsstring) :
  field_text (n, v) ++ [44; 10] = js "  " ++ n ++ js " = {" ++ v ++ js "}," ++ [10].
Proof. unfold field_text. cbn [fst snd]. rewrite <- !app_assoc. reflexivity. Qed.

Lemma line_if (c : bool) (n a : jsstring) :
  match (if c then Some a else None) with
  | Some v => field_text (n, v) ++ [44; 10]
  | None => []
  end
  = if c then js "  " ++ n ++ js " = {" ++ a ++ js "}," ++ [10] else [].
Proof. destruct c; [apply line_text | reflexivity]. Qed.

Lemma line_year (n : jsstring) (o : option number) :
  match toString <$> o with
  | Some v => field_text (n, v) ++ [44; 10]
  | None => []
  end
  = match o with
    | Some y => js "  " ++ n ++ js " = {" ++ toString y ++ js "}," ++ [10]
    | None => []
    end.
Proof. destruct o; [apply line_text | reflexivity]. Qed.

Lemma line_present (n : jsstring) (o : option jsstring) :
  match escapeBibTeX <$> present o with
  | Some v => field_text (n, v) ++ [44; 10]
  | None => []
  end
  = match o with
    | Some (c :: j) =>
      js "  " ++ n ++ js " = {" ++ escapeBibTeX (c :: j) ++ js "}," ++ [10]
    | _ => []
    end.
Proof. destruct o as [[|c j]|]; [reflexivity | apply line_text | reflexivity]. Qed.

(** The entry of a record: the header, the fields written one to a line
    with a comma between them, and the closing brace. *)
Lemma exportEntry_fields (acc : jsstring) (r : Reference) :
  exportEntry acc r
  = acc ++ js "@" ++ entryTypeOf r ++ js "{"
    ++ Validators.createCitationKey (authors r) (year r) (title r) ++ [44; 10]
    ++ join [44; 10] (map field_text (written_fields (exported_slots r)))
    ++ [10; 125; 10; 10].
Proof.
  assert (Hlines :
    exportEntry acc r
    = drop_last 2
        (acc ++ js "@" ++ entryTypeOf r ++ js "{"
         ++ Validators.createCitationKey (authors r) (year r) (title r) ++ [44; 10]
         ++ concat (map (fun p => field_text p ++ [44; 10])
                      (written_fields (exported_slots r))))
      ++ [10; 125; 10; 10]).
  { unfold exportEntry. cbv zeta.
    rewrite (if_append (0 <? length (tags r))%nat).
    rewrite (match_text_append (url r)), (match_text_append (doi r)),
      (match_text_append (journalOrBook r)), (match_year_append (year r)),
      (if_append (0 <? length (authors r))%nat).
    f_equal. f_equal. rewrite <- !app_assoc. do 5 f_equal.
    unfold exported_slots. rewrite !lines_slots.
    rewrite !line_if, line_year, !line_present, line_text.
    change (concat (map _ (written_fields []))) with (@nil Z).
    rewrite app_nil_r, <- !app_assoc. reflexivity. }
  rewrite Hlines, lines_join.
  - rewrite !app_assoc. unfold drop_last. rewrite length_app. cbn [length].
    rewrite Nat.add_sub, take_app_length. rewrite <- !app_assoc. reflexivity.
  - unfold exported_slots, written_fields. cbn [flat_map fst snd app]. discriminate.
Qed.

End ExportedText.

Section Values.
Import BibTeXExport.

Lemma escapeBibTeX_plain (t : jsstring) :
  Forall (fun c => c <> 10 /\ is_brace_or_backslash c = false
                   /\ is_tex_special c = false) t ->
  escapeBibTeX t = t.
Proof.
  intros Ht. unfold escapeBibTeX.
  assert (H1 : escape_all is_brace_or_backslash t = t).
  { induction Ht as [|c t (_ & Hc & _) _ IH]; [reflexivity|].
    unfold escape_all in *. cbn [flat_map]. rewrite Hc, IH. reflexivity. }
  rewrite H1. clear H1.
  induction Ht as [|c t (_ & _ & Hc) _ IH]; [reflexivity|].
  unfold escape_all in *. cbn [flat_map]. rewrite Hc, IH. reflexivity.
Qed.

Lemma plain_text_one_line (t : jsstring) :
  plain_text t ->
  Forall (fun c => c <> 125) t /\ Forall (fun c => c <> 10) t.
Proof.
  intros [_ Ht]. split; (eapply Forall_impl; [exact Ht|]); intros c (Hn & Hb & _).
  - intros ->. discriminate.
  - exact Hn.
Qed.

Lemma trim_ends (s : jsstring) :
  trim s = s ->
  match s with c :: _ => is_space c = false | [] => True end
  /\ match rev s with c :: _ => is_space c = false | [] => True end.
Proof.
  intros H. rewrite <- H. split.
  - unfold trim. apply trimEnd_head, trimStart_head.
  - unfold trim, trimEnd. rewrite rev_involutive. apply trimStart_head.
Qed.

Lemma trim_spaceless (s : jsstring) :
  Forall (fun c => is_space c = false) s -> trim s = s.
Proof.
  intros H. apply trim_fixed.
  - destruct s; [exact I|]. apply (Forall_inv H).
  - apply Forall_rev in H. destruct (rev s); [exact I|]. apply (Forall_inv H).
Qed.

Lemma Forall_join (P : Z -> Prop) (sep : jsstring) (l : list jsstring) :
  Forall P sep -> Forall (Forall P) l -> Forall P (join sep l).
Proof.
  intros Hsep. induction 1 as [|x l Hx Hl IH]; [constructor|].
  destruct l as [|y l]; [exact Hx|].
  rewrite join_cons by discriminate.
  apply Forall_app. split; [exact Hx|]. apply Forall_app. split; [exact Hsep | exact IH].
Qed.

(** Joining texts that are not empty and have no white space at their
    ends gives such a text. *)
Lemma trim_join (sep : jsstring) (l : list jsstring) :
  l <> [] -> Forall (fun x => x <> [] /\ trim x = x) l ->
  trim (join sep l) = join sep l.
Proof.
  intros Hne Hl. apply trim_fixed.
  - destruct l as [|x l]; [congruence|].
    apply Forall_cons in Hl as [[Hx Hxt] _].
    destruct (trim_ends x Hxt) as [Hh _].
    destruct x as [|c x]; [congruence|].
    destruct l; [exact Hh|]. rewrite join_cons by discriminate. exact Hh.
  - destruct (exists_last Hne) as (init & y & ->).
    apply Forall_app in Hl as [_ Hy]. apply Forall_cons in Hy as [[Hy Hyt] _].
    destruct (trim_ends y Hyt) as [_ Ht].
    assert (Hrev : exists d r, rev y = d :: r).
    { destruct (rev y) as [|d r] eqn:Hr; [|eauto].
      apply rev_nil_inv in Hr. congruence. }
    destruct Hrev as (d & r & Hr). rewrite Hr in Ht.
    destruct init as [|w init].
    + cbn [app join]. rewrite Hr. exact Ht.
    + rewrite join_snoc by discriminate. rewrite !rev_app_distr, Hr. exact Ht.
Qed.

Lemma toString_chars (n : number) :
  toString n <> []
  /\ Forall (fun c => is_space c = false /\ c <> 125) (toString n).
Proof.
  assert (Hd : forall d, is_digit d = true -> is_space d = false /\ d <> 125).
  { intros d H. unfold is_digit, is_space in *. lia. }
  destruct n as [z|]; cbn [toString].
  - unfold toStringRadix. destruct (Z.ltb_spec z 0) as [Hneg|Hpos].
    + destruct (parseInt_digits (- z) ltac:(lia)) as [_ (d & ds & -> & Hall)].
      split; [discriminate|]. constructor; [split; [reflexivity | discriminate]|].
      eapply Forall_impl; [exact Hall | exact Hd].
    + destruct (parseInt_digits z Hpos) as [_ (d & ds & -> & Hall)].
      split; [discriminate|]. eapply Forall_impl; [exact Hall | exact Hd].
  - split; [discriminate|]. repeat constructor; discriminate.
Qed.

(** The author field of plain names: on one line, without a closing
    brace, and without white space at its ends. *)
Lemma formatted_authors_value (l : list jsstring) :
  l <> [] -> Forall plain_name l ->
  Forall (fun c => c <> 10 /\ c <> 125) (formatAuthorsForBibTeX l)
  /\ trim (formatAuthorsForBibTeX l) = formatAuthorsForBibTeX l.
Proof.
  intros Hne Hl. unfold formatAuthorsForBibTeX. cbv zeta.
  set (fmt := fun author : jsstring => _).
  split.
  - apply Forall_join; [repeat constructor; discriminate|].
    apply List.Forall_map. eapply Forall_impl; [exact Hl|].
    intros a (ws & -> & Hwne & Hws & _). cbv beta. subst fmt. cbv beta.
    assert (Hsp : Forall spaceless ws).
    { eapply Forall_impl; [exact Hws|]. apply plain_word_spaceless. }
    rewrite (split_words ws Hwne Hsp).
    assert (Hchars : Forall (Forall (fun c => c <> 10 /\ c <> 125)) ws).
    { eapply Forall_impl; [exact Hws|]. intros w [_ Hw].
      eapply Forall_impl; [exact Hw|]. intros c (Hs & _ & _ & Hb & _).
      split; [intros ->; discriminate | exact Hb]. }
    destruct (2 <=? length ws)%nat.
    + destruct (exists_last Hwne) as (init & y & ->).
      rewrite last_snoc, removelast_last.
      apply Forall_app in Hchars as [Hinit Hy]. apply Forall_cons in Hy as [Hy _].
      apply Forall_app. split; [destruct y; [constructor | exact Hy]|].
      apply Forall_app. split; [repeat constructor; discriminate|].
      apply Forall_join; [repeat constructor; discriminate | exact Hinit].
    + apply Forall_join; [repeat constructor; discriminate | exact Hchars].
  - apply trim_join; [destruct l; [congruence | discriminate]|].
    apply List.Forall_map. eapply Forall_impl; [exact Hl|].
    intros a Ha. destruct (format_one a Ha) as (_ & Hfne & Hft & _).
    split; [exact Hfne | exact Hft].
Qed.

End Values.

Section PlainRecords.
Import BibTeX BibTeXExport.
Context {T : Platform.Text}.

Lemma written_one_line (slots : list (jsstring * option jsstring)) :
  Forall (fun slot =>
            slot.1 <> [] /\ Forall (fun c => is_word c = true) slot.1
            /\ forall v, slot.2 = Some v ->
                 Forall (fun c => c <> 125) v /\ Forall (fun c => c <> 10) v)
         slots ->
  Forall one_line_field (written_fields slots).
Proof.
  induction 1 as [|[n o] slots (Hn & Hw & Hv) _ IH]; [constructor|].
  unfold written_fields. cbn [flat_map fst snd] in *.
  apply Forall_app. split; [|exact IH].
  destruct o as [v|]; [|constructor].
  destruct (Hv v eq_refl) as [Hb Hl].
  repeat constructor; assumption.
Qed.

(** The journal or book goes out under [journal] or [booktitle]; the
    third name of the source is never written. *)
Lemma journal_field (r : Reference) :
  match present (journalOrBook r) with
  | Some _ => journalFieldName r = js "journal" \/ journalFieldName r = js "booktitle"
  | None => journalFieldName r = js "howpublished"
  end.
Proof.
  unfold journalFieldName, entryTypeOf.
  destruct (journalOrBook r) as [[|c j]|]; cbn [present truthy];
    [reflexivity | | reflexivity].
  destruct (String_includes _ _); [right | left]; reflexivity.
Qed.

Lemma exported_names_distinct (r : Reference) :
  NoDup (map (fun slot : jsstring * option jsstring => toLowerCase slot.1)
           (exported_slots r)).
Proof.
  unfold exported_slots. cbn [map fst].
  pose proof (journal_field r) as Hj.
  destruct (present (journalOrBook r)); [destruct Hj as [Hj|Hj]|]; rewrite Hj;
    apply (bool_decide_unpack _); vm_compute; reflexivity.
Qed.

Lemma exported_fields_one_line (r : Reference) :
  plain_record r -> Forall one_line_field (written_fields (exported_slots r)).
Proof.
  intros (_ & Htne & Ht & Ha & Hj & Hd & Hu & Htags).
  assert (Hname : forall s : string,
            js s <> [] -> forallb is_word (js s) = true ->
            js s <> [] /\ Forall (fun c => is_word c = true) (js s)).
  { intros s Hne Hw. split; [exact Hne|]. apply Forall_forall. intros c Hc.
    rewrite forallb_forall in Hw. apply Hw, list_elem_of_In, Hc. }
  assert (Hopt : forall o v,
            (forall v, o = Some v -> plain_text v) ->
            escapeBibTeX <$> present o = Some v ->
            Forall (fun c => c <> 125) v /\ Forall (fun c => c <> 10) v).
  { intros o v Ho Hv. destruct o as [[|c j]|]; try discriminate.
    cbn [present truthy fmap option_fmap option_map] in Hv. injection Hv as <-.
    rewrite escapeBibTeX_plain by (apply (Ho _ eq_refl)).
    apply plain_text_one_line, Ho. reflexivity. }
  apply written_one_line. unfold exported_slots.
  repeat (apply Forall_cons; split); [| | | | | | |constructor]; cbn [fst snd].
  - split; [|split]; [apply (Hname "title"%string); [discriminate | reflexivity]..|].
    intros v [= <-]. rewrite escapeBibTeX_plain by apply Ht.
    apply plain_text_one_line, Ht.
  - split; [|split]; [apply (Hname "author"%string); [discriminate | reflexivity]..|].
    intros v Hv. destruct (authors r) as [|a l] eqn:Hau; [discriminate|].
    cbn [length Nat.ltb Nat.leb] in Hv. injection Hv as <-.
    destruct (formatted_authors_value (a :: l) ltac:(discriminate) Ha) as [Hc _].
    split; (eapply Forall_impl; [exact Hc|]); intros c [H10 H125]; assumption.
  - split; [|split]; [apply (Hname "year"%string); [discriminate | reflexivity]..|].
    intros v Hv. destruct (year r) as [y|]; [|discriminate]. injection Hv as <-.
    destruct (toString_chars y) as [_ Hc].
    split; (eapply Forall_impl; [exact Hc|]); intros c [Hs H125];
      [exact H125 | intros ->; discriminate].
  - pose proof (journal_field r) as Hjf.
    assert (Hn : journalFieldName r <> []
                 /\ Forall (fun c => is_word c = true) (journalFieldName r)).
    { destruct (present (journalOrBook r)); [destruct Hjf as [Hjf|Hjf]|]; rewrite Hjf.
      - apply (Hname "journal"%string); [discriminate | reflexivity].
      - apply (Hname "booktitle"%string); [discriminate | reflexivity].
      - apply (Hname "howpublished"%string); [discriminate | reflexivity]. }
    split; [apply Hn | split; [apply Hn|]]. intros v. apply Hopt, Hj.
  - split; [|split]; [apply (Hname "doi"%string); [discriminate | reflexivity]..|].
    intros v. apply Hopt, Hd.
  - split; [|split]; [apply (Hname "url"%string); [discriminate | reflexivity]..|].
    intros v. apply Hopt, Hu.
  - split; [|split]; [apply (Hname "keywords"%string); [discriminate | reflexivity]..|].
    intros v Hv. destruct (0 <? length (tags r))%nat; [|discriminate].
    injection Hv as <-.
    assert (Hc : Forall (fun c => c <> 10 /\ c <> 125) (join (js ", ") (tags r))).
    { apply Forall_join; [repeat constructor; discriminate | exact Htags]. }
    split; (eapply Forall_impl; [exact Hc|]); intros c [H10 H125]; assumption.
Qed.

End PlainRecords.

Section PlainEntries.
Import BibTeX BibTeXExport.
Context {T : Platform.Text}.

Lemma or_else_same (s : jsstring) : or_else (Some s) [] = s.
Proof. destruct s; reflexivity. Qed.

(** The record built from the captures of the entry of a plain record. *)
Lemma entry_of_plain_record (now : Z) (r : Reference) :
  plain_record r ->
  entryToReference now
    (entry_captures (entryTypeOf r)
       (Validators.createCitationKey (authors r) (year r) (title r))
       (10 :: join [44; 10] (map field_text (written_fields (exported_slots r)))))
  = reimported now r.
Proof.
  intros Hr. pose proof (exported_fields_one_line r Hr) as Hfs.
  destruct Hr as (_ & Htne & Ht & Ha & Hj & Hd & Hu & Htags).
  unfold entryToReference. cbv zeta.
  assert (H2 : forall a b c : jsstring, entry_captures a b c !! 2%nat = Some b)
    by reflexivity.
  assert (H3 : forall a b c : jsstring, entry_captures a b c !! 3%nat = Some c)
    by reflexivity.
  rewrite H2, H3. cbn [default from_option Datatypes.id].
  rewrite parseFields_text
    by (eapply Forall_impl; [exact Hfs | intros p [Hp _]; exact Hp]).
  pose proof (exported_names_distinct r) as Hnd.
  assert (Hlook : forall (s : string) o,
            toLowerCase (js s) = js s ->
            (js s, o) ∈ exported_slots r ->
            fields_object (written_fields (exported_slots r)) !! js s = trim <$> o).
  { intros s o Hs Hin. rewrite <- Hs at 1. apply lookup_written; assumption. }
  assert (Hopt : forall o,
            (forall v, o = Some v -> plain_text v) ->
            trim <$> (escapeBibTeX <$> present o) = present o).
  { intros o Ho. destruct o as [[|c j]|]; try reflexivity.
    cbn [present truthy fmap option_fmap option_map].
    rewrite escapeBibTeX_plain by (apply (Ho _ eq_refl)).
    f_equal. apply (Ho _ eq_refl). }
  assert (Htitle : fields_object (written_fields (exported_slots r)) !! js "title"
                   = Some (title r)).
  { rewrite (Hlook "title"%string (Some (escapeBibTeX (title r))));
      [|reflexivity | unfold exported_slots; set_solver].
    cbn [fmap option_fmap option_map].
    rewrite escapeBibTeX_plain by apply Ht. f_equal. apply Ht. }
  assert (Hauthor : fields_object (written_fields (exported_slots r)) !! js "author"
                    = if (0 <? length (authors r))%nat
                      then Some (formatAuthorsForBibTeX (authors r)) else None).
  { rewrite (Hlook "author"%string
               (if (0 <? length (authors r))%nat
                then Some (formatAuthorsForBibTeX (authors r)) else None));
      [|reflexivity | unfold exported_slots; set_solver].
    destruct (authors r) as [|a l] eqn:Hau; [reflexivity|].
    cbn [length Nat.ltb Nat.leb fmap option_fmap option_map]. f_equal.
    apply formatted_authors_value; [discriminate | exact Ha]. }
  assert (Hyear : fields_object (written_fields (exported_slots r)) !! js "year"
                  = toString <$> year r).
  { rewrite (Hlook "year"%string (toString <$> year r));
      [|reflexivity | unfold exported_slots; set_solver].
    destruct (year r) as [y|]; [|reflexivity].
    cbn [fmap option_fmap option_map]. f_equal.
    apply trim_spaceless. destruct (toString_chars y) as [_ Hc].
    eapply Forall_impl; [exact Hc|]. intros c [Hs _]. exact Hs. }
  assert (Hdoi : fields_object (written_fields (exported_slots r)) !! js "doi"
                 = present (doi r)).
  { rewrite (Hlook "doi"%string (escapeBibTeX <$> present (doi r)));
      [|reflexivity | unfold exported_slots; set_solver].
    apply Hopt, Hd. }
  assert (Hurl : fields_object (written_fields (exported_slots r)) !! js "url"
                 = present (url r)).
  { rewrite (Hlook "url"%string (escapeBibTeX <$> present (url r)));
      [|reflexivity | unfold exported_slots; set_solver].
    apply Hopt, Hu. }
  assert (Hjournal :
    or_undef (fields_object (written_fields (exported_slots r)) !! js "journal")
             (fields_object (written_fields (exported_slots r)) !! js "booktitle")
    = present (journalOrBook r)).
  { assert (Hin : (journalFieldName r, escapeBibTeX <$> present (journalOrBook r))
                  ∈ exported_slots r) by (unfold exported_slots; set_solver).
    pose proof (journal_field r) as Hjf.
    pose proof (Hopt _ Hj) as Hv.
    assert (Hnames : map (fun slot : jsstring * option jsstring => toLowerCase slot.1)
                       (exported_slots r)
                     = [js "title"; js "author"; js "year";
                        toLowerCase (journalFieldName r);
                        js "doi"; js "url"; js "keywords"]) by reflexivity.
    destruct (present (journalOrBook r)) as [v|] eqn:Hp.
    - destruct Hjf as [Hjf|Hjf]; rewrite Hjf in Hin.
      + rewrite (Hlook "journal"%string _ eq_refl Hin), Hv.
        unfold present in Hp. destruct (journalOrBook r) as [[|c j]|]; try discriminate.
        injection Hp as <-. reflexivity.
      + rewrite (lookup_unwritten _ (js "journal")).
        * rewrite (Hlook "booktitle"%string _ eq_refl Hin), Hv. reflexivity.
        * rewrite Hnames, Hjf. apply (bool_decide_unpack _). vm_compute. reflexivity.
    - rewrite (lookup_unwritten _ (js "journal")), (lookup_unwritten _ (js "booktitle"));
        [reflexivity | |];
        rewrite Hnames, Hjf; apply (bool_decide_unpack _); vm_compute; reflexivity. }
  rewrite Htitle, Hauthor, Hyear, Hdoi, Hurl, Hjournal.
  unfold reimported. f_equal.
  - apply trim_spaceless. eapply Forall_impl; [apply citation_key_characters|].
    intros c Hc. cbv beta in Hc. apply word_is_not_space. unfold is_word.
    destruct (is_upper c), (is_lower c), (is_digit c), (c =? 95); try reflexivity;
      discriminate.
  - destruct (title r); [congruence | reflexivity].
  - destruct (authors r) as [|a l] eqn:Hau; [reflexivity|].
    cbn [length Nat.ltb Nat.leb]. rewrite or_else_same.
    apply parseAuthors_formatAuthors, Ha.
  - destruct (year r) as [[z|]|]; cbn [fmap option_fmap option_map]; [| |reflexivity].
    + destruct (toString_chars (Int z)) as [Hne _].
      destruct (toString (Int z)) as [|c s] eqn:Hs; [congruence|].
      cbn [truthy]. rewrite <- Hs, parseInt_toString. reflexivity.
    + reflexivity.
Qed.

End PlainEntries.

Section PlainExport.
Import BibTeX BibTeXExport.
Context {T : Platform.Text}.

Lemma exec_entry_skip (junk s : jsstring) :
  64 ∉ junk -> exec entryRegex (junk ++ s) = exec entryRegex s.
Proof.
  induction junk as [|c junk IH]; intros Hj; [reflexivity|].
  apply not_elem_of_cons in Hj as [Hc Hj].
  cbn [app exec]. rewrite match_at_entry_needs_at by congruence. apply IH, Hj.
Qed.

Lemma entryTypeOf_word (r : Reference) :
  entryTypeOf r <> [] /\ Forall (fun c => is_word c = true) (entryTypeOf r).
Proof.
  unfold entryTypeOf.
  destruct (journalOrBook r) as [[|c j]|]; [| destruct (String_includes _ _) |];
    (split; [discriminate | repeat constructor]).
Qed.

Lemma citation_key_word (authors0 : list jsstring) (year0 : option number)
    (title0 : jsstring) :
  Forall (fun c => is_word c = true)
    (Validators.createCitationKey authors0 year0 title0).
Proof.
  eapply Forall_impl; [apply citation_key_characters|].
  intros c Hc. cbv beta in Hc. unfold is_word.
  destruct (is_upper c), (is_lower c), (is_digit c), (c =? 95); try reflexivity;
    discriminate.
Qed.

(** The entries of plain records are found one after the other, each
    giving its record back. *)
Lemma exec_loop_entries (now : Z) (rs : list Reference) :
  Forall plain_record rs ->
  forall (junk : jsstring) (fuel : nat),
    64 ∉ junk ->
    (length (junk ++ exportToBibTeX rs) < fuel)%nat ->
    map (entryToReference now)
      (exec_loop fuel entryRegex (junk ++ exportToBibTeX rs))
    = map (reimported now) rs.
Proof.
  induction 1 as [|r rs Hr Hrs IH]; intros junk fuel Hj Hfuel.
  - destruct fuel as [|fuel]; [lia|]. cbn [exec_loop map].
    change (exportToBibTeX []) with (@nil Z).
    rewrite exec_entry_skip by exact Hj.
    cbn [exec]. rewrite match_at_entry_needs_at by exact I. reflexivity.
  - destruct fuel as [|fuel]; [lia|].
    assert (Htext : exportToBibTeX (r :: rs)
              = js "@" ++ entryTypeOf r ++ js "{"
                ++ Validators.createCitationKey (authors r) (year r) (title r)
                ++ [44; 10]
                ++ join [44; 10] (map field_text (written_fields (exported_slots r)))
                ++ [10; 125] ++ [10; 10] ++ exportToBibTeX rs).
    { unfold exportToBibTeX at 1. cbn [foldl].
      rewrite exportToBibTeX_from, exportEntry_fields.
      rewrite <- !app_assoc. reflexivity. }
    rewrite Htext in Hfuel |- *. cbn [exec_loop].
    rewrite exec_entry_skip by exact Hj.
    assert (Hexec : forall s, exec entryRegex (js "@" ++ s)
                              = match match_at entryRegex (js "@" ++ s) with
                                | Some m => Some m
                                | None => exec entryRegex s
                                end) by reflexivity.
    rewrite Hexec.
    destruct (entryTypeOf_word r) as [Hte Htw].
    rewrite match_at_entry;
      [| exact Hte | exact Htw | apply citation_key_not_empty
       | apply citation_key_word | apply exported_fields_one_line, Hr].
    cbn [map]. rewrite entry_of_plain_record by exact Hr. f_equal.
    apply IH.
    + intros Hin. apply elem_of_cons in Hin as [Hin|Hin]; [discriminate|].
      apply elem_of_cons in Hin as [Hin|Hin]; [discriminate | inversion Hin].
    + rewrite !length_app in Hfuel. rewrite length_app.
      cbn [length js list_ascii_of_string map] in *. lia.
Qed.

End PlainExport.

Section RoundTrip.
Import BibTeX BibTeXExport.

(** X24.  A list of plain records, whose years are absent, NaN or safe
    integers, that is exported and imported again comes back record by
    record and in order, with the title, the authors, the year, the
    journal or book, the DOI and the URL it had;
    every record gets its citation key as identifier and the current time
    as its dates, and is private, unpublished and without tags or
    notes. *)
Theorem plain_records_survive_export_and_import {T : Platform.Text}
    (now : Z) (rs : list Reference) :
  Forall plain_record rs ->
  parseBibTeX now (exportToBibTeX rs) = map (reimported now) rs.
Proof.
  intros Hrs. unfold parseBibTeX, exec_all.
  apply (exec_loop_entries now rs Hrs []); [inversion 1 | cbn [app]; lia].
Qed.

Lemma plain_records_survive_export_and_import_witness :
  parseBibTeX 1700000000 (exportToBibTeX [sample_reference])
  = map (reimported 1700000000) [sample_reference].
Proof.
  apply plain_records_survive_export_and_import.
  assert (Hall : forall (p : Z -> bool) (P : Z -> Prop) (s : jsstring),
            (forall c, p c = true -> P c) -> forallb p s = true -> Forall P s).
  { intros p P s Hp Hs. apply Forall_forall. intros c Hc.
    rewrite forallb_forall in Hs. apply Hp, Hs, list_elem_of_In, Hc. }
  assert (Htext : forall s : string,
            trim (js s) = js s ->
            forallb (fun c => negb (c =? 10) && negb (is_brace_or_backslash c)
                              && negb (is_tex_special c)) (js s) = true ->
            plain_text (js s)).
  { intros s Ht Hs. split; [exact Ht|]. revert Hs. apply Hall.
    intros c Hc. apply andb_prop in Hc as [Hc H3]. apply andb_prop in Hc as [H1 H2].
    apply negb_true_iff in H1, H2, H3. repeat split; [lia | exact H2 | exact H3]. }
  assert (Hword : forall s : string,
            js s <> [] ->
            forallb (fun c => negb (is_space c) && negb (c =? 44) && negb (c =? 123)
                              && negb (c =? 125) && negb (c =? 92)) (js s) = true ->
            plain_word (js s)).
  { intros s Hne Hs. split; [exact Hne|]. revert Hs. apply Hall.
    intros c Hc. unfold is_space in *. lia. }
  constructor; [|constructor].
  split; [cbn [sample_reference year safe_year]; unfold safe_integer; lia|].
  split; [discriminate|].
  split; [apply (Htext "A Test"%string); reflexivity|].
  split.
  { constructor; [|constructor].
    exists [js "Jane"; js "Doe"].
    split; [reflexivity|]. split; [discriminate|]. split.
    - repeat (apply Forall_cons; split; [apply Hword; [discriminate | reflexivity]|]).
      constructor.
    - intros Hin. repeat (apply elem_of_cons in Hin as [Hin|Hin]; [discriminate|]).
      inversion Hin. }
  split; [intros v [= <-]; apply (Htext "Journal of Tests"%string); reflexivity|].
  split; [intros v Hv; discriminate|].
  split; [intros v Hv; discriminate|].
  constructor; [|constructor].
  apply (Hall (fun c => negb (c =? 10) && negb (c =? 125))); [|reflexivity].
  intros c Hc. lia.
Defined.

End RoundTrip.

(** ** The years the dashboard offers as a filter *)

Section YearList.
Import Dashboard.

(** Sorting by the text of a key that tells the elements apart puts them
    in strictly ascending order of that text. *)
Lemma sort_by_text_ascending {A} (f : A -> jsstring) (l : list A) :
  NoDup l -> (forall x y, x ∈ l -> y ∈ l -> f x = f y -> x = y) ->
  StronglySorted (fun a b => str_compare (f a) (f b) = Lt)
    (sort (fun a b => default_compare (f a) (f b)) l).
Proof.
  set (cmp := fun a b => default_compare (f a) (f b)).
  induction 1 as [|x l Hx Hl IH]; intros Hinj; [constructor|].
  change (sort cmp (x :: l)) with (sort_insert cmp x (sort cmp l)).
  apply sort_insert_sorted.
  - intros a b c. apply str_compare_trans.
  - intros y Hy. rewrite sort_perm in Hy. unfold cmp, default_compare.
    destruct (str_compare (f x) (f y)) eqn:Hc; [|reflexivity|lia].
    apply str_compare_eq in Hc.
    assert (x = y) by (apply Hinj; [left | right; exact Hy | exact Hc]).
    subst y. contradiction.
  - intros y Hy. unfold cmp, default_compare. rewrite (str_compare_antisym (f x) (f y)).
    destruct (str_compare (f x) (f y)); cbn [CompOpp]; [lia | lia | reflexivity].
  - apply IH. intros a b Ha Hb. apply Hinj; right; assumption.
Qed.

Lemma toString_truthy_injective (a b : number) :
  truthy_number a = true -> truthy_number b = true ->
  toString a = toString b -> a = b.
Proof.
  destruct a as [x|], b as [y|]; try discriminate. intros _ _ H.
  rewrite <- (parseInt_toString x), <- (parseInt_toString y), H. reflexivity.
Qed.

(** The set of years collected from the records. *)
Lemma years_set (l : list Reference) :
  forall set : list number,
    NoDup set ->
    let collected :=
      foldl (fun set ref =>
               match year ref with
               | Some y => if truthy_number y then Set_add y set else set
               | None => set
               end) set l in
    NoDup collected
    /\ forall y, y ∈ collected
         <-> y ∈ set \/ (truthy_number y = true /\ exists r, r ∈ l /\ year r = Some y).
Proof.
  induction l as [|r l IH]; intros set Hs; cbv zeta; cbn [foldl].
  - split; [exact Hs|]. intros y. split; [left; assumption|].
    intros [H|(_ & r & Hr & _)]; [exact H | inversion Hr].
  - set (set' := match year r with
                 | Some y => if truthy_number y then Set_add y set else set
                 | None => set
                 end).
    assert (Hset' : NoDup set'
              /\ forall y, y ∈ set'
                   <-> y ∈ set \/ (truthy_number y = true /\ year r = Some y)).
    { subst set'. destruct (year r) as [y0|] eqn:Hy.
      - destruct (truthy_number y0) eqn:Ht.
        + split; [apply Set_add_NoDup, Hs|]. intros y. rewrite Set_add_elem.
          split.
          * intros [->|H]; [right; split; [exact Ht | reflexivity] | left; exact H].
          * intros [H|[_ [= ->]]]; [right; exact H | left; reflexivity].
        + split; [exact Hs|]. intros y. split; [left; assumption|].
          intros [H|[Hy' [= ->]]]; [exact H | congruence].
      - split; [exact Hs|]. intros y. split; [left; assumption|].
        intros [H|[_ H]]; [exact H | discriminate]. }
    destruct Hset' as [Hn He]. destruct (IH set' Hn) as [Hn' He'].
    split; [exact Hn'|]. intros y. cbv zeta in He'. rewrite He', He. split.
    + intros [[H|[Ht Hy]]|(Ht & r' & Hr' & Hy)].
      * left. exact H.
      * right. split; [exact Ht|]. exists r. split; [left | exact Hy].
      * right. split; [exact Ht|]. exists r'. split; [right; exact Hr' | exact Hy].
    + intros [H|(Ht & r' & Hr' & Hy)]; [left; left; exact H|].
      apply elem_of_cons in Hr' as [->|Hr'].
      * left. right. split; assumption.
      * right. split; [exact Ht|]. exists r'. split; assumption.
Qed.

(** X25.  In a library whose years are absent or safe integers, the
    years offered as a filter are the years of the records other than
    zero, each once, in strictly ascending order of their decimal text
    (the order of [sort()] without a comparison), and the lists of
    authors and tags are those of [getAllAuthors] and [getAllTags];
    nothing is stored or sent. *)
Theorem year_filter_lists_the_years_as_text (st : State) (w : World) :
  exact_storage (storage w) ->
  exists st',
    loadFilterData st w = (Ok st', w)
    /\ (forall y, y ∈ years st'
          <-> truthy_number y = true /\ exists r, r ∈ storage w /\ year r = Some y)
    /\ StronglySorted (fun a b => str_compare (toString a) (toString b) = Lt)
         (years st')
    /\ ReferenceSearch.getAllAuthors w = (Ok (authors_list st'), w)
    /\ ReferenceSearch.getAllTags w = (Ok (tags_list st'), w)
    /\ references st' = references st.
Proof.
  intros _.
  destruct (years_set (storage w) [] (NoDup_nil_2 (A := number))) as [Hn He].
  cbv zeta in Hn, He.
  eexists. split; [reflexivity|]. cbn [years authors_list tags_list references].
  split; [|split; [|split; [reflexivity | split; reflexivity]]].
  - intros y. rewrite sort_perm, He, elem_of_nil. tauto.
  - apply sort_by_text_ascending; [exact Hn|].
    intros x y Hx Hy. apply He in Hx as [Hx|[Hx _]]; [inversion Hx|].
    apply He in Hy as [Hy|[Hy _]]; [inversion Hy|].
    apply toString_truthy_injective; assumption.
Qed.

Lemma year_filter_lists_the_years_as_text_witness :
  let w := sample_world [sample_reference] in
  let st := mkState [] true [] (mkFilters None None None None) newest [] [] []
              false None in
  exists st',
    loadFilterData st w = (Ok st', w)
    /\ (forall y, y ∈ years st'
          <-> truthy_number y = true /\ exists r, r ∈ storage w /\ year r = Some y)
    /\ StronglySorted (fun a b => str_compare (toString a) (toString b) = Lt)
         (years st')
    /\ ReferenceSearch.getAllAuthors w = (Ok (authors_list st'), w)
    /\ ReferenceSearch.getAllTags w = (Ok (tags_list st'), w)
    /\ references st' = references st.
Proof.
  cbv zeta.
  apply (year_filter_lists_the_years_as_text
           (mkState [] true [] (mkFilters None None None None) newest [] [] []
              false None)
           (sample_world [sample_reference])).
  constructor; [|constructor].
  cbn [sample_reference year stored_exactly]. unfold safe_integer. lia.
Defined.

End YearList.

(** ** The author inputs of the form *)

Section AuthorInputs.
Import ReferenceForm.

(** X26.  Removing an author input changes what is on display, not what
    is validated: a form whose values pass the schema still submits after
    the removal, and hands on the non-blank authors left on display,
    whatever the validated list holds.  The next edit of an input copies
    the inputs into the validated values, which then pass the schema
    again. *)
Theorem removing_an_author_input_is_not_validated (url_ok : jsstring -> bool)
    (this_year : Z) (st : State) (i : nat) :
  (i < length (st_authors st))%nat ->
  Validators.referenceSchema url_ok this_year (values st) = true ->
  length (st_authors (removeAuthorField i st)) = pred (length (st_authors st))
  /\ f_authors (values (removeAuthorField i st)) = f_authors (values st)
  /\ (exists d,
        submit url_ok this_year (removeAuthorField i st) = Some d
        /\ f_authors d = filter (fun a => trim a <> []) (delete i (st_authors st)))
  /\ forall j v,
       (j < length (st_authors (removeAuthorField i st)))%nat ->
       exists st2,
         updateAuthor j v (removeAuthorField i st) = Some st2
         /\ st_authors st2 = <[j := v]> (delete i (st_authors st))
         /\ f_authors (values st2) = st_authors st2
         /\ Validators.referenceSchema url_ok this_year (values st2) = true.
Proof.
  intros Hi Hv.
  split.
  { cbn [removeAuthorField st_authors]. rewrite length_delete; [lia|].
    apply lookup_lt_is_Some_2, Hi. }
  split; [reflexivity|].
  split.
  { unfold submit. cbn [removeAuthorField values]. rewrite Hv.
    eexists. split; reflexivity. }
  intros j v Hj. unfold updateAuthor.
  cbn [removeAuthorField st_authors values] in *.
  rewrite (proj2 (Nat.ltb_lt _ _) Hj). cbn [fmap option_fmap option_map].
  eexists. split; [reflexivity|]. cbn [st_authors values setValue_authors f_authors].
  split; [reflexivity|]. split; [reflexivity|].
  unfold Validators.referenceSchema in *.
  unfold setValue_authors. cbn [f_title f_authors f_year f_doi f_url].
  apply andb_prop in Hv as [Hv Hurl]. apply andb_prop in Hv as [Hv Hdoi].
  apply andb_prop in Hv as [Hv Hyear]. apply andb_prop in Hv as [Htitle _].
  rewrite Htitle, Hyear, Hdoi, Hurl, !andb_true_r.
  apply negb_true_iff, bool_decide_eq_false_2. intros Hnil.
  apply (f_equal length) in Hnil. rewrite length_insert in Hnil.
  cbn [length] in Hnil. lia.
Qed.

Lemma removing_an_author_input_is_not_validated_witness :
  let st := {| values := {| f_title := js "A Test"; f_authors := [js "Jane Doe"];
                            f_year := None; f_journalOrBook := Some [];
                            f_doi := Some []; f_url := Some []; f_tags := [];
                            f_notes := Some []; f_visibility := private |};
               st_authors := [js "Jane Doe"; []]; st_tagInput := []; st_tags := [] |} in
  (exists d,
     submit (fun _ => true) 2025 (removeAuthorField 0 st) = Some d
     /\ f_authors d = [])
  /\ f_authors (values (removeAuthorField 0 st)) = [js "Jane Doe"].
Proof.
  cbv zeta.
  destruct (removing_an_author_input_is_not_validated (fun _ => true) 2025
              {| values := {| f_title := js "A Test"; f_authors := [js "Jane Doe"];
                              f_year := None; f_journalOrBook := Some [];
                              f_doi := Some []; f_url := Some []; f_tags := [];
                              f_notes := Some []; f_visibility := private |};
                 st_authors := [js "Jane Doe"; []]; st_tagInput := [];
                 st_tags := [] |} 0%nat)
    as (_ & Hvalues & (d & Hd & Hauthors) & _).
  - cbn [st_authors length]. lia.
  - reflexivity.
  - split; [|exact Hvalues]. exists d. split; [exact Hd|].
    rewrite Hauthors. reflexivity.
Defined.

End AuthorInputs.
